(** * AIOps monitoring stack: the scoring core of the two Lambda handlers

    Shallow embedding of
    - [src/lambdas/log-analyzer/handler.py]   (class [LogAnalyzer]) and
    - [src/lambdas/anomaly-scorer/handler.py] (class [AnomalyScorer]).

    Conventions.
    - Python [float] values have two models.  In [Binary64] they are the
      binary64 numbers, as the rationals they are, with [inf] and [nan];
      every operation rounds to nearest, ties to even (the two zeros are
      not told apart).  [AnomalyScorer64] and [LogAnalyzer64] are the
      scoring functions over it; numpy's [mean], [std] and [polyfit] are
      library code and enter as parameters.  [AnomalyScorer] and
      [LogAnalyzer] are the same functions in exact rational arithmetic,
      for what rounding does not touch: counting, ordering, the tables of
      tiers and the exceptions.
    - Python [int] values are [Z]; lengths and counters are [nat].
    - Python [str] values are [string]s of code points below 256; the
      character classes of the [re] module are those of Python 3 on these
      code points, where [re.IGNORECASE] folds the letters A-Z and no
      others.
    - A raised exception is a value of the error monad [result]. *)

From Stdlib Require Import ZArith QArith Qpower Qabs Qround Qminmax Lqa Lia.
From Stdlib Require Import Ascii String List Sorted Permutation.
From stdpp Require Import gmap strings list fin_maps.
Import ListNotations.

Local Open Scope string_scope.
Local Open Scope list_scope.

(** ** Exceptions *)

Inductive exn : Type :=
| TypeError (msg : string)
| OverflowError (msg : string).

Inductive result (A : Type) : Type :=
| Ok (a : A)
| Raise (e : exn).
Arguments Ok {A} a.
Arguments Raise {A} e.

Definition bind {A B : Type} (m : result A) (f : A -> result B) : result B :=
  match m with
  | Ok a => f a
  | Raise e => Raise e
  end.

(** ** The fragment of Python's [re] module the handlers use *)

Module Re.

(** Character classes on code points below 256. *)
Definition code (c : ascii) : N := N_of_ascii c.

Definition between (lo hi : N) (c : ascii) : bool :=
  ((lo <=? code c) && (code c <=? hi))%N.

(** [\d] *)
Definition is_digit (c : ascii) : bool := between 48 57 c.

(** [\s]: [str.isspace] *)
Definition is_space (c : ascii) : bool :=
  between 9 13 c || between 28 32 c
  || (code c =? 133)%N || (code c =? 160)%N.

(** [\w]: [str.isalnum] or the underscore *)
Definition is_word (c : ascii) : bool :=
  between 48 57 c || between 65 90 c || (code c =? 95)%N
  || between 97 122 c
  || (code c =? 170)%N || between 178 179 c || (code c =? 181)%N
  || between 185 186 c || between 188 190 c
  || between 192 214 c || between 216 246 c || between 248 255 c.

(** Case folding of [re.IGNORECASE], as far as ASCII letters go. *)
Definition lower (c : ascii) : ascii :=
  if between 65 90 c then ascii_of_N (code c + 32) else c.

Definition chr_eq (ignorecase : bool) (a b : ascii) : bool :=
  if ignorecase then Ascii.eqb (lower a) (lower b) else Ascii.eqb a b.

(** Regular expressions without unbounded repetition. *)
Inductive regex : Type :=
| Empty
| Lit (c : ascii)
| Class (p : ascii -> bool)
| Seq (r1 r2 : regex)
| Opt (r : regex)        (* greedy [r?] *)
| Boundary.              (* [\b] *)

(** [r{n}] *)
Fixpoint times (n : nat) (r : regex) : regex :=
  match n with
  | O => Empty
  | S n' => Seq r (times n' r)
  end.

(** [r{0,n}], greedy *)
Fixpoint upto (n : nat) (r : regex) : regex :=
  match n with
  | O => Empty
  | S n' => Opt (Seq r (upto n' r))
  end.

(** [r{m,n}] for [m <= n] *)
Definition range (m n : nat) (r : regex) : regex :=
  Seq (times m r) (upto (n - m) r).

(** A pattern without metacharacters. *)
Fixpoint literal (s : string) : regex :=
  match s with
  | EmptyString => Empty
  | String c s' => Seq (Lit c) (literal s')
  end.

(** A position in the subject: the character before it and the rest. *)
Record cursor : Type := Cursor { before : option ascii; rest : string }.

Definition next (cur : cursor) : option ascii :=
  match rest cur with
  | EmptyString => None
  | String c _ => Some c
  end.

Definition wordy (o : option ascii) : bool :=
  match o with
  | Some c => is_word c
  | None => false
  end.

Definition at_boundary (cur : cursor) : bool :=
  xorb (wordy (before cur)) (wordy (next cur)).

(** Backtracking matcher in continuation-passing style: the characters
    consumed so far are kept in reverse. *)
Fixpoint run (ignorecase : bool) (r : regex) (seen : list ascii)
    (cur : cursor)
    (k : list ascii -> cursor -> option (list ascii * cursor))
    : option (list ascii * cursor) :=
  match r with
  | Empty => k seen cur
  | Lit c =>
      match rest cur with
      | String a s' =>
          if chr_eq ignorecase a c
          then k (a :: seen) (Cursor (Some a) s')
          else None
      | EmptyString => None
      end
  | Class p =>
      match rest cur with
      | String a s' =>
          if p a then k (a :: seen) (Cursor (Some a) s') else None
      | EmptyString => None
      end
  | Seq r1 r2 =>
      run ignorecase r1 seen cur
        (fun seen' cur' => run ignorecase r2 seen' cur' k)
  | Opt r1 =>
      match run ignorecase r1 seen cur k with
      | Some m => Some m
      | None => k seen cur
      end
  | Boundary => if at_boundary cur then k seen cur else None
  end.

(** [pattern.match] at one position: the matched text and where it ends. *)
Definition match_at (ignorecase : bool) (r : regex) (cur : cursor)
    : option (string * cursor) :=
  match run ignorecase r [] cur (fun seen cur' => Some (seen, cur')) with
  | Some (seen, cur') => Some (string_of_list_ascii (rev seen), cur')
  | None => None
  end.

(** [re.search]: is there a match at some position? *)
Fixpoint search_from (ignorecase : bool) (r : regex)
    (prev : option ascii) (s : string) : bool :=
  match match_at ignorecase r (Cursor prev s) with
  | Some _ => true
  | None =>
      match s with
      | EmptyString => false
      | String c s' => search_from ignorecase r (Some c) s'
      end
  end.

Definition search (ignorecase : bool) (r : regex) (s : string) : bool :=
  search_from ignorecase r None s.

(** [re.findall] for a pattern without capturing groups: the leftmost
    matches, not overlapping.  [skip] counts the characters of the last
    match that are still to be passed over. *)
Fixpoint findall_from (r : regex) (prev : option ascii) (s : string)
    (skip : nat) : list string :=
  match skip with
  | S skip' =>
      match s with
      | EmptyString => []
      | String c s' => findall_from r (Some c) s' skip'
      end
  | O =>
      match match_at false r (Cursor prev s) with
      | Some (m, _) =>
          m :: match s with
               | EmptyString => []
               | String c s' =>
                   findall_from r (Some c) s' (String.length m - 1)
               end
      | None =>
          match s with
          | EmptyString => []
          | String c s' => findall_from r (Some c) s' O
          end
      end
  end.

Definition findall (r : regex) (s : string) : list string :=
  findall_from r None s O.

(** The words of a pattern, word boundaries aside. *)
Fixpoint lang (r : regex) (w : list ascii) : Prop :=
  match r with
  | Empty => w = []
  | Lit c => w = [c]
  | Class p => exists a, w = [a] /\ p a = true
  | Seq r1 r2 => exists w1 w2, w = w1 ++ w2 /\ lang r1 w1 /\ lang r2 w2
  | Opt r1 => w = [] \/ lang r1 w
  | Boundary => w = []
  end.

End Re.

(** The three patterns of [_detect_patterns]. *)

(** [\b(?:[1-5]\d{2})\b] *)
Definition http_code_re : Re.regex :=
  Re.Seq Re.Boundary
    (Re.Seq (Re.Class (Re.between 49 53))
       (Re.Seq (Re.times 2 (Re.Class Re.is_digit)) Re.Boundary)).

(** [\b(?:\d{1,3}\.){3}\d{1,3}\b] *)
Definition ip_address_re : Re.regex :=
  Re.Seq Re.Boundary
    (Re.Seq
       (Re.times 3
          (Re.Seq (Re.range 1 3 (Re.Class Re.is_digit)) (Re.Lit ".")))
       (Re.Seq (Re.range 1 3 (Re.Class Re.is_digit)) Re.Boundary)).

(** [\d{4}-\d{2}-\d{2}[\sT]\d{2}:\d{2}:\d{2}] *)
Definition timestamp_re : Re.regex :=
  let d n := Re.times n (Re.Class Re.is_digit) in
  Re.Seq (d 4) (Re.Seq (Re.Lit "-") (Re.Seq (d 2) (Re.Seq (Re.Lit "-")
    (Re.Seq (d 2)
      (Re.Seq (Re.Class (fun c => Re.is_space c || Ascii.eqb c "T"))
        (Re.Seq (d 2) (Re.Seq (Re.Lit ":") (Re.Seq (d 2)
          (Re.Seq (Re.Lit ":") (d 2)))))))))).

(** Severity tiers, shared by both handlers. *)
Inductive tier : Type := LOW | MEDIUM | HIGH | CRITICAL.

Definition tier_rank (t : tier) : nat :=
  match t with
  | LOW => 0
  | MEDIUM => 1
  | HIGH => 2
  | CRITICAL => 3
  end.

Definition tier_le (t1 t2 : tier) : Prop := (tier_rank t1 <= tier_rank t2)%nat.

(** [float(n)] for a length or a counter [n] *)
Definition Q_of_nat (n : nat) : Q := inject_Z (Z.of_nat n).

(** ** [src/lambdas/log-analyzer/handler.py] *)

Module LogAnalyzer.

(** [LogAnalyzer.__init__]: the patterns are plain words and numbers, so
    that [re.search(pattern, ...)] searches [Re.literal pattern]. *)
Definition error_patterns : list string :=
  [ "ERROR"; "FATAL"; "EXCEPTION"; "CRITICAL"; "FAILED"; "TIMEOUT";
    "OUT OF MEMORY"; "CONNECTION REFUSED"; "503"; "500"; "502"; "504" ].

Definition anomaly_indicators : list string :=
  [ "spike"; "surge"; "unusual"; "anomaly"; "abnormal"; "unexpected" ].

(** [re.search(pattern, message, re.IGNORECASE)] *)
Definition matches (pattern message : string) : bool :=
  Re.search true (Re.literal pattern) message.

(** The counters of the error-detection loop of [_analyze_events]:
    [error_count] and the [Counter] [error_types]. *)
Definition counters : Type := nat * gmap string nat.

(** [error_count += 1; error_types[pattern] += 1] *)
Definition increment (pattern : string) (st : counters) : counters :=
  (S (fst st), <[pattern := S (default O (snd st !! pattern))]> (snd st)).

(** [for pattern in self.error_patterns: if re.search(...): ...; break] *)
Fixpoint scan_patterns (patterns : list string) (message : string)
    (st : counters) : counters :=
  match patterns with
  | [] => st
  | pattern :: patterns' =>
      if matches pattern message
      then increment pattern st
      else scan_patterns patterns' message st
  end.

(** [for message in messages: ...] *)
Definition detect_errors (messages : list string) : counters :=
  fold_left (fun st message => scan_patterns error_patterns message st)
    messages (O, ∅).

(** [_detect_patterns] *)
Definition _detect_patterns (messages : list string) : gset string :=
  fold_left
    (fun (patterns : gset string) message =>
       let http_codes := Re.findall http_code_re message in
       let patterns := patterns ∪ list_to_set http_codes in
       let ip_addresses := Re.findall ip_address_re message in
       let patterns := patterns ∪ list_to_set ip_addresses in
       let timestamps := Re.findall timestamp_re message in
       patterns ∪ list_to_set timestamps)
    (take 100 messages) ∅.

(** The objects that reach the parameter [unique_patterns] of
    [_calculate_anomaly_score]: Python checks no annotation. *)
Inductive pyobj : Type :=
| PyInt (n : Z)
| PySet (s : gset string).

(** The [TypeError] of [set / int]. *)
Definition set_by_int : exn :=
  TypeError "unsupported operand type(s) for /: 'set' and 'int'".

(** [x / d] for an [int] divisor [d <> 0] *)
Definition truediv (x : pyobj) (d : Z) : result Q :=
  match x with
  | PyInt n => Ok (inject_Z n / inject_Z d)%Q
  | PySet _ => Raise set_by_int
  end.

(** [_calculate_anomaly_score] *)
Definition _calculate_anomaly_score (error_count total_events : Z)
    (unique_patterns : pyobj) : result Q :=
  if (total_events =? 0)%Z then Ok 0%Q
  else
    let error_rate := (inject_Z error_count / inject_Z total_events)%Q in
    bind (truediv unique_patterns 10) (fun tenth =>
    let pattern_diversity := Qmin tenth 1 in
    let score := (error_rate * 70 + pattern_diversity * 30)%Q in
    Ok (Qmin (score * 100) 100)).

(** [_determine_severity] *)
Definition _determine_severity (anomaly_score : Q) (error_count : Z) : tier :=
  if Qle_bool 70 anomaly_score || (100 <? error_count)%Z then CRITICAL
  else if Qle_bool 40 anomaly_score || (20 <? error_count)%Z then HIGH
  else if Qle_bool 20 anomaly_score || (5 <? error_count)%Z then MEDIUM
  else LOW.

(** A log event is a dictionary. *)
Definition get_message (event : gmap string string) : string :=
  default "" (event !! "message").

Definition sum_nat (l : list nat) : nat := fold_right Nat.add O l.

Section Analysis.

(** The optional Bedrock summary: the switch [ENABLE_BEDROCK] and
    the call [_get_ai_insights], whose answer is opaque. *)
Context {insights : Type}.
Variable ENABLE_BEDROCK : bool.
Variable _get_ai_insights : list string -> insights.

(** The dictionary [analysis] of [_analyze_events]. *)
Record analysis : Type := {
  error_count : nat;
  error_rate : Q;
  error_types : gmap string nat;
  unique_patterns : nat;
  avg_message_length : Q;
  anomaly_score : Q;
  severity : tier;
  ai_insights : option insights
}.

(** The dictionary built once the score is known. *)
Definition make_analysis (messages : list string) (st : counters)
    (patterns : gset string) (avg_length score : Q) : analysis :=
  let error_count := fst st in
  {| error_count := error_count;
     error_rate :=
       match messages with
       | [] => 0
       | _ => Q_of_nat error_count / Q_of_nat (length messages)
       end;
     error_types := snd st;
     unique_patterns := size patterns;
     avg_message_length := avg_length;
     anomaly_score := score;
     severity := _determine_severity score (Z.of_nat error_count);
     ai_insights :=
       if ENABLE_BEDROCK && (0 <? error_count)%nat
       then Some (_get_ai_insights (take 50 messages))
       else None |}.

(** [_analyze_events]: the score is asked for with the set of patterns
    itself as third argument. *)
Definition _analyze_events (events : list (gmap string string))
    : result analysis :=
  let messages := map get_message events in
  let st := detect_errors messages in
  let unique_patterns := _detect_patterns messages in
  let message_lengths := map String.length messages in
  let avg_length :=
    match message_lengths with
    | [] => 0%Q
    | _ => (Q_of_nat (sum_nat message_lengths)
            / Q_of_nat (length message_lengths))%Q
    end in
  bind (_calculate_anomaly_score (Z.of_nat (fst st))
          (Z.of_nat (length messages)) (PySet unique_patterns))
    (fun anomaly_score =>
       Ok (make_analysis messages st unique_patterns avg_length
             anomaly_score)).

(** What [analyze_log_group] returns, given the events of the
    CloudWatch response (the time range is left out). *)
Inductive report : Type :=
| NoEvents (log_group : string)
| Analysed (log_group : string) (total_events : nat) (a : analysis)
| Failed (log_group : string) (e : exn).

Definition analyze_log_group (log_group_name : string)
    (log_events : list (gmap string string)) : report :=
  match log_events with
  | [] => NoEvents log_group_name
  | _ =>
      match _analyze_events log_events with
      | Ok a => Analysed log_group_name (length log_events) a
      | Raise e => Failed log_group_name e
      end
  end.

End Analysis.

(** The score as the specification words it:
    [min((error_rate * 0.7 + pattern_diversity * 0.3) * 100, 100.0)]. *)
Definition spec_anomaly_score (error_count total_events unique : Z) : Q :=
  let error_rate := (inject_Z error_count / inject_Z total_events)%Q in
  let pattern_diversity := Qmin (inject_Z unique / 10) 1 in
  Qmin ((error_rate * (7 # 10) + pattern_diversity * (3 # 10)) * 100) 100.

(** The sum of the counts of a histogram. *)
Definition total_count (h : gmap string nat) : nat :=
  map_fold (fun _ n acc => (n + acc)%nat) O h.

(** The message has the text [p] in it. *)
Definition contains (p message : string) : Prop :=
  exists pre post : string,
    message = String.append pre (String.append p post).

(** A message is an error line when some pattern is found in it. *)
Definition is_error_line (message : string) : bool :=
  existsb (fun p => matches p message) error_patterns.

(** The number of error lines of a batch. *)
Definition count_lines (messages : list string) : nat :=
  length (List.filter is_error_line messages).

(** The tokens the three patterns find in one message. *)
Definition found_in (x message : string) : Prop :=
  x ∈ Re.findall http_code_re message
  \/ x ∈ Re.findall ip_address_re message
  \/ x ∈ Re.findall timestamp_re message.

(** A log event with the given message. *)
Definition event_of (message : string) : gmap string string :=
  {[ "message" := message ]}.

(** A batch of 100 lines: 30 error lines, and 12 distinct status codes
    among the other 70. *)
Definition sample_batch : list (gmap string string) :=
  map event_of
    (repeat "ERROR: request failed" 30
     ++ map (fun status => String.append "GET /item " status)
          [ "200"; "201"; "202"; "203"; "204"; "205";
            "206"; "207"; "208"; "209"; "210"; "211" ]
     ++ repeat "request served" 58).

End LogAnalyzer.

(** ** [src/lambdas/anomaly-scorer/handler.py] *)

Module AnomalyScorer.

Local Open Scope Q_scope.

(** The attributes set by [AnomalyScorer.__init__]. *)
Record scorer : Type := {
  window_size : nat;
  min_data_points : nat
}.

Definition __init__ : scorer :=
  {| window_size := 24; min_data_points := 10 |}.

(** A datapoint of the CloudWatch response: its timestamp and the value
    of the requested statistic. *)
Record datapoint : Type := { Timestamp : Z; Value : Q }.

(** [sorted(datapoints, key=lambda x: x['Timestamp'])]: stable. *)
Fixpoint insert_sorted (dp : datapoint) (l : list datapoint)
    : list datapoint :=
  match l with
  | [] => [dp]
  | x :: l' =>
      if (Timestamp dp <=? Timestamp x)%Z then dp :: l
      else x :: insert_sorted dp l'
  end.

Definition sorted (datapoints : list datapoint) : list datapoint :=
  fold_right insert_sorted [] datapoints.

(** *** numpy and scipy *)

Definition sum (l : list Q) : Q := fold_right Qplus 0 l.

(** [np.mean] of a non-empty array *)
Definition mean (l : list Q) : Q := sum l / Q_of_nat (length l).

(** [np.arange(n)] *)
Definition arange (n : nat) : list Q := map Q_of_nat (seq 0 n).

(** Pointwise product of two arrays. *)
Fixpoint zip_mul (x y : list Q) : list Q :=
  match x, y with
  | a :: x', b :: y' => a * b :: zip_mul x' y'
  | _, _ => []
  end.

(** [np.polyfit(x, y, 1)]: the coefficients [(slope, intercept)] of the
    least-squares line, by the normal equations, for abscissas that are
    not all equal. *)
Definition polyfit1 (x y : list Q) : Q * Q :=
  let n := Q_of_nat (length x) in
  let slope :=
    (n * sum (zip_mul x y) - sum x * sum y)
    / (n * sum (zip_mul x x) - sum x * sum x) in
  (slope, (sum y - slope * sum x) / n).

(** The sum of the squared residuals of the line [a * x + b]. *)
Fixpoint squared_error (a b : Q) (x y : list Q) : Q :=
  match x, y with
  | u :: x', v :: y' =>
      (v - (a * u + b)) * (v - (a * u + b)) + squared_error a b x' y'
  | _, _ => 0
  end.

(** [stats.percentileofscore(a, score)], of kind ['rank'], for a
    non-empty [a]. *)
Fixpoint count (p : Q -> bool) (a : list Q) : nat :=
  match a with
  | [] => O
  | x :: a' => ((if p x then 1 else 0) + count p a')%nat
  end.

Definition Qlt_bool (x y : Q) : bool := negb (Qle_bool y x).

Definition percentileofscore (a : list Q) (score : Q) : Q :=
  let left := count (fun x => Qlt_bool x score) a in
  let right := count (fun x => Qle_bool x score) a in
  let plus1 := if (left <? right)%nat then 1%nat else 0%nat in
  Q_of_nat (left + right + plus1) * (50 / Q_of_nat (length a)).

(** A quotient of two numpy scalars: dividing by zero gives an infinity
    or [nan], with a warning and no exception. *)
Inductive float64 : Type :=
| Finite (q : Q)
| PosInf
| NegInf
| NaN.

Definition np_divide (a b : Q) : float64 :=
  if Qeq_bool b 0
  then if Qeq_bool a 0 then NaN
       else if Qle_bool 0 a then PosInf else NegInf
  else Finite (a / b).

(** [x > c] *)
Definition greater (x : float64) (c : Q) : bool :=
  match x with
  | Finite q => Qlt_bool c q
  | PosInf => true
  | NegInf => false
  | NaN => false
  end.

(** *** The scorer *)

Inductive trend_kind : Type := increasing | decreasing | stable.

(** The slope fitted to the values against their indices. *)
Definition slope_of (values : list Q) : Q :=
  fst (polyfit1 (arange (length values)) values).

(** [np.mean(values) + 0.001] *)
Definition trend_denominator (values : list Q) : Q :=
  mean values + (1 # 1000).

Definition relative_change (values : list Q) : float64 :=
  np_divide (Qabs (slope_of values)) (trend_denominator values).

(** [_analyze_trend] *)
Definition _analyze_trend (values : list Q) : trend_kind :=
  if (length values <? 3)%nat then stable
  else
    let slope := slope_of values in
    if greater (relative_change values) (1 # 10)
    then if Qlt_bool 0 slope then increasing else decreasing
    else stable.

(** The severity table at the end of [_calculate_score]. *)
Definition severity_of (anomaly_score : Q) : tier :=
  if Qle_bool (7 # 10) anomaly_score then CRITICAL
  else if Qle_bool (5 # 10) anomaly_score then HIGH
  else if Qle_bool (3 # 10) anomaly_score then MEDIUM
  else LOW.

(** The dictionary returned by [_calculate_score]. *)
Record score_result : Type := {
  score : Q;
  severity : tier;
  baseline_mean : Q;
  baseline_std : Q;
  z_score : Q;
  percentile : Q;
  trend : trend_kind
}.

(** [int(n * 0.8)] *)
Definition split_index (n : nat) : nat :=
  Z.to_nat (Qfloor (Q_of_nat n * (8 # 10))).

(** The weighted sum of [_calculate_score]. *)
Definition weighted_score (z_score percentile : Q) (trend : trend_kind)
    : Q :=
  let z_score_normalized := Qmin (z_score / 3) 1 in
  let percentile_score := Qabs (percentile - 50) / 50 in
  let trend_score :=
    match trend with
    | increasing | decreasing => 3 # 10
    | stable => 0
    end in
  z_score_normalized * (5 # 10) + percentile_score * (3 # 10)
  + trend_score * (2 # 10).

(** What [score_metric] returns, given the datapoints of the CloudWatch
    response (name, dimensions and clock are left out).  [Undefined] is
    the outcome on an empty baseline. *)
Inductive metric_result : Type :=
| InsufficientData (anomaly_score : Q) (data_points : nat)
| Scored (r : score_result) (current_value : option Q) (data_points : nat)
| Undefined (data_points : nat).

Section Scoring.

(** The square root of [np.std] is no rational function: the scorer
    is parametric in it. *)
Variable np_sqrt : Q -> Q.

(** [np.std]: the population standard deviation *)
Definition std (l : list Q) : Q :=
  let m := mean l in
  np_sqrt (mean (map (fun x => Qabs (x - m) * Qabs (x - m)) l)).

(** [_calculate_score]; the parameter [timestamps] is not used by the
    source.  [None]: the baseline is empty (one value only), where the
    statistics of numpy and scipy are not numbers. *)
Definition _calculate_score (values : list Q) : option score_result :=
  match values with
  | [] =>
      Some {| score := 0; severity := LOW; baseline_mean := 0;
              baseline_std := 0; z_score := 0; percentile := 50;
              trend := stable |}
  | _ =>
      let current_value := default 0 (last values) in
      let split_idx := split_index (length values) in
      let baseline_values := take split_idx values in
      let recent_values := drop split_idx values in
      match baseline_values with
      | [] => None
      | _ =>
          let baseline_mean := mean baseline_values in
          let baseline_std := std baseline_values in
          let baseline_std :=
            if Qeq_bool baseline_std 0 then 1 # 1000
            else baseline_std in
          let z_score :=
            Qabs ((current_value - baseline_mean) / baseline_std) in
          let percentile :=
            percentileofscore baseline_values current_value in
          let trend := _analyze_trend recent_values in
          let anomaly_score := weighted_score z_score percentile trend in
          Some {| score := anomaly_score;
                  severity := severity_of anomaly_score;
                  baseline_mean := baseline_mean;
                  baseline_std := baseline_std;
                  z_score := z_score;
                  percentile := percentile;
                  trend := trend |}
      end
  end.

(** [score_metric] *)
Definition score_metric (self : scorer) (datapoints : list datapoint)
    : metric_result :=
  if (length datapoints <? min_data_points self)%nat
  then InsufficientData 0 (length datapoints)
  else
    let values := map Value (sorted datapoints) in
    match _calculate_score values with
    | Some r => Scored r (last values) (length datapoints)
    | None => Undefined (length datapoints)
    end.

End Scoring.

(** A rational approximation of the square root from below. *)
Definition sqrt_floor (q : Q) : Q :=
  Z.sqrt (Qnum q * Zpos (Qden q)) # Qden q.

(** The datapoints of a series of values, one per time step. *)
Definition series_of (values : list Q) : list datapoint :=
  map (fun p => {| Timestamp := Z.of_nat (fst p); Value := snd p |})
    (List.combine (seq 0 (length values)) values).

(** Twelve samples at 0, then 1, 2, 3. *)
Definition steep_values : list Q := repeat 0 12 ++ [1; 2; 3].

End AnomalyScorer.

(** ** Binary64 arithmetic *)

Module Binary64.

Import AnomalyScorer.
Local Open Scope Q_scope.

(** [2^e] *)
Definition pow2 (e : Z) : Q := 2 ^ e.

(** The exponent of a positive number: [2^e <= q < 2^(e+1)]. *)
Definition ilog2 (q : Q) : Z :=
  let e := (Z.log2 (Qnum q) - Z.log2 (Zpos (Qden q)))%Z in
  if Qle_bool (pow2 e) q then e else (e - 1)%Z.

(** The nearest integer, a tie going to the even one. *)
Definition rne (x : Q) : Z :=
  let f := Qfloor x in
  match Qcompare (x - inject_Z f) (1 # 2) with
  | Lt => f
  | Gt => (f + 1)%Z
  | Eq => if Z.even f then f else (f + 1)%Z
  end.

(** The spacing of the binary64 numbers around a positive number: 53
    bits of precision, exponents from -1022 on. *)
Definition ulp (q : Q) : Q := pow2 (Z.max (ilog2 q) (-1022) - 52).

Definition round_pos (q : Q) : Q := inject_Z (rne (q / ulp q)) * ulp q.

(** Rounding to nearest, ties to even, with unbounded exponent range
    upwards. *)
Definition round (q : Q) : Q :=
  match Qcompare q 0 with
  | Eq => 0
  | Gt => Qred (round_pos q)
  | Lt => Qred (- round_pos (- q))
  end.

(** The largest binary64 number. *)
Definition max_float : Q := (pow2 53 - 1) * pow2 971.

(** The binary64 value of an exact result. *)
Definition of_Q (q : Q) : float64 :=
  let r := round q in
  if Qlt_bool max_float r then PosInf
  else if Qlt_bool r (- max_float) then NegInf
  else Finite r.

Definition of_Z (n : Z) : float64 := of_Q (inject_Z n).
Definition of_nat (n : nat) : float64 := of_Z (Z.of_nat n).

Definition opp (x : float64) : float64 :=
  match x with
  | Finite a => Finite (- a)
  | PosInf => NegInf
  | NegInf => PosInf
  | NaN => NaN
  end.

Definition add (x y : float64) : float64 :=
  match x, y with
  | NaN, _ | _, NaN => NaN
  | Finite a, Finite b => of_Q (a + b)
  | PosInf, NegInf | NegInf, PosInf => NaN
  | PosInf, _ | _, PosInf => PosInf
  | NegInf, _ | _, NegInf => NegInf
  end.

Definition sub (x y : float64) : float64 := add x (opp y).

(** The sign of a number or an infinity: -1, 0 or 1. *)
Definition sign (x : float64) : Z :=
  match x with
  | Finite a => match Qcompare a 0 with Lt => -1 | Eq => 0 | Gt => 1 end
  | PosInf => 1
  | NegInf => -1
  | NaN => 0
  end%Z.

Definition signed_inf (s : Z) : float64 :=
  match s with
  | Z0 => NaN
  | Zpos _ => PosInf
  | Zneg _ => NegInf
  end.

Definition mul (x y : float64) : float64 :=
  match x, y with
  | NaN, _ | _, NaN => NaN
  | Finite a, Finite b => of_Q (a * b)
  | _, _ => signed_inf (sign x * sign y)
  end.

(** The quotient of numpy scalars: a zero divisor gives an infinity or
    [nan]. *)
Definition div (x y : float64) : float64 :=
  match x, y with
  | NaN, _ | _, NaN => NaN
  | Finite a, Finite b =>
      if Qeq_bool b 0 then signed_inf (sign x) else of_Q (a / b)
  | Finite _, _ => Finite 0
  | _, Finite b => signed_inf (sign x * (if Qlt_bool b 0 then -1 else 1))
  | _, _ => NaN
  end.

Definition abs (x : float64) : float64 :=
  match x with
  | Finite a => Finite (Qabs a)
  | PosInf | NegInf => PosInf
  | NaN => NaN
  end.

(** [x < y], [x <= y], [x == y]: false when either is [nan]. *)
Definition ltb (x y : float64) : bool :=
  match x, y with
  | Finite a, Finite b => Qlt_bool a b
  | NegInf, (Finite _ | PosInf) => true
  | Finite _, PosInf => true
  | _, _ => false
  end.

Definition leb (x y : float64) : bool :=
  match x, y with
  | Finite a, Finite b => Qle_bool a b
  | NegInf, (Finite _ | PosInf | NegInf) => true
  | (Finite _ | PosInf), PosInf => true
  | _, _ => false
  end.

Definition eqb (x y : float64) : bool := leb x y && leb y x.

(** Python's [min(a, b)]: [b] if [b < a], else [a]. *)
Definition pymin (a b : float64) : float64 := if ltb b a then b else a.

(** The correctly rounded square root. *)
Definition rne_sqrt (x : Q) : Z :=
  let f := Z.sqrt (Qfloor x) in
  let half := inject_Z f + (1 # 2) in
  match Qcompare x (half * half) with
  | Lt => f
  | Gt => (f + 1)%Z
  | Eq => if Z.even f then f else (f + 1)%Z
  end.

Definition sqrt (x : float64) : float64 :=
  match x with
  | Finite a =>
      match Qcompare a 0 with
      | Eq => Finite 0
      | Lt => NaN
      | Gt =>
          let u := pow2 (ilog2 a / 2 - 52) in
          Finite (Qred (inject_Z (rne_sqrt (a / (u * u))) * u))
      end
  | PosInf => PosInf
  | _ => NaN
  end.

(** Numbers that are not negative, [inf] among them. *)
Definition nonneg (x : float64) : Prop :=
  match x with
  | Finite a => 0 <= a
  | PosInf => True
  | _ => False
  end.

(** The binary64 number written as a decimal literal. *)
Definition lit (q : Q) : float64 := of_Q q.

End Binary64.

(** ** The anomaly scorer in binary64 arithmetic *)

Module AnomalyScorer64.

Import AnomalyScorer Binary64.
Local Open Scope Q_scope.

(** [int(n * 0.8)]; the product is a number for every length. *)
Definition split_index (n : nat) : nat :=
  match mul (of_nat n) (lit (8 # 10)) with
  | Finite q => Z.to_nat (Qfloor q)
  | _ => O
  end.

(** [stats.percentileofscore(a, score)], of kind ['rank'], as of
    scipy 1.9: [(left + right + plus1) * (50.0 / n)]. *)
Definition percentileofscore (a : list Q) (score : Q) : float64 :=
  match a with
  | [] => NaN
  | _ =>
      let left := count (fun x => Qlt_bool x score) a in
      let right := count (fun x => Qle_bool x score) a in
      let plus1 := if (left <? right)%nat then 1%nat else 0%nat in
      mul (of_nat (left + right + plus1))
        (div (lit 50) (of_nat (length a)))
  end.

(** The severity table at the end of [_calculate_score]. *)
Definition severity_of (anomaly_score : float64) : tier :=
  if leb (lit (7 # 10)) anomaly_score then CRITICAL
  else if leb (lit (5 # 10)) anomaly_score then HIGH
  else if leb (lit (3 # 10)) anomaly_score then MEDIUM
  else LOW.

(** The weighted sum of [_calculate_score], summed from the left. *)
Definition weighted_score (z_score percentile : float64)
    (trend : trend_kind) : float64 :=
  let z_score_normalized := pymin (div z_score (lit 3)) (lit 1) in
  let percentile_score := div (abs (sub percentile (lit 50))) (lit 50) in
  let trend_score :=
    match trend with
    | increasing | decreasing => lit (3 # 10)
    | stable => lit 0
    end in
  add (add (mul z_score_normalized (lit (5 # 10)))
         (mul percentile_score (lit (3 # 10))))
    (mul trend_score (lit (2 # 10))).

(** The literals 0.3 and 0.2 of the weighted sum, as binary64 numbers. *)
Definition c03 : Q := 5404319552844595 # 18014398509481984.
Definition c02 : Q := 3602879701896397 # 18014398509481984.

(** The largest score: the binary64 number next above 0.86. *)
Definition score_max : Q := 3873095679538627 # 4503599627370496.

(** The dictionary returned by [_calculate_score]. *)
Record score_result : Type := {
  score : float64;
  severity : tier;
  baseline_mean : float64;
  baseline_std : float64;
  z_score : float64;
  percentile : float64;
  trend : trend_kind
}.

(** What [score_metric] returns, given the datapoints of the CloudWatch
    response (name, dimensions and clock are left out). *)
Inductive metric_result : Type :=
| InsufficientData (anomaly_score : float64) (data_points : nat)
| Scored (r : score_result) (current_value : option Q) (data_points : nat).

Section Scoring.

(** [np.mean], [np.std] and [np.polyfit(x, y, 1)] are library code: the
    scorer is parametric in what they return for an array of numbers. *)
Variable np_mean : list Q -> float64.
Variable np_std : list Q -> float64.
Variable np_polyfit1 : list Q -> list Q -> float64 * float64.

(** [_analyze_trend] *)
Definition _analyze_trend (values : list Q) : trend_kind :=
  if (length values <? 3)%nat then stable
  else
    let x := arange (length values) in
    let slope := fst (np_polyfit1 x values) in
    let relative_change :=
      div (abs slope) (add (np_mean values) (lit (1 # 1000))) in
    if ltb (lit (1 # 10)) relative_change
    then if ltb (lit 0) slope then increasing else decreasing
    else stable.

(** [_calculate_score]; the parameter [timestamps] is not used by the
    source. *)
Definition _calculate_score (values : list Q) : score_result :=
  match values with
  | [] =>
      {| score := lit 0; severity := LOW; baseline_mean := lit 0;
         baseline_std := lit 0; z_score := lit 0; percentile := lit 50;
         trend := stable |}
  | _ =>
      let current_value := default 0 (last values) in
      let split_idx := split_index (length values) in
      let baseline_values := take split_idx values in
      let recent_values := drop split_idx values in
      let baseline_mean := np_mean baseline_values in
      let baseline_std := np_std baseline_values in
      let baseline_std :=
        if eqb baseline_std (lit 0) then lit (1 # 1000)
        else baseline_std in
      let z_score :=
        abs (div (sub (Finite current_value) baseline_mean) baseline_std) in
      let percentile :=
        percentileofscore baseline_values current_value in
      let trend := _analyze_trend recent_values in
      let anomaly_score := weighted_score z_score percentile trend in
      {| score := anomaly_score;
         severity := severity_of anomaly_score;
         baseline_mean := baseline_mean;
         baseline_std := baseline_std;
         z_score := z_score;
         percentile := percentile;
         trend := trend |}
  end.

(** [score_metric] *)
Definition score_metric (self : scorer) (datapoints : list datapoint)
    : metric_result :=
  if (length datapoints <? min_data_points self)%nat
  then InsufficientData (lit 0) (length datapoints)
  else
    let values := map Value (sorted datapoints) in
    Scored (_calculate_score values) (last values) (length datapoints).

End Scoring.

(** *** The library on arrays it handles without rounding

    Sums taken from the left, the mean and the standard deviation by
    their definitions, and the least-squares line rounded once.  numpy
    sums in another order and fits by a decomposition, so that its
    results agree with these in all but the last bits, and to the bit
    where every sum and quotient is a binary64 number. *)
Definition fsum (l : list float64) : float64 := fold_left add l (lit 0).

Definition ref_mean (l : list Q) : float64 :=
  div (fsum (map Finite l)) (of_nat (length l)).

Definition ref_std (l : list Q) : float64 :=
  let m := ref_mean l in
  let squares :=
    map (fun x => let d := abs (sub (Finite x) m) in mul d d) l in
  sqrt (div (fsum squares) (of_nat (length l))).

Definition ref_polyfit1 (x y : list Q) : float64 * float64 :=
  (of_Q (fst (polyfit1 x y)), of_Q (snd (polyfit1 x y))).

End AnomalyScorer64.

(** ** The score of the log analyzer in binary64 arithmetic *)

Module LogAnalyzer64.

Import AnomalyScorer Binary64 LogAnalyzer.

(** The [OverflowError] of a quotient of integers beyond the binary64
    range. *)
Definition too_large : exn :=
  OverflowError "integer division result too large for a float".

(** [n / d] for integers, [d <> 0]: the quotient, rounded once. *)
Definition int_truediv (n d : Z) : result float64 :=
  match of_Q (inject_Z n / inject_Z d) with
  | Finite q => Ok (Finite q)
  | _ => Raise too_large
  end.

(** [x / d] for an [int] divisor [d <> 0] *)
Definition truediv (x : pyobj) (d : Z) : result float64 :=
  match x with
  | PyInt n => int_truediv n d
  | PySet _ => Raise set_by_int
  end.

(** [_calculate_anomaly_score] *)
Definition _calculate_anomaly_score (error_count total_events : Z)
    (unique_patterns : pyobj) : result float64 :=
  if (total_events =? 0)%Z then Ok (lit 0)
  else
    bind (int_truediv error_count total_events) (fun error_rate =>
    bind (truediv unique_patterns 10) (fun tenth =>
    let pattern_diversity := pymin tenth (lit 1) in
    let score :=
      add (mul error_rate (of_Z 70)) (mul pattern_diversity (of_Z 30)) in
    Ok (pymin (mul score (of_Z 100)) (lit 100)))).

End LogAnalyzer64.

(** ** More notions to state what the log analyzer does *)

Module LogSpec.

Import LogAnalyzer.

(** A message with its letters A-Z folded to a-z. *)
Fixpoint fold_case (s : string) : string :=
  match s with
  | EmptyString => EmptyString
  | String c s' => String (Re.lower c) (fold_case s')
  end.

(** The message has [p] in it, letter case aside. *)
Definition contains_ci (p message : string) : Prop :=
  exists pre mid post : string,
    message = String.append pre (String.append mid post)
    /\ fold_case mid = fold_case p.

(** The pattern that wins a message: the first one found in it. *)
Definition first_match (message : string) : option string :=
  List.find (fun p => matches p message) error_patterns.

(** The number of messages won by the pattern [p]. *)
Definition bucket_count (p : string) (messages : list string) : nat :=
  length
    (List.filter
       (fun m => match first_match m with
                 | Some q => String.eqb q p
                 | None => false
                 end)
       messages).

(** One to three digits. *)
Definition digits_1_3 (g : list ascii) : Prop :=
  (1 <= length g <= 3)%nat /\ Forall (fun c => Re.is_digit c = true) g.

(** The analysis of a batch without a line. *)
Definition empty_analysis {insights : Type} : @analysis insights :=
  {| error_count := O; error_rate := 0; error_types := ∅;
     unique_patterns := O; avg_message_length := 0; anomaly_score := 0;
     severity := LOW; ai_insights := None |}.

(** The two halves of the table of [_determine_severity]. *)
Definition score_tier (anomaly_score : Q) : tier :=
  if Qle_bool 70 anomaly_score then CRITICAL
  else if Qle_bool 40 anomaly_score then HIGH
  else if Qle_bool 20 anomaly_score then MEDIUM
  else LOW.

Definition count_tier (error_count : Z) : tier :=
  if (100 <? error_count)%Z then CRITICAL
  else if (20 <? error_count)%Z then HIGH
  else if (5 <? error_count)%Z then MEDIUM
  else LOW.

Definition tier_max (t1 t2 : tier) : tier :=
  if (tier_rank t1 <=? tier_rank t2)%nat then t2 else t1.

End LogSpec.

(** ** The Lambda entry point of the log analyzer *)

Module LogLambda.

Import LogAnalyzer.

(** [str.split(',')] *)
Fixpoint split_commas (s : string) : list string :=
  match s with
  | EmptyString => [EmptyString]
  | String c s' =>
      if Ascii.eqb c ","
      then EmptyString :: split_commas s'
      else match split_commas s' with
           | field :: fields => String c field :: fields
           | [] => [String c EmptyString]
           end
  end.

(** [str.lstrip()], [str.rstrip()] and [str.strip()] *)
Fixpoint lstrip (s : string) : string :=
  match s with
  | EmptyString => EmptyString
  | String c s' => if Re.is_space c then lstrip s' else s
  end.

Fixpoint rstrip (s : string) : string :=
  match s with
  | EmptyString => EmptyString
  | String c s' =>
      match rstrip s' with
      | EmptyString => if Re.is_space c then EmptyString
                       else String c EmptyString
      | r => String c r
      end
  end.

Definition strip (s : string) : string := rstrip (lstrip s).

Definition nonempty (s : string) : bool :=
  match s with
  | EmptyString => false
  | String _ _ => true
  end.

(** [[lg.strip() for lg in LOG_GROUPS.split(',') if lg.strip()]] *)
Definition parse_log_groups (LOG_GROUPS : string) : list string :=
  List.filter nonempty (map strip (split_commas LOG_GROUPS)).

(** [','.join(names)] *)
Fixpoint join_commas (names : list string) : string :=
  match names with
  | [] => EmptyString
  | [name] => name
  | name :: names' =>
      String.append name (String "," (join_commas names'))
  end.

(** A name that stands for itself in such a list: not empty, without a
    comma, without white space at either end. *)
Fixpoint has_comma (s : string) : bool :=
  match s with
  | EmptyString => false
  | String c s' => Ascii.eqb c "," || has_comma s'
  end.

Definition clean_name (s : string) : Prop :=
  nonempty s = true /\ has_comma s = false /\ strip s = s.

(** The event of the invocation: [event.get('log_groups', [])] and
    [event.get('hours', 1)], a whole number of hours when given. *)
Record lambda_event : Type := {
  log_groups : option (list string);
  hours : option Z
}.

(** What [filter_log_events] answers: the events of the response, or an
    exception of the client. *)
Inductive response : Type :=
| Events (events : list (gmap string string))
| ClientError (msg : string).

Section Handler.

Context {insights : Type}.
Variable ENABLE_BEDROCK : bool.
Variable _get_ai_insights : list string -> insights.

(** The environment: [SNS_TOPIC_ARN] and [LOG_GROUPS], each set or not. *)
Variable SNS_TOPIC_ARN : option string.
Variable LOG_GROUPS : option string.

(** Lines 80-81 of [analyze_log_group]: the start and the end of the
    window in milliseconds, as [datetime] computes them from the clock
    and the number of hours before anything is tried, or the exception
    of this arithmetic (an [OverflowError] for a number of hours beyond
    the range of [timedelta] or of the calendar).  The clock is read in
    every call: [call] is the number of the call. *)
Variable time_window : nat -> Z -> result (Z * Z).

(** [cloudwatch_logs.filter_log_events] for a log group and a window. *)
Variable filter_log_events : string -> Z -> Z -> response.

(** What [analyze_log_group] returns for a log group. *)
Inductive group_result : Type :=
| Report (r : @report insights)
| FetchFailed (log_group msg : string).

Definition analyze_log_group_call (call : nat) (log_group_name : string)
    (hours : Z) : result group_result :=
  bind (time_window call hours) (fun window =>
    Ok match filter_log_events log_group_name (fst window) (snd window) with
       | ClientError msg => FetchFailed log_group_name msg
       | Events log_events =>
           Report (analyze_log_group ENABLE_BEDROCK _get_ai_insights
                     log_group_name log_events)
       end).

(** The calls made to SNS and to CloudWatch, in order. *)
Inductive effect : Type :=
| Publish (topic : string) (severity : tier) (log_group : string)
    (a : @analysis insights)
| PutMetricData (log_group : string) (anomaly_score : Q) (error_count : nat).

(** [not SNS_TOPIC_ARN] fails for a topic that is set and not empty. *)
Definition configured (topic : option string) : option string :=
  match topic with
  | Some (String c t) => Some (String c t)
  | _ => None
  end.

(** [publish_alert] *)
Definition publish_alert (r : @report insights) : list effect :=
  match configured SNS_TOPIC_ARN with
  | None => []
  | Some topic =>
      match r with
      | Analysed log_group _ a =>
          match severity a with
          | CRITICAL | HIGH => [Publish topic (severity a) log_group a]
          | _ => []
          end
      | _ => []
      end
  end.

(** ['error' in analysis] *)
Definition has_error (g : group_result) : bool :=
  match g with
  | Report (Failed _ _) => true
  | Report _ => false
  | FetchFailed _ _ => true
  end.

Definition group_name (g : group_result) : string :=
  match g with
  | Report (NoEvents name) => name
  | Report (Analysed name _ _) => name
  | Report (Failed name _) => name
  | FetchFailed name _ => name
  end.

(** [analysis.get('anomaly_score', 0)] and [analysis.get('error_count', 0)] *)
Definition reported_score (g : group_result) : Q :=
  match g with
  | Report (Analysed _ _ a) => anomaly_score a
  | _ => 0
  end.

Definition reported_errors (g : group_result) : nat :=
  match g with
  | Report (Analysed _ _ a) => error_count a
  | _ => O
  end.

(** The body of the loop of [lambda_handler], for one log group. *)
Definition handle_group (call : nat) (hours : Z) (log_group : string)
    : result (group_result * list effect) :=
  bind (analyze_log_group_call call log_group hours) (fun analysis =>
    let alerts :=
      match analysis with
      | Report r => if has_error analysis then [] else publish_alert r
      | FetchFailed _ _ => []
      end in
    Ok (analysis,
        alerts ++ [PutMetricData log_group (reported_score analysis)
                     (reported_errors analysis)])).

(** The loop of [lambda_handler] from the call [call] on: the calls made
    to SNS and CloudWatch, and the results or the exception that ends
    the loop. *)
Fixpoint handle_groups (call : nat) (hours : Z) (groups : list string)
    : list effect * result (list group_result) :=
  match groups with
  | [] => ([], Ok [])
  | log_group :: groups' =>
      match handle_group call hours log_group with
      | Raise e => ([], Raise e)
      | Ok (analysis, effects) =>
          let rest := handle_groups (S call) hours groups' in
          (effects ++ fst rest,
           bind (snd rest) (fun results => Ok (analysis :: results)))
      end
  end.

(** The log groups of the invocation. *)
Definition chosen_log_groups (event : lambda_event) : list string :=
  match default [] (log_groups event) with
  | [] => parse_log_groups (default EmptyString LOG_GROUPS)
  | groups => groups
  end.

(** [lambda_handler]: the calls made, and the status code with the
    results, or the exception that escapes. *)
Definition lambda_handler (event : lambda_event)
    : list effect * result (Z * list group_result) :=
  let hours := default 1%Z (hours event) in
  let handled := handle_groups O hours (chosen_log_groups event) in
  (fst handled, bind (snd handled) (fun results => Ok (200%Z, results))).

End Handler.

End LogLambda.

(** ** More notions to state what the anomaly scorer does *)

Module ScorerSpec.

Import AnomalyScorer.
Local Open Scope Q_scope.

(** The order of the timestamps. *)
Definition earlier_or_same (a b : datapoint) : Prop :=
  (Timestamp a <= Timestamp b)%Z.

(** The datapoints of one timestamp, in the order of the list. *)
Definition at_time (t : Z) (datapoints : list datapoint) : list datapoint :=
  List.filter (fun dp => (Timestamp dp =? t)%Z) datapoints.


End ScorerSpec.

(** ** The Lambda entry point of the anomaly scorer *)

Module ScorerLambda.

Import AnomalyScorer.
Local Open Scope Q_scope.

(** A metric of the event: every key may be missing. *)
Record metric : Type := {
  namespace : option string;
  metric_name : option string;
  dimensions : option (list (string * string));
  statistic : option string
}.

(** A dimension as the CloudWatch API takes it. *)
Record dimension : Type := { Name : string; Value : option string }.

(** [_format_dimensions] *)
Definition _format_dimensions (dimensions : list (string * string))
    : list dimension :=
  map (fun kv => {| Name := fst kv; Value := Some (snd kv) |}) dimensions.

(** The metrics scored when the event names none. *)
Definition default_metrics : list metric :=
  [ {| namespace := Some "AWS/Lambda"; metric_name := Some "Duration";
       dimensions := None; statistic := Some "Average" |};
    {| namespace := Some "AWS/Lambda"; metric_name := Some "Errors";
       dimensions := None; statistic := Some "Sum" |};
    {| namespace := Some "AWS/ApplicationELB";
       metric_name := Some "TargetResponseTime";
       dimensions := None; statistic := Some "Average" |} ].

(** What [get_metric_statistics] answers. *)
Inductive response : Type :=
| Datapoints (datapoints : list datapoint)
| ClientError (msg : string).

(** What [score_metric] returns for a metric: the result of the scoring,
    or the error of the client. *)
Inductive outcome : Type :=
| Outcome (r : metric_result)
| Error (msg : string).

Record scored : Type := {
  of_metric : metric;
  result_of : outcome
}.

(** The calls made to CloudWatch and to SNS, in order. *)
Inductive effect : Type :=
| PutMetricData (dimensions : list dimension) (value : float64)
| Publish (topic : string) (severity : tier) (s : scored).

Section Handler.

Variable np_sqrt : Q -> Q.

(** The environment: [SNS_TOPIC_ARN] and [ANOMALY_THRESHOLD]. *)
Variable SNS_TOPIC_ARN : option string.
Variable ANOMALY_THRESHOLD : Q.

(** [cloudwatch.get_metric_statistics] for a namespace, a metric name,
    dimensions and a statistic. *)
Variable get_metric_statistics :
  option string -> option string -> list dimension -> string -> response.

(** [score_metric], with the call to CloudWatch *)
Definition score_metric_call (self : scorer) (m : metric) : scored :=
  let formatted :=
    match dimensions m with
    | Some (d :: ds) => _format_dimensions (d :: ds)
    | _ => []
    end in
  {| of_metric := m;
     result_of :=
       match get_metric_statistics (namespace m) (metric_name m) formatted
               (default "Average" (statistic m)) with
       | ClientError msg => Error msg
       | Datapoints datapoints =>
           Outcome (score_metric np_sqrt self datapoints)
       end |}.

(** [score_multiple_metrics] *)
Definition score_multiple_metrics (self : scorer) (metrics : list metric)
    : list scored :=
  map (score_metric_call self) metrics.

Definition is_put (e : effect) : bool :=
  match e with
  | PutMetricData _ _ => true
  | Publish _ _ _ => false
  end.

(** [score_result.get('anomaly_score', 0)] *)
Definition reported_score (s : scored) : float64 :=
  match result_of s with
  | Outcome (InsufficientData anomaly_score _) => Finite anomaly_score
  | Outcome (Scored r _ _) => Finite (score r)
  | Outcome (Undefined _) => NaN
  | Error _ => Finite 0
  end.

(** [score_result.get('severity', 'LOW')] *)
Definition reported_severity (s : scored) : tier :=
  match result_of s with
  | Outcome (Scored r _ _) => severity r
  | _ => LOW
  end.

(** [score_result.get('dimensions')]: only a full result has the key. *)
Definition reported_dimensions (s : scored)
    : option (list (string * string)) :=
  match result_of s with
  | Outcome (Scored _ _ _) => dimensions (of_metric s)
  | _ => None
  end.

(** [x >= c] *)
Definition at_least (x : float64) (c : Q) : bool :=
  match x with
  | Finite q => Qle_bool c q
  | PosInf => true
  | NegInf => false
  | NaN => false
  end.

Definition configured (topic : option string) : option string :=
  match topic with
  | Some (String c t) => Some (String c t)
  | _ => None
  end.

(** [publish_anomaly_alert] *)
Definition publish_anomaly_alert (s : scored) : list effect :=
  match configured SNS_TOPIC_ARN with
  | None => []
  | Some topic =>
      if at_least (reported_score s) ANOMALY_THRESHOLD
      then [Publish topic (reported_severity s) s]
      else []
  end.

(** [publish_metric] *)
Definition publish_metric (s : scored) : list effect :=
  let dimensions :=
    match reported_dimensions s with
    | Some (d :: ds) => _format_dimensions (d :: ds)
    | _ => []
    end in
  let dimensions :=
    dimensions
    ++ [{| Name := "MetricName"; Value := metric_name (of_metric s) |}] in
  [PutMetricData dimensions (reported_score s)].

(** ['error' in result] *)
Definition has_error (s : scored) : bool :=
  match result_of s with
  | Error _ => true
  | Outcome _ => false
  end.

(** The body of the loop of [lambda_handler], for one result. *)
Definition process_result (s : scored) : list effect :=
  if has_error s then [] else publish_metric s ++ publish_anomaly_alert s.

(** [event.get('metrics', [])], or the default metrics *)
Definition chosen_metrics (metrics : option (list metric)) : list metric :=
  match default [] metrics with
  | [] => default_metrics
  | ms => ms
  end.

(** [lambda_handler]: the status code, the results and the calls made. *)
Definition lambda_handler (metrics : option (list metric))
    : Z * list scored * list effect :=
  let results := score_multiple_metrics __init__ (chosen_metrics metrics) in
  (200%Z, results, concat (map process_result results)).

End Handler.

End ScorerLambda.

(** * Counters as rationals *)


Lemma Q_of_nat_pos (n : nat) : (0 < n)%nat -> (0 < Q_of_nat n)%Q.
Proof.
  intros H. unfold Q_of_nat. change 0%Q with (inject_Z 0).
  rewrite <- Zlt_Qlt. lia.
Qed.


(** * Properties of the matcher *)

Module ReFacts.

Lemma run_sound (r : Re.regex) :
  forall seen cur k res,
    Re.run false r seen cur k = Some res ->
    exists w cur', Re.lang r w /\ k (rev w ++ seen) cur' = Some res.
Proof.
  induction r as [|c|p|r1 IH1 r2 IH2|r1 IH1|]; intros seen cur k res H;
    cbn [Re.run] in H.
  - exists [], cur. split; [reflexivity|exact H].
  - destruct (Re.rest cur) as [|a s']; [discriminate|].
    unfold Re.chr_eq in H. destruct (Ascii.eqb a c) eqn:E; [|discriminate].
    apply Ascii.eqb_eq in E. subst a.
    exists [c], (Re.Cursor (Some c) s'). split; [reflexivity|exact H].
  - destruct (Re.rest cur) as [|a s']; [discriminate|].
    destruct (p a) eqn:E; [|discriminate].
    exists [a], (Re.Cursor (Some a) s'). split; [exists a; auto|exact H].
  - apply IH1 in H. destruct H as (w1 & cur1 & L1 & H).
    apply IH2 in H. destruct H as (w2 & cur2 & L2 & H).
    exists (w1 ++ w2), cur2. split.
    + exists w1, w2. auto.
    + rewrite rev_app_distr, <- app_assoc. exact H.
  - destruct (Re.run false r1 seen cur k) as [m|] eqn:E.
    + injection H as ->. apply IH1 in E. destruct E as (w & cur' & L & E).
      exists w, cur'. split; [right; exact L|exact E].
    + exists [], cur. split; [left; reflexivity|exact H].
  - destruct (Re.at_boundary cur); [|discriminate].
    exists [], cur. split; [reflexivity|exact H].
Qed.

Lemma match_at_sound (r : Re.regex) (cur cur' : Re.cursor) (m : string) :
  Re.match_at false r cur = Some (m, cur') ->
  exists w, Re.lang r w /\ m = string_of_list_ascii w.
Proof.
  unfold Re.match_at. intros H.
  destruct (Re.run false r [] cur _) as [[seen c]|] eqn:E; [|discriminate].
  injection H as <- <-.
  apply run_sound in E. destruct E as (w & c' & L & E).
  injection E as <- <-. exists w. split; [exact L|].
  rewrite app_nil_r, rev_involutive. reflexivity.
Qed.

Lemma findall_from_sound (r : Re.regex) (s : string) :
  forall prev skip x,
    In x (Re.findall_from r prev s skip) ->
    exists w, Re.lang r w /\ x = string_of_list_ascii w.
Proof.
  induction s as [|c s IH]; intros prev skip x H.
  - destruct skip; cbn [Re.findall_from] in H; [|contradiction].
    destruct (Re.match_at false r _) as [[m c']|] eqn:E; [|contradiction].
    destruct H as [<-|[]]. apply (match_at_sound _ _ _ _ E).
  - destruct skip; cbn [Re.findall_from] in H; [|apply (IH _ _ _ H)].
    destruct (Re.match_at false r _) as [[m c']|] eqn:E.
    + destruct H as [<-|H]; [apply (match_at_sound _ _ _ _ E)|].
      apply (IH _ _ _ H).
    + apply (IH _ _ _ H).
Qed.

Lemma http_code_shape (message x : string) :
  In x (Re.findall http_code_re message) ->
  exists a b c : ascii,
    x = String a (String b (String c EmptyString))
    /\ Re.between 49 53 a = true
    /\ Re.is_digit b = true /\ Re.is_digit c = true.
Proof.
  intros H. apply findall_from_sound in H. destruct H as (w & L & ->).
  cbn in L.
  destruct L as (w0 & w1 & -> & -> & (wa & w2 & -> & (a & -> & Ha)
                 & (w3 & w4 & -> & L3 & ->))).
  destruct L3 as (wb & w5 & -> & (b & -> & Hb) & (wc & w6 & -> & (c & -> & Hc) & ->)).
  exists a, b, c. cbn. auto.
Qed.

Lemma chr_eq_refl (ignorecase : bool) (a : ascii) :
  Re.chr_eq ignorecase a a = true.
Proof. unfold Re.chr_eq. destruct ignorecase; apply Ascii.eqb_refl. Qed.

Lemma run_literal (ignorecase : bool) (p : string) :
  forall seen prev post k,
    exists prev',
      Re.run ignorecase (Re.literal p) seen
        (Re.Cursor prev (String.append p post)) k
      = k (rev (list_ascii_of_string p) ++ seen) (Re.Cursor prev' post).
Proof.
  induction p as [|c p IH]; intros seen prev post k.
  - exists prev. reflexivity.
  - simpl. rewrite chr_eq_refl.
    destruct (IH (c :: seen) (Some c) post k) as [prev' E].
    exists prev'. rewrite E. cbn [list_ascii_of_string rev].
    rewrite <- app_assoc. reflexivity.
Qed.

Lemma search_from_later (ignorecase : bool) (r : Re.regex)
    (prev : option ascii) (c : ascii) (s : string) :
  Re.search_from ignorecase r (Some c) s = true ->
  Re.search_from ignorecase r prev (String c s) = true.
Proof.
  intros H. cbn [Re.search_from].
  destruct (Re.match_at ignorecase r _); [reflexivity|exact H].
Qed.

Lemma search_from_here (ignorecase : bool) (r : Re.regex)
    (prev : option ascii) (s : string) (m : string * Re.cursor) :
  Re.match_at ignorecase r (Re.Cursor prev s) = Some m ->
  Re.search_from ignorecase r prev s = true.
Proof.
  intros H. destruct s; cbn [Re.search_from]; rewrite H; reflexivity.
Qed.

Lemma search_literal_substring (ignorecase : bool) (p pre post : string) :
  forall prev,
    Re.search_from ignorecase (Re.literal p) prev
      (String.append pre (String.append p post)) = true.
Proof.
  induction pre as [|c pre IH]; intros prev.
  - change (Re.search_from ignorecase (Re.literal p) prev
              (String.append p post) = true).
    destruct (run_literal ignorecase p [] prev post
                (fun seen cur' => Some (seen, cur'))) as [prev' E].
    eapply search_from_here. unfold Re.match_at. rewrite E.
    reflexivity.
  - change (Re.search_from ignorecase (Re.literal p) prev
              (String c (String.append pre (String.append p post))) = true).
    apply search_from_later, IH.
Qed.

End ReFacts.

(** * Properties of the log analyzer *)

Module LogAnalyzerFacts.

Import LogAnalyzer.

(** ** The error-detection loop *)

Lemma contains_matches (p message : string) :
  contains p message -> matches p message = true.
Proof.
  intros (pre & post & ->). apply ReFacts.search_literal_substring.
Qed.

Lemma scan_patterns_none (patterns : list string) (message : string)
    (st : counters) :
  Forall (fun q => matches q message = false) patterns ->
  scan_patterns patterns message st = st.
Proof.
  induction 1 as [|q qs Hq _ IH]; simpl.
  - reflexivity.
  - rewrite Hq. exact IH.
Qed.

Lemma scan_patterns_first (pre post : list string) (p message : string)
    (st : counters) :
  Forall (fun q => matches q message = false) pre ->
  matches p message = true ->
  scan_patterns (pre ++ p :: post) message st = increment p st.
Proof.
  induction 1 as [|q qs Hq _ IH]; simpl; intros Hp.
  - rewrite Hp. reflexivity.
  - rewrite Hq. apply IH, Hp.
Qed.

Lemma scan_patterns_cases (patterns : list string) (message : string)
    (st : counters) :
  (existsb (fun p => matches p message) patterns = false
   /\ scan_patterns patterns message st = st)
  \/ (existsb (fun p => matches p message) patterns = true
      /\ exists p, In p patterns
                   /\ scan_patterns patterns message st = increment p st).
Proof.
  induction patterns as [|q qs IH]; simpl.
  - left. split; reflexivity.
  - destruct (matches q message) eqn:Hq; simpl.
    + right. split; [reflexivity|]. exists q. split; [left|]; reflexivity.
    + destruct IH as [[H1 H2]|[H1 [p [Hin H2]]]].
      * left. split; assumption.
      * right. split; [assumption|]. exists p. split; [right|]; assumption.
Qed.

Lemma detect_errors_count_from (messages : list string) (st : counters) :
  fst (fold_left (fun st message => scan_patterns error_patterns message st)
         messages st)
  = (fst st + count_lines messages)%nat.
Proof.
  revert st. induction messages as [|m ms IH]; intros st; cbn [fold_left].
  - unfold count_lines. cbn [List.filter length]. lia.
  - rewrite IH. unfold count_lines. cbn [List.filter].
    destruct (scan_patterns_cases error_patterns m st)
      as [[H1 H2]|[H1 [p [_ H2]]]];
      unfold is_error_line; rewrite H1, H2; cbn [length fst increment]; lia.
Qed.

Lemma count_lines_le (messages : list string) :
  (count_lines messages <= length messages)%nat.
Proof. unfold count_lines. apply List.filter_length_le. Qed.

(** ** The histogram *)

Lemma total_count_increment (p : string) (h : gmap string nat) :
  total_count (<[p := S (default O (h !! p))]> h) = S (total_count h).
Proof.
  unfold total_count.
  assert (Hcomm : forall (j1 j2 : string) (z1 z2 y : nat),
             (z1 + (z2 + y) = z2 + (z1 + y))%nat) by (intros; lia).
  destruct (h !! p) as [v|] eqn:Hp; simpl.
  - rewrite <- (insert_delete_eq h p (S v)).
    rewrite map_fold_insert_L.
    + rewrite (map_fold_delete_L _ _ p v h); [lia| |exact Hp].
      intros; apply Hcomm; assumption.
    + intros; apply Hcomm; assumption.
    + apply lookup_delete_eq.
  - rewrite map_fold_insert_L; [reflexivity| |exact Hp].
    intros; apply Hcomm; assumption.
Qed.

Lemma scan_patterns_total (patterns : list string) (message : string)
    (st : counters) :
  total_count (snd st) = fst st ->
  total_count (snd (scan_patterns patterns message st))
  = fst (scan_patterns patterns message st).
Proof.
  intros Hst.
  destruct (scan_patterns_cases patterns message st)
    as [[_ H]|[_ [p [_ H]]]]; rewrite H.
  - exact Hst.
  - unfold increment. simpl. rewrite total_count_increment, Hst.
    reflexivity.
Qed.

Lemma detect_errors_total_from (messages : list string) (st : counters) :
  total_count (snd st) = fst st ->
  let st' :=
    fold_left (fun st message => scan_patterns error_patterns message st)
      messages st in
  total_count (snd st') = fst st'.
Proof.
  revert st. induction messages as [|m ms IH]; intros st Hst;
    cbn [fold_left].
  - exact Hst.
  - apply IH, scan_patterns_total, Hst.
Qed.

Lemma detect_errors_total (messages : list string) :
  total_count (snd (detect_errors messages)) = fst (detect_errors messages).
Proof.
  apply detect_errors_total_from. reflexivity.
Qed.

Lemma detect_errors_count (messages : list string) :
  fst (detect_errors messages) = count_lines messages.
Proof. unfold detect_errors. rewrite detect_errors_count_from. reflexivity. Qed.

Lemma detect_errors_le (messages : list string) :
  (fst (detect_errors messages) <= length messages)%nat.
Proof. rewrite detect_errors_count. apply count_lines_le. Qed.

(** C7: a line in which one or more of the ordered patterns is found adds
    exactly one to [error_count] and one to the bucket of the first such
    pattern, and changes no other bucket; a line with none changes
    nothing; a line with both ERROR and 500 counts once, for ERROR only;
    so [error_count] is the number of error lines, at most the number of
    lines; a line that has the texts ERROR and 500 in it is such a line. *)
Theorem C7_first_match_wins :
  (forall (pre post : list string) (p message : string) (st : counters),
      Forall (fun q => matches q message = false) pre ->
      matches p message = true ->
      let st' := scan_patterns (pre ++ p :: post) message st in
      fst st' = S (fst st)
      /\ snd st' !! p = Some (S (default O (snd st !! p)))
      /\ forall q : string, q <> p -> snd st' !! q = snd st !! q)
  /\ (forall (patterns : list string) (message : string) (st : counters),
      Forall (fun q => matches q message = false) patterns ->
      scan_patterns patterns message st = st)
  /\ (forall (message : string) (st : counters),
      matches "ERROR" message = true ->
      matches "500" message = true ->
      let st' := scan_patterns error_patterns message st in
      fst st' = S (fst st)
      /\ snd st' !! "ERROR" = Some (S (default O (snd st !! "ERROR")))
      /\ snd st' !! "500" = snd st !! "500")
  /\ (forall messages : list string,
      fst (detect_errors messages) = count_lines messages
      /\ (fst (detect_errors messages) <= length messages)%nat)
  /\ (forall (message : string) (st : counters),
      contains "ERROR" message ->
      contains "500" message ->
      matches "ERROR" message = true
      /\ matches "500" message = true
      /\ scan_patterns error_patterns message st = increment "ERROR" st).
Proof.
  split; [|split; [|split; [|split]]].
  - intros pre post p message st Hpre Hp. cbv zeta.
    rewrite (scan_patterns_first pre post p message st Hpre Hp).
    unfold increment. cbn [fst snd].
    split; [reflexivity|]. split.
    + apply lookup_insert_eq.
    + intros q Hq. apply lookup_insert_ne. congruence.
  - apply scan_patterns_none.
  - intros message st He _. cbv zeta.
    change error_patterns with ([] ++ "ERROR" :: tl error_patterns).
    rewrite (scan_patterns_first [] _ "ERROR" message st (List.Forall_nil _) He).
    unfold increment. cbn [fst snd].
    split; [reflexivity|]. split.
    + apply lookup_insert_eq.
    + apply lookup_insert_ne. discriminate.
  - intros messages. split.
    + apply detect_errors_count.
    + apply detect_errors_le.
  - intros message st He H5.
    pose proof (contains_matches _ _ He) as Me.
    split; [exact Me|]. split; [apply contains_matches, H5|].
    change error_patterns with ([] ++ "ERROR" :: tl error_patterns).
    apply scan_patterns_first; [constructor|exact Me].
Qed.

Lemma C7_first_match_wins_witness :
  let st' :=
    scan_patterns error_patterns "ERROR: upstream answered 500" (O, ∅) in
  fst st' = 1%nat
  /\ snd st' !! "ERROR" = Some 1%nat
  /\ snd st' !! "500" = None.
Proof.
  destruct C7_first_match_wins as (_ & _ & H & _ & _).
  exact (H "ERROR: upstream answered 500" (O, ∅) eq_refl eq_refl).
Defined.

(** ** The pattern extractor *)

Lemma detect_patterns_fold (messages : list string) (acc : gset string)
    (x : string) :
  x ∈ fold_left
        (fun (patterns : gset string) message =>
           patterns ∪ list_to_set (Re.findall http_code_re message)
           ∪ list_to_set (Re.findall ip_address_re message)
           ∪ list_to_set (Re.findall timestamp_re message))
        messages acc
  <-> x ∈ acc \/ exists m, m ∈ messages /\ found_in x m.
Proof.
  revert acc. induction messages as [|m ms IH]; intros acc; cbn [fold_left].
  - split; [auto|]. intros [H|[m [Hm _]]]; [exact H|].
    apply elem_of_nil in Hm. contradiction.
  - rewrite IH. unfold found_in. split.
    + intros [H|[m' [Hm' H]]].
      * rewrite !elem_of_union, !elem_of_list_to_set in H.
        destruct H as [[[H|H]|H]|H]; [left; exact H| | |];
          right; exists m; (split; [apply list_elem_of_here|]); tauto.
      * right. exists m'. split; [apply list_elem_of_further, Hm'|exact H].
    + intros [H|[m' [Hm' H]]].
      * left. rewrite !elem_of_union. tauto.
      * apply elem_of_cons in Hm'. destruct Hm' as [->|Hm'].
        -- left. rewrite !elem_of_union, !elem_of_list_to_set. tauto.
        -- right. exists m'. split; assumption.
Qed.

(** C9: the extractor reads the first 100 lines only: its result is that
    of the first 100 lines, lines after the 100th never change it, and a
    token is in the result exactly when one of the three patterns (status
    code, dotted quad, date and time) finds it in one of these lines; such
    a token is a word of its pattern, and a status code is three digits
    of which the first is 1 to 5. *)
Theorem C9_first_100_lines_only :
  (forall messages : list string,
      _detect_patterns messages = _detect_patterns (take 100 messages))
  /\ (forall messages beyond : list string,
      (100 <= length messages)%nat ->
      _detect_patterns (messages ++ beyond) = _detect_patterns messages)
  /\ (forall (messages : list string) (x : string),
      x ∈ _detect_patterns messages
      <-> exists m, m ∈ take 100 messages /\ found_in x m)
  /\ (forall message x : string,
      found_in x message ->
      exists w : list ascii,
        x = string_of_list_ascii w
        /\ (Re.lang http_code_re w \/ Re.lang ip_address_re w
            \/ Re.lang timestamp_re w))
  /\ (forall message x : string,
      x ∈ Re.findall http_code_re message ->
      exists a b c : ascii,
        x = String a (String b (String c EmptyString))
        /\ Re.between 49 53 a = true
        /\ Re.is_digit b = true /\ Re.is_digit c = true).
Proof.
  split; [|split; [|split; [|split]]].
  - intros messages. unfold _detect_patterns.
    rewrite take_take, Nat.min_id. reflexivity.
  - intros messages beyond Hlen. unfold _detect_patterns.
    rewrite take_app_le by exact Hlen. reflexivity.
  - intros messages x. unfold _detect_patterns.
    rewrite detect_patterns_fold. split.
    + intros [H|H]; [|exact H]. apply not_elem_of_empty in H. contradiction.
    + intros H. right. exact H.
  - intros message x [H|[H|H]]; apply list_elem_of_In in H;
      apply ReFacts.findall_from_sound in H; destruct H as (w & L & ->);
      exists w; (split; [reflexivity|]); tauto.
  - intros message x H. apply list_elem_of_In in H.
    apply (ReFacts.http_code_shape message x H).
Qed.

Lemma C9_first_100_lines_only_witness :
  _detect_patterns
    (repeat "GET /health 200" 100 ++ ["POST /login 403 from 10.0.0.7"])
  = _detect_patterns (repeat "GET /health 200" 100).
Proof.
  destruct C9_first_100_lines_only as (_ & H & _ & _ & _).
  apply (H (repeat "GET /health 200" 100)).
  rewrite repeat_length. apply Nat.le_refl.
Defined.

(** ** The analysis record *)

Section Analysis.

Context {insights : Type}.
Variable ENABLE_BEDROCK : bool.
Variable _get_ai_insights : list string -> insights.

Local Abbreviation analyze :=
  (_analyze_events ENABLE_BEDROCK _get_ai_insights).

(** Every non-empty batch: the score is asked for with a set where a
    number is divided, and the [TypeError] ends the analysis. *)
Lemma analyze_events_raises (events : list (gmap string string)) :
  events <> [] -> analyze events = Raise set_by_int.
Proof.
  intros Hne. unfold _analyze_events, _calculate_anomaly_score.
  rewrite length_map.
  destruct events as [|e es]; [congruence|].
  cbn [length]. rewrite (proj2 (Z.eqb_neq _ 0)) by lia.
  reflexivity.
Qed.

End Analysis.

(** C10: at the end of the detection loop the counts of [error_types]
    add up to [error_count], which is at most the number of lines.  But
    the record with [error_count], [error_rate] and [error_types] is
    built after the score is computed, and for a batch that is not
    empty this computation raises: no analysis of such a batch is
    returned, and what [analyze_log_group] returns instead has neither
    histogram nor rate.  So it is for the two lines "ERROR 500" and
    "GET / 200", whose counters are 1 error, in the bucket "ERROR". *)
Theorem C10_no_histogram_is_returned :
  (forall messages : list string,
      total_count (snd (detect_errors messages)) = fst (detect_errors messages)
      /\ (fst (detect_errors messages) <= length messages)%nat)
  /\ (forall (insights : Type) (enable : bool)
             (get : list string -> insights) (name : string)
             (events : list (gmap string string)),
        events <> [] ->
        (forall a : analysis, _analyze_events enable get events <> Ok a)
        /\ (forall (total : nat) (a : analysis),
              analyze_log_group enable get name events
              <> Analysed name total a))
  /\ (let events := [event_of "ERROR 500"; event_of "GET / 200"] in
      let st := detect_errors (map get_message events) in
      fst st = 1%nat
      /\ snd st !! "ERROR" = Some 1%nat
      /\ total_count (snd st) = 1%nat
      /\ _analyze_events false (fun _ : list string => tt) events
         = Raise set_by_int
      /\ analyze_log_group false (fun _ : list string => tt) "app" events
         = Failed "app" set_by_int).
Proof.
  split; [|split].
  - intros messages. split; [apply detect_errors_total|apply detect_errors_le].
  - intros insights enable get name events Hne.
    pose proof (analyze_events_raises enable get events Hne) as H.
    split.
    + intros a E. rewrite H in E. discriminate E.
    + intros total a E. unfold analyze_log_group in E. rewrite H in E.
      destruct events; [congruence|discriminate E].
  - cbv zeta. repeat split; vm_compute; reflexivity.
Qed.

(** ** The score *)

Lemma saturated_score (error_count total_events unique : Z) :
  (0 <= error_count)%Z -> (0 < total_events)%Z -> (1 <= unique)%Z ->
  exists s : Q,
    _calculate_anomaly_score error_count total_events (PyInt unique) = Ok s
    /\ (s == 100)%Q
    /\ _determine_severity s error_count = CRITICAL.
Proof.
  intros Hec Htot Hu.
  unfold _calculate_anomaly_score, truediv. cbn [bind].
  rewrite (proj2 (Z.eqb_neq _ 0)) by lia.
  eexists. split; [reflexivity|].
  set (rate := (inject_Z error_count / inject_Z total_events)%Q).
  set (tenth := (inject_Z unique / inject_Z 10)%Q).
  assert (Hrate : (0 <= rate)%Q).
  { unfold rate. apply Qle_shift_div_l.
    - change 0%Q with (inject_Z 0). rewrite <- Zlt_Qlt. exact Htot.
    - rewrite Qmult_0_l. change 0%Q with (inject_Z 0).
      rewrite <- Zle_Qle. exact Hec. }
  assert (Htenth : (1 # 10 <= tenth)%Q).
  { assert (Hq : (1 <= inject_Z unique)%Q)
      by (change 1%Q with (inject_Z 1); rewrite <- Zle_Qle; exact Hu).
    unfold tenth, Qdiv. change (/ inject_Z 10)%Q with (1 # 10)%Q. lra. }
  assert (Hdiv : (1 # 10 <= Qmin tenth 1)%Q).
  { apply Q.min_glb; [exact Htenth|]. unfold Qle. simpl. lia. }
  assert (Hs : (Qmin ((rate * 70 + Qmin tenth 1 * 30) * 100) 100 == 100)%Q).
  { apply Q.min_r. lra. }
  split; [exact Hs|].
  unfold _determine_severity.
  assert (H70 : Qle_bool 70 (Qmin ((rate * 70 + Qmin tenth 1 * 30) * 100) 100)
                = true).
  { apply Qle_bool_iff. rewrite Hs. unfold Qle. simpl. lia. }
  rewrite H70. reflexivity.
Qed.

(** C1: on a batch of 100 lines with 30 error lines and 12 distinct
    patterns the specified score is 51 and the tier HIGH, whereas
    [_calculate_anomaly_score 30 100 12] is 100 and the tier CRITICAL, and
    the analysis of the batch itself ends in a [TypeError]. *)
Theorem C1_score_of_sample_batch :
  let messages := map get_message sample_batch in
  length messages = 100%nat
  /\ fst (detect_errors messages) = 30%nat
  /\ size (_detect_patterns messages) = 12%nat
  /\ (spec_anomaly_score 30 100 12 == 51)%Q
  /\ _determine_severity 51 30 = HIGH
  /\ _calculate_anomaly_score 30 100 (PyInt 12) = Ok 100%Q
  /\ _determine_severity 100 30 = CRITICAL
  /\ _analyze_events false (fun _ : list string => tt) sample_batch
     = Raise set_by_int
  /\ analyze_log_group false (fun _ : list string => tt) "app" sample_batch
     = Failed "app" set_by_int.
Proof.
  cbv zeta. repeat split; vm_compute; reflexivity.
Qed.

(** C2: the analysis of every non-empty batch ends in the [TypeError] of
    dividing the set of patterns, so that no score and no tier is
    returned; called with the number of patterns instead, at least one,
    [_calculate_anomaly_score] returns 100 and the tier is CRITICAL. *)
Theorem C2_saturation_never_reached :
  (forall (insights : Type) (enable : bool)
          (get : list string -> insights) (name : string)
          (events : list (gmap string string)),
      events <> [] ->
      _analyze_events enable get events = Raise set_by_int
      /\ analyze_log_group enable get name events = Failed name set_by_int)
  /\ (forall error_count total_events unique : Z,
      (0 <= error_count)%Z -> (0 < total_events)%Z -> (1 <= unique)%Z ->
      exists s : Q,
        _calculate_anomaly_score error_count total_events (PyInt unique)
        = Ok s
        /\ (s == 100)%Q
        /\ _determine_severity s error_count = CRITICAL).
Proof.
  split.
  - intros insights enable get name events Hne.
    pose proof (analyze_events_raises enable get events Hne) as H.
    split; [exact H|].
    unfold analyze_log_group. rewrite H.
    destruct events; [congruence|reflexivity].
  - apply saturated_score.
Qed.

Lemma C2_saturation_never_reached_witness :
  _analyze_events false (fun _ : list string => tt)
    [event_of "GET /index.html 200"]
  = Raise set_by_int
  /\ size (_detect_patterns [get_message (event_of "GET /index.html 200")])
     = 1%nat.
Proof.
  destruct C2_saturation_never_reached as [H _].
  split.
  - apply (H unit false (fun _ : list string => tt) "app"
             [event_of "GET /index.html 200"]).
    discriminate.
  - vm_compute. reflexivity.
Defined.

End LogAnalyzerFacts.

(** * Properties of the severity tables *)

Module SeverityFacts.

Lemma Qle_bool_mono (c x y : Q) :
  (x <= y)%Q -> Qle_bool c x = true -> Qle_bool c y = true.
Proof.
  intros Hxy Hx. apply Qle_bool_iff. apply Qle_bool_iff in Hx.
  apply Qle_trans with x; assumption.
Qed.

Lemma ltb_mono (c x y : Z) :
  (x <= y)%Z -> (c <? x)%Z = true -> (c <? y)%Z = true.
Proof. intros Hxy Hx. apply Z.ltb_lt. apply Z.ltb_lt in Hx. lia. Qed.

Lemma numeric_table_monotone (s1 s2 : Q) :
  (s1 <= s2)%Q ->
  tier_le (AnomalyScorer.severity_of s1) (AnomalyScorer.severity_of s2).
Proof.
  intros Hq. unfold tier_le, AnomalyScorer.severity_of.
  destruct (Qle_bool (7 # 10) s1) eqn:H7;
    [rewrite (Qle_bool_mono _ _ _ Hq H7); simpl; lia|].
  destruct (Qle_bool (5 # 10) s1) eqn:H5;
    [rewrite (Qle_bool_mono _ _ _ Hq H5);
     destruct (Qle_bool (7 # 10) s2); simpl; lia|].
  destruct (Qle_bool (3 # 10) s1) eqn:H3;
    [rewrite (Qle_bool_mono _ _ _ Hq H3);
     destruct (Qle_bool (7 # 10) s2), (Qle_bool (5 # 10) s2); simpl; lia|].
  simpl. lia.
Qed.

Lemma log_table_monotone (s1 s2 : Q) (e1 e2 : Z) :
  (s1 <= s2)%Q -> (e1 <= e2)%Z ->
  tier_le (LogAnalyzer._determine_severity s1 e1)
    (LogAnalyzer._determine_severity s2 e2).
Proof.
  intros Hq Hz. unfold tier_le, LogAnalyzer._determine_severity.
  destruct (Qle_bool 70 s1 || (100 <? e1)%Z) eqn:H1.
  { assert (E : Qle_bool 70 s2 || (100 <? e2)%Z = true).
    { apply orb_true_iff in H1. apply orb_true_iff.
      destruct H1 as [H|H];
        [left; exact (Qle_bool_mono _ _ _ Hq H)
        |right; exact (ltb_mono _ _ _ Hz H)]. }
    rewrite E. simpl. lia. }
  destruct (Qle_bool 40 s1 || (20 <? e1)%Z) eqn:H2.
  { assert (E : Qle_bool 40 s2 || (20 <? e2)%Z = true).
    { apply orb_true_iff in H2. apply orb_true_iff.
      destruct H2 as [H|H];
        [left; exact (Qle_bool_mono _ _ _ Hq H)
        |right; exact (ltb_mono _ _ _ Hz H)]. }
    rewrite E. destruct (Qle_bool 70 s2 || (100 <? e2)%Z); simpl; lia. }
  destruct (Qle_bool 20 s1 || (5 <? e1)%Z) eqn:H3.
  { assert (E : Qle_bool 20 s2 || (5 <? e2)%Z = true).
    { apply orb_true_iff in H3. apply orb_true_iff.
      destruct H3 as [H|H];
        [left; exact (Qle_bool_mono _ _ _ Hq H)
        |right; exact (ltb_mono _ _ _ Hz H)]. }
    rewrite E.
    destruct (Qle_bool 70 s2 || (100 <? e2)%Z),
             (Qle_bool 40 s2 || (20 <? e2)%Z); simpl; lia. }
  simpl. lia.
Qed.

(** C8: both severity tables are monotone: in the numeric table a larger
    score never gives a lower tier; in the log table a larger score, with
    the same error count, or a larger error count, with the same score,
    never gives a lower tier. *)
Theorem C8_severity_monotone :
  (forall s1 s2 : Q,
      (s1 <= s2)%Q ->
      tier_le (AnomalyScorer.severity_of s1) (AnomalyScorer.severity_of s2))
  /\ (forall (s1 s2 : Q) (e : Z),
      (s1 <= s2)%Q ->
      tier_le (LogAnalyzer._determine_severity s1 e)
        (LogAnalyzer._determine_severity s2 e))
  /\ (forall (s : Q) (e1 e2 : Z),
      (e1 <= e2)%Z ->
      tier_le (LogAnalyzer._determine_severity s e1)
        (LogAnalyzer._determine_severity s e2)).
Proof.
  split; [|split].
  - apply numeric_table_monotone.
  - intros s1 s2 e Hq. apply log_table_monotone; [exact Hq|lia].
  - intros s e1 e2 Hz. apply log_table_monotone; [apply Qle_refl|exact Hz].
Qed.

Lemma C8_severity_monotone_witness :
  tier_le (AnomalyScorer.severity_of (45 # 100))
    (AnomalyScorer.severity_of (55 # 100))
  /\ tier_le (LogAnalyzer._determine_severity 10 3)
       (LogAnalyzer._determine_severity 45 3)
  /\ tier_le (LogAnalyzer._determine_severity 10 3)
       (LogAnalyzer._determine_severity 10 21).
Proof.
  destruct C8_severity_monotone as (HA & HB & HC).
  split; [|split].
  - apply HA. unfold Qle. simpl. lia.
  - apply HB. unfold Qle. simpl. lia.
  - apply HC. lia.
Defined.

End SeverityFacts.


(** * Properties of the anomaly scorer *)

Module AnomalyScorerFacts.

Import AnomalyScorer.
Local Open Scope Q_scope.

(** ** Sorting and splitting *)

Lemma insert_sorted_length (dp : datapoint) (l : list datapoint) :
  length (insert_sorted dp l) = S (length l).
Proof.
  induction l as [|x l IH]; cbn [insert_sorted length].
  - reflexivity.
  - destruct (Timestamp dp <=? Timestamp x)%Z; cbn [length];
      [reflexivity|rewrite IH; reflexivity].
Qed.

Lemma sorted_length (datapoints : list datapoint) :
  length (sorted datapoints) = length datapoints.
Proof.
  induction datapoints as [|dp l IH]; cbn [sorted fold_right length].
  - reflexivity.
  - fold (sorted l). rewrite insert_sorted_length, IH. reflexivity.
Qed.

(** [int(n * 0.8)] is the integer quotient of [4 * n] by 5. *)
Lemma split_index_quotient (n : nat) : split_index n = (4 * n / 5)%nat.
Proof.
  unfold split_index, Q_of_nat, Qfloor.
  cbn [Qmult inject_Z Qnum Qden].
  change (Z.pos (1 * 10)) with 10%Z.
  apply Nat2Z.inj. rewrite Nat2Z.inj_div.
  rewrite Z2Nat.id by (apply Z.div_pos; lia).
  Z.div_mod_to_equations. lia.
Qed.

Lemma split_index_bounds (n : nat) :
  (split_index n <= n)%nat /\ ((2 <= n)%nat -> (1 <= split_index n)%nat).
Proof.
  rewrite split_index_quotient. split.
  - apply Nat.Div0.div_le_upper_bound. lia.
  - intros H. apply Nat.div_le_lower_bound; lia.
Qed.

(** ** The percentile rank *)

Lemma count_le_length (p : Q -> bool) (a : list Q) :
  (count p a <= length a)%nat.
Proof.
  induction a as [|x a IH]; cbn [count length]; [lia|].
  destruct (p x); lia.
Qed.

Lemma count_mono (p q : Q -> bool) (a : list Q) :
  (forall x, p x = true -> q x = true) -> (count p a <= count q a)%nat.
Proof.
  intros Hpq. induction a as [|x a IH]; cbn [count]; [lia|].
  destruct (p x) eqn:Hp; [rewrite (Hpq x Hp)|destruct (q x)]; lia.
Qed.

Lemma Qlt_bool_iff (x y : Q) : Qlt_bool x y = true <-> x < y.
Proof.
  unfold Qlt_bool. rewrite negb_true_iff. split.
  - intros H. apply Qnot_le_lt. intros Hle.
    apply Qle_bool_iff in Hle. congruence.
  - intros H. destruct (Qle_bool y x) eqn:E; [|reflexivity].
    apply Qle_bool_iff in E. exfalso. apply (Qlt_not_le _ _ H E).
Qed.

Lemma Qlt_bool_le (x y : Q) : Qlt_bool x y = true -> Qle_bool x y = true.
Proof.
  intros H. apply Qle_bool_iff, Qlt_le_weak, Qlt_bool_iff, H.
Qed.


(** ** The least-squares line *)

Lemma Q_of_nat_S (n : nat) : Q_of_nat (S n) == Q_of_nat n + 1.
Proof.
  unfold Q_of_nat. rewrite Nat2Z.inj_succ. unfold Z.succ.
  rewrite inject_Z_plus. reflexivity.
Qed.

Lemma square_nonneg (x : Q) : 0 <= x * x.
Proof.
  unfold Qle. cbn. rewrite Z.mul_1_r. apply Z.square_nonneg.
Qed.

Lemma scaled_nonneg (n x : Q) : 0 < n -> 0 <= n * x -> 0 <= x.
Proof.
  intros Hn Hx.
  assert (E : x == (n * x) / n) by (field; lra).
  rewrite E. apply Qle_shift_div_l; [exact Hn|]. lra.
Qed.

Lemma quadratic_minimum (N Sx Sy Sxx Sxy Syy a b a0 b0 : Q) :
  0 < N -> 0 < N * Sxx - Sx * Sx ->
  Sxx * a0 + Sx * b0 == Sxy ->
  Sx * a0 + N * b0 == Sy ->
  Syy - 2 * a0 * Sxy - 2 * b0 * Sy + a0 * a0 * Sxx + 2 * a0 * b0 * Sx
  + N * b0 * b0
  <= Syy - 2 * a * Sxy - 2 * b * Sy + a * a * Sxx + 2 * a * b * Sx
     + N * b * b.
Proof.
  intros HN HD H1 H2. rewrite <- H1, <- H2.
  pose proof (square_nonneg (N * (b - b0) + Sx * (a - a0))) as Hsq1.
  assert (Hsq2 : 0 <= (N * Sxx - Sx * Sx) * ((a - a0) * (a - a0))).
  { apply Qmult_le_0_compat; [lra|apply square_nonneg]. }
  apply Qle_minus_iff. apply (scaled_nonneg N); [exact HN|].
  match goal with |- 0 <= ?t =>
    assert (E : t == (N * (b - b0) + Sx * (a - a0)) * (N * (b - b0) + Sx * (a - a0)) + (N * Sxx - Sx * Sx) * ((a - a0) * (a - a0))) by ring
  end.
  rewrite E. lra.
Qed.

Lemma sum_app (l1 l2 : list Q) : sum (l1 ++ l2) == sum l1 + sum l2.
Proof.
  unfold sum. induction l1 as [|a l1 IH]; cbn [fold_right app].
  - rewrite Qplus_0_l. reflexivity.
  - rewrite IH. rewrite Qplus_assoc. reflexivity.
Qed.

Lemma zip_mul_app (x1 x2 y1 y2 : list Q) :
  length x1 = length y1 ->
  zip_mul (x1 ++ x2) (y1 ++ y2) = zip_mul x1 y1 ++ zip_mul x2 y2.
Proof.
  revert y1. induction x1 as [|a x1 IH]; intros [|b y1] H;
    cbn [length] in H; try discriminate; cbn [zip_mul app].
  - reflexivity.
  - rewrite IH by lia. reflexivity.
Qed.

Lemma arange_S (n : nat) : arange (S n) = arange n ++ [Q_of_nat n].
Proof. unfold arange. rewrite seq_S, map_app. reflexivity. Qed.

Lemma sum_arange (n : nat) :
  2 * sum (arange n) == Q_of_nat n * (Q_of_nat n - 1).
Proof.
  induction n as [|n IH].
  - reflexivity.
  - rewrite arange_S, sum_app, Q_of_nat_S. cbn [sum fold_right].
    ring_simplify. ring_simplify in IH. lra.
Qed.

Lemma sum_squares_arange (n : nat) :
  6 * sum (zip_mul (arange n) (arange n))
  == (Q_of_nat n - 1) * Q_of_nat n * (2 * Q_of_nat n - 1).
Proof.
  induction n as [|n IH].
  - reflexivity.
  - rewrite arange_S, zip_mul_app, sum_app, Q_of_nat_S by reflexivity.
    cbn [zip_mul sum fold_right].
    set (N := Q_of_nat n) in *. set (S2 := sum _) in *.
    assert (E : 6 * (S2 + (N * N + 0)) == 6 * S2 + 6 * (N * N)) by ring.
    rewrite E, IH. ring.
Qed.

Lemma arange_spread (n : nat) :
  (2 <= n)%nat ->
  0 < Q_of_nat n * sum (zip_mul (arange n) (arange n))
      - sum (arange n) * sum (arange n).
Proof.
  intros Hn.
  pose proof (sum_arange n) as H1. pose proof (sum_squares_arange n) as H2.
  set (N := Q_of_nat n) in *.
  set (S1 := sum (arange n)) in *. set (S2 := sum (zip_mul _ _)) in *.
  assert (HN : 2 <= N).
  { unfold N, Q_of_nat. change 2 with (inject_Z 2). rewrite <- Zle_Qle. lia. }
  assert (E : 12 * (N * S2 - S1 * S1)
              == 2 * N * (6 * S2) - 3 * ((2 * S1) * (2 * S1))) by ring.
  assert (E' : 12 * (N * S2 - S1 * S1) == N * N * ((N - 1) * (N + 1))).
  { rewrite E, H1, H2. ring. }
  assert (Hpos : 0 < N * N * ((N - 1) * (N + 1))).
  { apply Qmult_lt_0_compat; apply Qmult_lt_0_compat; lra. }
  rewrite <- E' in Hpos. lra.
Qed.

Lemma squared_error_expand (a b : Q) (x y : list Q) :
  length x = length y ->
  squared_error a b x y
  == sum (zip_mul y y) - 2 * a * sum (zip_mul x y) - 2 * b * sum y
     + a * a * sum (zip_mul x x) + 2 * a * b * sum x
     + Q_of_nat (length x) * b * b.
Proof.
  revert y. induction x as [|u x IH]; intros [|v y] H;
    cbn [length] in H; try discriminate.
  - cbn [squared_error zip_mul sum fold_right length].
    change (Q_of_nat 0) with 0. ring.
  - cbn [squared_error zip_mul sum fold_right length].
    fold (sum (zip_mul y y)). fold (sum (zip_mul x y)). fold (sum y).
    fold (sum (zip_mul x x)). fold (sum x).
    rewrite IH by lia. rewrite Q_of_nat_S. ring.
Qed.

Lemma polyfit1_least_squares (x y : list Q) :
  length x = length y ->
  0 < Q_of_nat (length x) ->
  0 < Q_of_nat (length x) * sum (zip_mul x x) - sum x * sum x ->
  forall a b : Q,
    squared_error (fst (polyfit1 x y)) (snd (polyfit1 x y)) x y
    <= squared_error a b x y.
Proof.
  intros Hlen HN HD a b.
  rewrite !squared_error_expand by exact Hlen.
  unfold polyfit1. cbn [fst snd].
  set (N := Q_of_nat (length x)) in *.
  set (Sx := sum x) in *. set (Sy := sum y).
  set (Sxx := sum (zip_mul x x)) in *. set (Sxy := sum (zip_mul x y)).
  set (a0 := (N * Sxy - Sx * Sy) / (N * Sxx - Sx * Sx)).
  set (b0 := (Sy - a0 * Sx) / N).
  apply quadratic_minimum; [exact HN|exact HD| |].
  - unfold b0, a0. field. split; lra.
  - unfold b0. field. lra.
Qed.

(** The line fitted to two or more values against their indices is the
    least-squares line. *)
Lemma fit_against_indices (values : list Q) :
  (2 <= length values)%nat ->
  let x := arange (length values) in
  forall a b : Q,
    squared_error (fst (polyfit1 x values)) (snd (polyfit1 x values))
      x values
    <= squared_error a b x values.
Proof.
  intros Hlen x.
  assert (Hx : length x = length values)
    by (unfold x, arange; rewrite length_map, length_seq; reflexivity).
  apply polyfit1_least_squares.
  - exact Hx.
  - rewrite Hx. apply Q_of_nat_pos. lia.
  - rewrite Hx. apply arange_spread, Hlen.
Qed.

(** ** The trend *)

Lemma Qeq_bool_false (x y : Q) : ~ x == y -> Qeq_bool x y = false.
Proof.
  intros H. destruct (Qeq_bool x y) eqn:E; [|reflexivity].
  apply Qeq_bool_iff in E. contradiction.
Qed.







(** ** The values of a series *)

Lemma values_length (datapoints : list datapoint) :
  length (map Value (sorted datapoints)) = length datapoints.
Proof. rewrite length_map. apply sorted_length. Qed.

End AnomalyScorerFacts.

(** * Properties of binary64 rounding *)

Module Binary64Facts.
Import AnomalyScorer Binary64.
Import AnomalyScorerFacts.
Local Open Scope Q_scope.

Lemma Qlt_bool_false (x y : Q) : Qlt_bool x y = false <-> y <= x.
Proof.
  unfold Qlt_bool. rewrite Bool.negb_false_iff. apply Qle_bool_iff.
Qed.

Lemma pow2_pos (e : Z) : 0 < pow2 e.
Proof. apply Qpower_0_lt. reflexivity. Qed.

Lemma pow2_add (a b : Z) : pow2 (a + b) == pow2 a * pow2 b.
Proof. apply Qpower_plus. discriminate. Qed.

Lemma pow2_le (a b : Z) : (a <= b)%Z -> pow2 a <= pow2 b.
Proof. intros H. apply Qpower_le_compat_l; [exact H|discriminate]. Qed.

Lemma pow2_lt_inv (a b : Z) : pow2 a < pow2 b -> (a < b)%Z.
Proof. intros H. apply (Qpower_lt_compat_l_inv 2); [exact H|reflexivity]. Qed.

Lemma pow2_S (a : Z) : pow2 (a + 1) == 2 * pow2 a.
Proof. rewrite pow2_add. change (pow2 1) with 2. ring. Qed.

Lemma pow2_Z (a : Z) : (0 <= a)%Z -> inject_Z (2 ^ a) == pow2 a.
Proof. intros H. apply Zpower_Qpower, H. Qed.

(** [ilog2] is the integer part of the binary logarithm. *)
Lemma ilog2_spec (q : Q) :
  0 < q -> pow2 (ilog2 q) <= q /\ q < pow2 (ilog2 q + 1).
Proof.
  intros Hq. unfold ilog2.
  destruct q as [n d]. cbn [Qnum Qden].
  assert (Hn : (0 < n)%Z) by (unfold Qlt in Hq; cbn in Hq; lia).
  set (a := Z.log2 n). set (b := Z.log2 (Zpos d)).
  destruct (Z.log2_spec n Hn) as [Ha1 Ha2].
  destruct (Z.log2_spec (Zpos d) eq_refl) as [Hb1 Hb2].
  fold a in Ha1, Ha2. fold b in Hb1, Hb2.
  assert (Ha0 : (0 <= a)%Z) by apply Z.log2_nonneg.
  assert (Hb0 : (0 <= b)%Z) by apply Z.log2_nonneg.
  set (A := pow2 a). set (B := pow2 b).
  set (N := inject_Z n). set (D := inject_Z (Zpos d)).
  assert (HA : 0 < A) by apply pow2_pos.
  assert (HB : 0 < B) by apply pow2_pos.
  assert (HAN : A <= N).
  { unfold A, N. rewrite <- pow2_Z by exact Ha0. rewrite <- Zle_Qle. exact Ha1. }
  assert (HNA : N < 2 * A).
  { unfold A, N. rewrite <- pow2_S. rewrite <- pow2_Z by lia.
    rewrite <- Zlt_Qlt. replace (a + 1)%Z with (Z.succ a) by lia. exact Ha2. }
  assert (HBD : B <= D).
  { unfold B, D. rewrite <- pow2_Z by exact Hb0. rewrite <- Zle_Qle. exact Hb1. }
  assert (HDB : D < 2 * B).
  { unfold B, D. rewrite <- pow2_S. rewrite <- pow2_Z by lia.
    rewrite <- Zlt_Qlt. replace (b + 1)%Z with (Z.succ b) by lia. exact Hb2. }
  assert (HD : 0 < D) by (unfold D; reflexivity).
  assert (Eq : (n # d) * D == N).
  { unfold N, D. rewrite (Qmake_Qdiv n d). field. discriminate. }
  assert (E0 : pow2 (a - b) * B == A).
  { unfold A, B. rewrite <- pow2_add. replace (a - b + b)%Z with a by lia.
    reflexivity. }
  set (q := n # d) in *.
  destruct (Qle_bool (pow2 (a - b)) q) eqn:E.
  - apply Qle_bool_iff in E. split; [exact E|].
    assert (E1 : pow2 (a - b + 1) * B == 2 * A).
    { rewrite pow2_S. rewrite <- E0. ring. }
    set (P := pow2 (a - b + 1)) in *.
    assert (HP : 0 < P) by apply pow2_pos.
    apply Qnot_le_lt. intros Hle.
    assert (H1 : P * B <= q * D).
    { apply Qle_trans with (P * D).
      - apply Qmult_le_l; [exact HP|exact HBD].
      - apply Qmult_le_r; [exact HD|exact Hle]. }
    rewrite E1, Eq in H1. apply (Qlt_not_le _ _ HNA H1).
  - assert (Hlt : q < pow2 (a - b)).
    { apply Qnot_le_lt. intros Hle. apply Qle_bool_iff in Hle. congruence. }
    split.
    + assert (E1 : pow2 (a - b - 1) * (2 * B) == A).
      { rewrite <- E0. replace (a - b)%Z with (a - b - 1 + 1)%Z at 2 by lia.
        rewrite pow2_S. ring. }
      set (P := pow2 (a - b - 1)) in *.
      assert (HP : 0 < P) by apply pow2_pos.
      apply Qnot_lt_le. intros Hlt'.
      assert (H1 : q * D < P * (2 * B)).
      { apply Qle_lt_trans with (P * D).
        - apply Qmult_le_r; [exact HD|apply Qlt_le_weak, Hlt'].
        - apply Qmult_lt_l; [exact HP|exact HDB]. }
      rewrite E1, Eq in H1. apply (Qlt_not_le _ _ H1 HAN).
    + replace (a - b - 1 + 1)%Z with (a - b)%Z by lia. exact Hlt.
Qed.

Lemma ilog2_mono (a b : Q) : 0 < a -> a <= b -> (ilog2 a <= ilog2 b)%Z.
Proof.
  intros Ha Hab.
  assert (Hb : 0 < b) by (apply Qlt_le_trans with a; assumption).
  destruct (ilog2_spec a Ha) as [H1 _].
  destruct (ilog2_spec b Hb) as [_ H2].
  assert (H : pow2 (ilog2 a) < pow2 (ilog2 b + 1)).
  { apply Qle_lt_trans with a; [exact H1|].
    apply Qle_lt_trans with b; assumption. }
  apply pow2_lt_inv in H. lia.
Qed.

(** ** Rounding to an integer *)

Lemma rne_cases (x : Q) :
  (rne x = Qfloor x /\ x - inject_Z (Qfloor x) <= 1 # 2)
  \/ (rne x = (Qfloor x + 1)%Z /\ 1 # 2 <= x - inject_Z (Qfloor x)).
Proof.
  unfold rne.
  destruct (Qcompare_spec (x - inject_Z (Qfloor x)) (1 # 2)) as [E|E|E].
  - destruct (Z.even (Qfloor x)).
    + left. split; [reflexivity|]. rewrite E. apply Qle_refl.
    + right. split; [reflexivity|]. rewrite E. apply Qle_refl.
  - left. split; [reflexivity|apply Qlt_le_weak, E].
  - right. split; [reflexivity|apply Qlt_le_weak, E].
Qed.

Lemma rne_near (x : Q) :
  x - (1 # 2) <= inject_Z (rne x) /\ inject_Z (rne x) <= x + (1 # 2).
Proof.
  pose proof (Qfloor_le x) as H1. pose proof (Qlt_floor x) as H2.
  rewrite inject_Z_plus in H2. change (inject_Z 1) with 1 in H2.
  destruct (rne_cases x) as [[-> H]|[-> H]].
  - split; lra.
  - rewrite inject_Z_plus. change (inject_Z 1) with 1. split; lra.
Qed.

Lemma rne_Z (z : Z) : rne (inject_Z z) = z.
Proof.
  unfold rne. rewrite Qfloor_Z.
  assert (E : inject_Z z - inject_Z z == 0) by ring.
  destruct (Qcompare_spec (inject_Z z - inject_Z z) (1 # 2)) as [H|H|H].
  - rewrite E in H. discriminate H.
  - reflexivity.
  - rewrite E in H. discriminate H.
Qed.

Lemma rne_mono (x y : Q) : x <= y -> (rne x <= rne y)%Z.
Proof.
  intros Hxy.
  pose proof (Qfloor_resp_le x y Hxy) as Hf.
  assert (Hlo : forall t, (Qfloor t <= rne t <= Qfloor t + 1)%Z).
  { intros t. destruct (rne_cases t) as [[-> _]|[-> _]]; lia. }
  destruct (Z.eq_dec (Qfloor x) (Qfloor y)) as [E|E].
  - unfold rne. rewrite <- E.
    set (f := Qfloor x).
    assert (Hd : x - inject_Z f <= y - inject_Z f) by lra.
    destruct (Qcompare_spec (x - inject_Z f) (1 # 2)) as [Hx|Hx|Hx];
      destruct (Qcompare_spec (y - inject_Z f) (1 # 2)) as [Hy|Hy|Hy];
      try (destruct (Z.even f)); try lia; exfalso; lra.
  - pose proof (Hlo x). pose proof (Hlo y). lia.
Qed.

Lemma rne_ext (x y : Q) : x == y -> rne x = rne y.
Proof.
  intros E. apply Z.le_antisymm; apply rne_mono; rewrite E; apply Qle_refl.
Qed.

(** ** Rounding to binary64 *)

(** A positive number and its rounding lie between the same powers
    of 2. *)
Lemma round_pos_bounds (q : Q) :
  0 < q ->
  let e := Z.max (ilog2 q) (-1022) in
  0 <= round_pos q
  /\ round_pos q <= pow2 (e + 1)
  /\ ((-1022 <= ilog2 q)%Z -> pow2 e <= round_pos q).
Proof.
  intros Hq e. unfold round_pos, ulp. fold e.
  set (u := pow2 (e - 52)).
  assert (Hu : 0 < u) by apply pow2_pos.
  destruct (ilog2_spec q Hq) as [H1 H2].
  assert (E52 : pow2 52 * u == pow2 e).
  { unfold u. rewrite <- pow2_add. replace (52 + (e - 52))%Z with e by lia.
    reflexivity. }
  assert (E53 : pow2 53 * u == pow2 (e + 1)).
  { unfold u. rewrite <- pow2_add.
    replace (53 + (e - 52))%Z with (e + 1)%Z by lia. reflexivity. }
  assert (Hhi : q / u <= pow2 53).
  { apply Qle_shift_div_r; [exact Hu|]. rewrite E53.
    apply Qlt_le_weak. apply Qlt_le_trans with (pow2 (ilog2 q + 1)); [exact H2|].
    apply pow2_le. lia. }
  assert (Hpos : 0 <= q / u).
  { apply Qle_shift_div_l; [exact Hu|]. rewrite Qmult_0_l.
    apply Qlt_le_weak, Hq. }
  split; [|split].
  - apply Qmult_le_0_compat; [|apply Qlt_le_weak, Hu].
    change 0 with (inject_Z 0). rewrite <- Zle_Qle.
    rewrite <- (rne_Z 0). apply rne_mono. exact Hpos.
  - rewrite <- E53. apply Qmult_le_r; [exact Hu|].
    rewrite <- (pow2_Z 53) by lia. rewrite <- Zle_Qle.
    rewrite <- (rne_Z (2 ^ 53)). apply rne_mono.
    rewrite (pow2_Z 53) by lia. exact Hhi.
  - intros Hn. assert (Ee : e = ilog2 q) by lia.
    rewrite <- E52. apply Qmult_le_r; [exact Hu|].
    rewrite <- (pow2_Z 52) by lia. rewrite <- Zle_Qle.
    rewrite <- (rne_Z (2 ^ 52)). apply rne_mono.
    rewrite (pow2_Z 52) by lia.
    apply Qle_shift_div_l; [exact Hu|]. rewrite E52, Ee. exact H1.
Qed.

Lemma round_pos_mono (a b : Q) :
  0 < a -> a <= b -> round_pos a <= round_pos b.
Proof.
  intros Ha Hab.
  assert (Hb : 0 < b) by (apply Qlt_le_trans with a; assumption).
  pose proof (ilog2_mono a b Ha Hab) as Hl.
  destruct (round_pos_bounds a Ha) as (_ & Ha2 & _).
  destruct (round_pos_bounds b Hb) as (_ & _ & Hb3).
  cbv zeta in Ha2, Hb3.
  destruct (Z.eq_dec (Z.max (ilog2 a) (-1022)) (Z.max (ilog2 b) (-1022)))
    as [E|E].
  - unfold round_pos, ulp. rewrite <- E.
    set (u := pow2 (Z.max (ilog2 a) (-1022) - 52)).
    assert (Hu : 0 < u) by apply pow2_pos.
    apply Qmult_le_r; [exact Hu|]. rewrite <- Zle_Qle. apply rne_mono.
    apply Qmult_le_r; [apply Qinv_lt_0_compat, Hu|exact Hab].
  - assert (Hn : (-1022 <= ilog2 b)%Z) by lia.
    apply Qle_trans with (pow2 (Z.max (ilog2 a) (-1022) + 1)); [exact Ha2|].
    apply Qle_trans with (pow2 (Z.max (ilog2 b) (-1022))); [|exact (Hb3 Hn)].
    apply pow2_le. lia.
Qed.

Lemma round_sign (q : Q) : (0 <= q -> 0 <= round q) /\ (q <= 0 -> round q <= 0).
Proof.
  unfold round. destruct (Qcompare_spec q 0) as [E|E|E].
  - split; intros _; apply Qle_refl.
  - split; intros H; [exfalso; lra|].
    rewrite Qred_correct.
    assert (H0 : 0 < - q) by lra.
    destruct (round_pos_bounds (- q) H0) as (H1 & _). lra.
  - split; intros H; [|exfalso; lra].
    rewrite Qred_correct.
    destruct (round_pos_bounds q E) as (H1 & _). exact H1.
Qed.

(** Rounding keeps the order. *)
Lemma round_mono (a b : Q) : a <= b -> round a <= round b.
Proof.
  intros Hab.
  destruct (Qlt_le_dec 0 a) as [Ha|Ha].
  - assert (Hb : 0 < b) by (apply Qlt_le_trans with a; assumption).
    unfold round.
    destruct (Qcompare_spec a 0) as [E|E|E]; try (exfalso; lra).
    destruct (Qcompare_spec b 0) as [F|F|F]; try (exfalso; lra).
    rewrite !Qred_correct. apply round_pos_mono; assumption.
  - destruct (Qlt_le_dec b 0) as [Hb|Hb].
    + unfold round.
      destruct (Qcompare_spec a 0) as [E|E|E]; try (exfalso; lra).
      destruct (Qcompare_spec b 0) as [F|F|F]; try (exfalso; lra).
      rewrite !Qred_correct.
      assert (H : round_pos (- b) <= round_pos (- a))
        by (apply round_pos_mono; lra).
      lra.
    + apply Qle_trans with 0.
      * apply (round_sign a), Ha.
      * apply (round_sign b), Hb.
Qed.

(** Rounding a number that is not subnormal changes it by at most one
    part in [2^53]. *)
Lemma round_error (q : Q) :
  pow2 (-1022) <= q -> round q <= q * (1 + pow2 (-53)).
Proof.
  intros Hn.
  assert (Hq : 0 < q)
    by (apply Qlt_le_trans with (pow2 (-1022)); [apply pow2_pos|exact Hn]).
  unfold round.
  destruct (Qcompare_spec q 0) as [E|E|E]; try (exfalso; lra).
  rewrite Qred_correct.
  destruct (ilog2_spec q Hq) as [H1 H2].
  assert (He : (-1022 <= ilog2 q)%Z).
  { assert (H : pow2 (-1022) < pow2 (ilog2 q + 1))
      by (apply Qle_lt_trans with q; assumption).
    apply pow2_lt_inv in H. lia. }
  unfold round_pos, ulp. rewrite Z.max_l by exact He.
  set (u := pow2 (ilog2 q - 52)).
  assert (Hu : 0 < u) by apply pow2_pos.
  destruct (rne_near (q / u)) as [_ Hr].
  assert (H3 : inject_Z (rne (q / u)) * u <= (q / u + (1 # 2)) * u)
    by (apply Qmult_le_r; [exact Hu|exact Hr]).
  assert (E1 : (q / u + (1 # 2)) * u == q + (1 # 2) * u).
  { field. intros F. rewrite F in Hu. discriminate Hu. }
  assert (E2 : (1 # 2) * u == pow2 (ilog2 q) * pow2 (-53)).
  { unfold u. rewrite <- pow2_add.
    replace (ilog2 q + -53)%Z with (-1 + (ilog2 q - 52))%Z by lia.
    rewrite pow2_add. reflexivity. }
  rewrite E1, E2 in H3.
  assert (H4 : pow2 (ilog2 q) * pow2 (-53) <= q * pow2 (-53))
    by (apply Qmult_le_r; [apply pow2_pos|exact H1]).
  lra.
Qed.

(** Integers of at most 53 bits are binary64 numbers. *)
Lemma round_Z (n : Z) :
  (0 <= n <= 2 ^ 53)%Z -> round (inject_Z n) == inject_Z n.
Proof.
  intros Hn. destruct (Z.eq_dec n 0%Z) as [->|Hz]; [reflexivity|].
  assert (Hq : 0 < inject_Z n)
    by (change 0 with (inject_Z 0); rewrite <- Zlt_Qlt; lia).
  unfold round.
  destruct (Qcompare_spec (inject_Z n) 0) as [E|E|E]; try (exfalso; lra).
  rewrite Qred_correct.
  destruct (ilog2_spec _ Hq) as [H1 H2].
  set (e := ilog2 (inject_Z n)) in *.
  assert (He0 : (0 <= e)%Z).
  { assert (H : pow2 0 < pow2 (e + 1)).
    { apply Qle_lt_trans with (inject_Z n); [|exact H2].
      change (pow2 0) with (inject_Z 1). rewrite <- Zle_Qle. lia. }
    apply pow2_lt_inv in H. lia. }
  assert (He1 : (e <= 53)%Z).
  { assert (H : pow2 e < pow2 54).
    { apply Qle_lt_trans with (inject_Z n); [exact H1|].
      rewrite <- (pow2_Z 54) by lia. rewrite <- Zlt_Qlt.
      change (2 ^ 54)%Z with (2 * 2 ^ 53)%Z. lia. }
    apply pow2_lt_inv in H. lia. }
  unfold round_pos, ulp. fold e. rewrite Z.max_l by lia.
  destruct (Z.eq_dec e 53%Z) as [E53|E53].
  - (* n = 2^53 *)
    assert (En : n = (2 ^ 53)%Z).
    { rewrite E53 in H1. rewrite <- (pow2_Z 53) in H1 by lia.
      rewrite <- Zle_Qle in H1. lia. }
    rewrite E53, En.
    change (pow2 (53 - 52)) with (inject_Z 2).
    assert (Ediv : inject_Z (2 ^ 53) / inject_Z 2 == inject_Z (2 ^ 52))
      by reflexivity.
    rewrite (rne_ext _ _ Ediv), rne_Z. reflexivity.
  - assert (Eu : pow2 (e - 52) * pow2 (52 - e) == 1).
    { rewrite <- pow2_add. replace (e - 52 + (52 - e))%Z with 0%Z by lia.
      reflexivity. }
    assert (Ediv : inject_Z n / pow2 (e - 52) == inject_Z (n * 2 ^ (52 - e))).
    { rewrite inject_Z_mult, (pow2_Z (52 - e)) by lia.
      unfold Qdiv. apply Qmult_comp; [reflexivity|].
      replace (52 - e)%Z with (- (e - 52))%Z by lia.
      symmetry. apply Qpower_opp. }
    rewrite (rne_ext _ _ Ediv), rne_Z, inject_Z_mult, (pow2_Z (52 - e)) by lia.
    rewrite <- Qmult_assoc, (Qmult_comm (pow2 (52 - e))), Eu. ring.
Qed.

End Binary64Facts.

(** * Properties of the binary64 operations *)

Module Float64Facts.

Import AnomalyScorer Binary64 AnomalyScorerFacts Binary64Facts.
Local Open Scope Q_scope.

(** Closed comparisons of rationals are computed. *)
Ltac qle := apply Qle_bool_iff; vm_compute; reflexivity.
Ltac qlt := apply Qlt_bool_iff; vm_compute; reflexivity.

Lemma max_float_pos : 0 < max_float.
Proof. qlt. Qed.

(** An exact result whose rounding is within range is a number. *)
Lemma of_Q_finite (q : Q) :
  - max_float <= round q -> round q <= max_float ->
  of_Q q = Finite (round q).
Proof.
  intros H1 H2. unfold of_Q.
  rewrite (proj2 (Qlt_bool_false _ _) H2).
  rewrite (proj2 (Qlt_bool_false _ _) H1). reflexivity.
Qed.

Lemma of_Q_between (q lo hi : Q) :
  lo <= q -> q <= hi ->
  - max_float <= round lo -> round hi <= max_float ->
  exists r : Q, of_Q q = Finite r /\ round lo <= r /\ r <= round hi.
Proof.
  intros H1 H2 H3 H4. exists (round q).
  pose proof (round_mono _ _ H1) as M1.
  pose proof (round_mono _ _ H2) as M2.
  split; [|split; assumption].
  apply of_Q_finite; [apply Qle_trans with (round lo)|
                      apply Qle_trans with (round hi)]; assumption.
Qed.

Lemma of_Q_inv (q r : Q) : of_Q q = Finite r -> r = round q.
Proof.
  unfold of_Q. destruct (Qlt_bool max_float (round q)); [discriminate|].
  destruct (Qlt_bool (round q) (- max_float)); [discriminate|].
  intros H. injection H as <-. reflexivity.
Qed.

Lemma of_Q_lower (lo q r : Q) : of_Q q = Finite r -> lo <= q -> round lo <= r.
Proof. intros Hq H. rewrite (of_Q_inv _ _ Hq). apply round_mono, H. Qed.

Lemma of_Q_upper (hi q r : Q) : of_Q q = Finite r -> q <= hi -> r <= round hi.
Proof. intros Hq H. rewrite (of_Q_inv _ _ Hq). apply round_mono, H. Qed.

Lemma of_Q_not_nan (q : Q) : of_Q q <> NaN.
Proof.
  unfold of_Q. destruct (Qlt_bool max_float (round q)); [discriminate|].
  destruct (Qlt_bool (round q) (- max_float)); discriminate.
Qed.

(** Integers of at most 53 bits are converted as they are. *)
Lemma of_Z_exact (n : Z) :
  (0 <= n <= 2 ^ 53)%Z ->
  exists r : Q, of_Z n = Finite r /\ r == inject_Z n.
Proof.
  intros Hn. pose proof (round_Z n Hn) as E.
  assert (H0 : 0 <= inject_Z n)
    by (change 0 with (inject_Z 0); rewrite <- Zle_Qle; lia).
  assert (H1 : inject_Z n <= inject_Z (2 ^ 53)) by (rewrite <- Zle_Qle; lia).
  exists (round (inject_Z n)). split; [|exact E].
  apply of_Q_finite; rewrite E.
  - apply Qle_trans with 0; [qle|exact H0].
  - apply Qle_trans with (inject_Z (2 ^ 53)); [exact H1|qle].
Qed.

Lemma of_Q_nonneg (q : Q) : 0 <= q -> nonneg (of_Q q).
Proof.
  intros H. pose proof (proj1 (round_sign q) H) as Hr. unfold of_Q.
  destruct (Qlt_bool max_float (round q)); [exact I|].
  destruct (Qlt_bool (round q) (- max_float)) eqn:E; [|exact Hr].
  apply Qlt_bool_iff in E. pose proof max_float_pos. lra.
Qed.

Lemma abs_nonneg (x : float64) : x <> NaN -> nonneg (abs x).
Proof.
  destruct x; cbn; intros H; try exact I; [apply Qabs_nonneg|congruence].
Qed.

Lemma div_nonneg (x : float64) (c : Q) :
  nonneg x -> 0 < c -> nonneg (div x (Finite c)).
Proof.
  intros Hx Hc. destruct x as [a| | |]; cbn in Hx; try contradiction.
  - cbn [div]. rewrite Qeq_bool_false by lra.
    apply of_Q_nonneg. apply Qle_shift_div_l; [exact Hc|lra].
  - cbn [div sign]. rewrite (proj2 (Qlt_bool_false c 0)) by lra.
    exact I.
Qed.

(** [min(x, 1.0)] of a number that is not negative *)
Lemma pymin_unit (x : float64) :
  nonneg x ->
  exists r : Q, pymin x (Finite 1) = Finite r /\ 0 <= r /\ r <= 1.
Proof.
  intros Hx. unfold pymin.
  destruct x as [a| | |]; cbn in Hx; try contradiction.
  - cbn [ltb]. destruct (Qlt_bool 1 a) eqn:E.
    + exists 1. repeat split; lra.
    + apply Qlt_bool_false in E. exists a. repeat split; assumption.
  - cbn [ltb]. exists 1. repeat split; lra.
Qed.

End Float64Facts.

(** * Properties of the anomaly scorer in binary64 arithmetic *)

Module AnomalyScorer64Facts.

Import AnomalyScorer Binary64 AnomalyScorer64.
Import AnomalyScorerFacts Binary64Facts Float64Facts.
Local Open Scope Q_scope.

Lemma literals :
  lit 0 = Finite 0 /\ lit 1 = Finite 1 /\ lit 3 = Finite 3
  /\ lit 50 = Finite 50 /\ lit (5 # 10) = Finite (1 # 2)
  /\ lit (3 # 10) = Finite c03 /\ lit (2 # 10) = Finite c02.
Proof. repeat split; vm_compute; reflexivity. Qed.

(** ** The percentile *)

Lemma count_sum_le (a : list Q) (x : Q) :
  let left := count (fun v => Qlt_bool v x) a in
  let right := count (fun v => Qle_bool v x) a in
  (left + right + (if (left <? right)%nat then 1 else 0)
   <= 2 * length a)%nat.
Proof.
  cbv zeta.
  pose proof (count_le_length (fun v => Qle_bool v x) a) as Hr.
  pose proof (count_mono (fun v => Qlt_bool v x) (fun v => Qle_bool v x) a
                (fun v => Qlt_bool_le v x)) as Hlr.
  destruct (Nat.ltb_spec (count (fun v => Qlt_bool v x) a)
              (count (fun v => Qle_bool v x) a)); lia.
Qed.

(** The rank percentile of a baseline that is not empty: a number from
    0 to 100, or one step of the binary64 grid above 100. *)
Lemma percentileofscore_bounds (a : list Q) (x : Q) :
  a <> [] -> (Z.of_nat (length a) <= 2 ^ 52)%Z ->
  exists p : Q,
    percentileofscore a x = Finite p /\ 0 <= p /\ p <= 100 + pow2 (-46).
Proof.
  intros Hne Hlen. unfold percentileofscore.
  destruct a as [|a0 a']; [congruence|].
  set (a := a0 :: a') in *.
  pose proof (count_sum_le a x) as Hk. cbv zeta in Hk.
  set (k := (count (fun v => Qlt_bool v x) a
             + count (fun v => Qle_bool v x) a
             + (if (count (fun v => Qlt_bool v x) a
                    <? count (fun v => Qle_bool v x) a)%nat
                then 1 else 0))%nat) in *.
  assert (Hn1 : (1 <= Z.of_nat (length a))%Z) by (cbn [a length]; lia).
  set (n := Z.of_nat (length a)) in *.
  destruct (of_Z_exact n) as (rn & En & Hrn); [lia|].
  destruct (of_Z_exact (Z.of_nat k)) as (rk & Ek & Hrk).
  { change (2 ^ 53)%Z with (2 * 2 ^ 52)%Z. lia. }
  unfold of_nat. fold n. rewrite En, Ek.
  assert (E50 : lit 50 = Finite 50) by (vm_compute; reflexivity).
  rewrite E50. cbn [div].
  assert (Hn0 : 1 <= rn)
    by (rewrite Hrn; change 1 with (inject_Z 1); rewrite <- Zle_Qle; lia).
  assert (Hn2 : rn <= inject_Z (2 ^ 52))
    by (rewrite Hrn, <- Zle_Qle; lia).
  rewrite Qeq_bool_false by lra.
  assert (Hq0 : 0 <= 50 / rn)
    by (apply Qle_shift_div_l; lra).
  assert (Hq1 : 50 / rn <= 50)
    by (apply Qle_shift_div_r; lra).
  assert (Hsmall : pow2 (-1022) <= 50 / rn).
  { apply Qle_shift_div_l; [lra|].
    apply Qle_trans with (pow2 (-1022) * inject_Z (2 ^ 52)).
    - apply Qmult_le_l; [apply pow2_pos|exact Hn2].
    - qle. }
  pose proof (round_error _ Hsmall) as Herr.
  pose proof (proj1 (round_sign _) Hq0) as Hr0.
  pose proof (round_mono _ _ Hq1) as Hr1.
  assert (E50r : round 50 = 50) by (vm_compute; reflexivity).
  rewrite E50r in Hr1.
  rewrite of_Q_finite; cycle 1.
  { apply Qle_trans with 0; [qle|exact Hr0]. }
  { apply Qle_trans with 50; [exact Hr1|qle]. }
  cbn [mul].
  set (q1 := round (50 / rn)) in *.
  assert (Hk0 : 0 <= rk)
    by (rewrite Hrk; change 0 with (inject_Z 0); rewrite <- Zle_Qle; lia).
  assert (Hk2 : rk <= 2 * rn).
  { rewrite Hrk, Hrn. change 2 with (inject_Z 2).
    rewrite <- inject_Z_mult, <- Zle_Qle. lia. }
  assert (Hprod : rk * q1 <= 100 * (1 + pow2 (-53))).
  { apply Qle_trans with (2 * rn * q1).
    - apply Qmult_le_compat_r; [exact Hk2|exact Hr0].
    - apply Qle_trans with (2 * rn * (50 / rn * (1 + pow2 (-53)))).
      + apply Qmult_le_l; [lra|exact Herr].
      + assert (E : 2 * rn * (50 / rn * (1 + pow2 (-53)))
                    == 100 * (1 + pow2 (-53))) by (field; lra).
        rewrite E. apply Qle_refl. }
  destruct (of_Q_between (rk * q1) 0 (100 * (1 + pow2 (-53))))
    as (p & Ep & Hp0 & Hp1).
  - apply Qmult_le_0_compat; assumption.
  - exact Hprod.
  - qle.
  - qle.
  - exists p. split; [exact Ep|]. split.
    + exact Hp0.
    + apply Qle_trans with (round (100 * (1 + pow2 (-53)))); [exact Hp1|qle].
Qed.

(** ** The weighted sum *)

Lemma score_max_next_above_086 :
  exists c : Q,
    lit (86 # 100) = Finite c /\ score_max == c + pow2 (-53)
    /\ 86 # 100 < score_max.
Proof.
  eexists. split; [vm_compute; reflexivity|]. split.
  - apply Qeq_bool_iff. vm_compute. reflexivity.
  - qlt.
Qed.

Lemma weighted_score_bounds (z : float64) (p : Q) (t : trend_kind) :
  nonneg z -> 0 <= p -> p <= 100 + pow2 (-46) ->
  exists s : Q,
    weighted_score z (Finite p) t = Finite s /\ 0 <= s /\ s <= score_max.
Proof.
  intros Hz Hp0 Hp1. unfold weighted_score.
  destruct literals as (E0 & E1 & E3 & E50 & E05 & E03 & E02).
  rewrite E0, E1, E3, E50, E05, E03, E02.
  (* the z-score *)
  destruct (pymin_unit (div z (Finite 3))) as (zn & Ezn & Hzn0 & Hzn1).
  { apply div_nonneg; [exact Hz|lra]. }
  rewrite Ezn. cbn [mul].
  destruct (of_Q_between (zn * (1 # 2)) 0 (1 # 2))
    as (zc & Ezc & Hzc0 & Hzc1); [lra|lra|qle|qle|].
  rewrite Ezc.
  assert (R0 : round 0 = 0) by reflexivity.
  assert (Rhalf : round (1 # 2) = 1 # 2) by (vm_compute; reflexivity).
  rewrite R0 in Hzc0. rewrite Rhalf in Hzc1.
  (* the percentile *)
  unfold sub. cbn [opp add].
  set (h1 := 100 + pow2 (-46) + - (50)).
  destruct (of_Q_between (p + - (50)) (- (50)) h1)
    as (d & Ed & Hd0 & Hd1); [lra|unfold h1; lra|qle|qle|].
  rewrite Ed. cbn [abs div].
  assert (Rm50 : round (- (50)) = - (50)) by (vm_compute; reflexivity).
  rewrite Rm50 in Hd0.
  assert (Hh1 : 50 <= round h1) by qle.
  assert (Habs : Qabs d <= round h1).
  { apply Qabs_Qle_condition. split; lra. }
  pose proof (Qabs_nonneg d) as Habs0.
  change (Qeq_bool 50 0) with false. cbv iota.
  set (h2 := round h1 / 50).
  destruct (of_Q_between (Qabs d / 50) 0 h2)
    as (ps & Eps & Hps0 & Hps1).
  { apply Qle_shift_div_l; lra. }
  { unfold h2, Qdiv. apply Qmult_le_compat_r; [exact Habs|].
    apply Qlt_le_weak. reflexivity. }
  { qle. } { qle. }
  rewrite Eps. cbn [mul]. rewrite R0 in Hps0.
  assert (H03 : 0 <= c03) by qle.
  set (h3 := round h2 * c03).
  destruct (of_Q_between (ps * c03) 0 h3)
    as (pc & Epc & Hpc0 & Hpc1).
  { apply Qmult_le_0_compat; assumption. }
  { unfold h3. apply Qmult_le_compat_r; assumption. }
  { qle. } { qle. }
  rewrite Epc. cbn [add]. rewrite R0 in Hpc0.
  (* the first sum *)
  set (h4 := (1 # 2) + round h3).
  destruct (of_Q_between (zc + pc) 0 h4)
    as (s1 & Es1 & Hs10 & Hs11); [lra|unfold h4; lra|qle|qle|].
  rewrite Es1. rewrite R0 in Hs10.
  (* the trend *)
  set (ts := match t with
             | increasing | decreasing => Finite c03
             | stable => Finite 0
             end).
  assert (Et : exists tc : Q,
             mul ts (Finite c02) = Finite tc /\ 0 <= tc
             /\ tc <= 1080863910568919 # 18014398509481984).
  { destruct t; eexists; (split; [vm_compute; reflexivity|]);
      split; qle. }
  destruct Et as (tc & Etc & Htc0 & Htc1). rewrite Etc. cbn [add].
  set (h5 := round h4 + (1080863910568919 # 18014398509481984)).
  destruct (of_Q_between (s1 + tc) 0 h5)
    as (s & Es & Hs0 & Hs1); [lra|unfold h5; lra|qle|qle|].
  exists s. split; [exact Es|]. rewrite R0 in Hs0. split; [exact Hs0|].
  apply Qle_trans with (round h5); [exact Hs1|qle].
Qed.

(** ** The z-score *)

(** [baseline_std] after the guard against a deviation of 0. *)
Lemma std_guard (s0 : Q) :
  exists s : Q,
    (if eqb (Finite s0) (lit 0) then lit (1 # 1000) else Finite s0)
    = Finite s
    /\ ~ s == 0.
Proof.
  assert (E0 : lit 0 = Finite 0) by reflexivity. rewrite E0.
  unfold eqb. cbn [leb].
  destruct (Qle_bool s0 0) eqn:E1; destruct (Qle_bool 0 s0) eqn:E2;
    cbn [andb].
  - eexists. split; [vm_compute; reflexivity|]. intros F. discriminate F.
  - exists s0. split; [reflexivity|]. intros F.
    rewrite F in E2. discriminate E2.
  - exists s0. split; [reflexivity|]. intros F.
    rewrite F in E1. discriminate E1.
  - exists s0. split; [reflexivity|]. intros F.
    rewrite F in E1. discriminate E1.
Qed.

(** A quotient by a number that is not 0 is a number or an infinity. *)
Lemma div_not_nan (x : float64) (s : Q) :
  x <> NaN -> ~ s == 0 -> div x (Finite s) <> NaN.
Proof.
  intros Hx Hs. destruct x as [a| | |]; cbn [div sign].
  - rewrite Qeq_bool_false by exact Hs. apply of_Q_not_nan.
  - destruct (Qlt_bool s 0); discriminate.
  - destruct (Qlt_bool s 0); discriminate.
  - congruence.
Qed.

Lemma z_score_nonneg (current m s : Q) :
  ~ s == 0 ->
  nonneg (abs (div (sub (Finite current) (Finite m)) (Finite s))).
Proof.
  intros Hs. apply abs_nonneg, div_not_nan; [|exact Hs].
  unfold sub. cbn [opp add]. apply of_Q_not_nan.
Qed.

(** ** The split of the series *)

(** [int(n * 0.8)] is the integer part of [4 n / 5]: the literal 0.8
    is a little above 4/5, and too little to reach the next integer. *)
Lemma split_index_quotient64 (n : nat) :
  (Z.of_nat n <= 2 ^ 40)%Z -> split_index n = (4 * n / 5)%nat.
Proof.
  intros Hn. destruct n as [|n']; [vm_compute; reflexivity|].
  set (n := S n') in *. unfold split_index, of_nat.
  destruct (of_Z_exact (Z.of_nat n)) as (rn & En & Hrn).
  { change (2 ^ 53)%Z with (8192 * 2 ^ 40)%Z. lia. }
  rewrite En.
  assert (E08 : lit (8 # 10) = Finite (3602879701896397 # 4503599627370496))
    by (vm_compute; reflexivity).
  rewrite E08. cbn [mul].
  set (c := 3602879701896397 # 4503599627370496).
  set (k := (4 * n / 5)%nat).
  assert (Hk : (5 * k <= 4 * n < 5 * k + 5)%nat).
  { pose proof (Nat.div_mod_eq (4 * n) 5) as Hd.
    pose proof (Nat.mod_upper_bound (4 * n) 5) as Hm. fold k in Hd. lia. }
  assert (Hn1 : 1 <= rn).
  { rewrite Hrn. change 1 with (inject_Z 1). rewrite <- Zle_Qle.
    unfold n. lia. }
  assert (Hn2 : rn <= inject_Z (2 ^ 40)) by (rewrite Hrn, <- Zle_Qle; lia).
  assert (Hk1 : 5 * inject_Z (Z.of_nat k) <= 4 * rn).
  { rewrite Hrn. change 5 with (inject_Z 5). change 4 with (inject_Z 4).
    rewrite <- !inject_Z_mult, <- Zle_Qle. lia. }
  assert (Hk2 : 4 * rn <= 5 * inject_Z (Z.of_nat k) + 4).
  { rewrite Hrn. change 5 with (inject_Z 5). change 4 with (inject_Z 4).
    rewrite <- !inject_Z_mult, <- inject_Z_plus, <- Zle_Qle. lia. }
  assert (Hk0 : 0 <= inject_Z (Z.of_nat k))
    by (change 0 with (inject_Z 0); rewrite <- Zle_Qle; lia).
  set (K := inject_Z (Z.of_nat k)) in *.
  assert (Hc1 : c == (4 # 5) + (1 # 22517998136852480))
    by (apply Qeq_bool_iff; vm_compute; reflexivity).
  assert (E240 : inject_Z (2 ^ 40) == 1099511627776) by reflexivity.
  assert (Hlo : K <= rn * c) by (rewrite Hc1; lra).
  assert (Hhi : rn * c <= K + (7 # 8)) by (rewrite Hc1; lra).
  assert (Hsmall : pow2 (-1022) <= rn * c).
  { apply Qle_trans with (4 # 5); [qle|]. rewrite Hc1. lra. }
  pose proof (round_error _ Hsmall) as Herr.
  assert (E53 : pow2 (-53) == 1 # 9007199254740992) by reflexivity.
  rewrite E53 in Herr.
  pose proof (round_mono _ _ Hlo) as Hr.
  assert (HrK : round K == K).
  { unfold K. apply round_Z.
    change (2 ^ 53)%Z with (8192 * 2 ^ 40)%Z. lia. }
  rewrite HrK in Hr.
  assert (Hlt : round (rn * c) < K + 1) by lra.
  rewrite of_Q_finite; cycle 1.
  { apply Qle_trans with 0; [qle|lra]. }
  { apply Qle_trans with (inject_Z (2 ^ 40) + 1); [lra|qle]. }
  assert (Hfl : Qfloor (round (rn * c)) = Z.of_nat k).
  { apply Z.le_antisymm.
    - pose proof (Qfloor_le (round (rn * c))) as Hf.
      assert (H : inject_Z (Qfloor (round (rn * c)))
                  < inject_Z (Z.of_nat k + 1)).
      { rewrite inject_Z_plus. fold K. change (inject_Z 1) with 1. lra. }
      rewrite <- Zlt_Qlt in H. lia.
    - rewrite <- (Qfloor_Z (Z.of_nat k)). apply Qfloor_resp_le. exact Hr. }
  rewrite Hfl. apply Nat2Z.id.
Qed.

Lemma baseline_nonempty64 (values : list Q) :
  (2 <= length values)%nat -> (Z.of_nat (length values) <= 2 ^ 40)%Z ->
  let baseline := take (split_index (length values)) values in
  baseline <> [] /\ (Z.of_nat (length baseline) <= 2 ^ 52)%Z.
Proof.
  intros H2 Hn. cbv zeta.
  rewrite split_index_quotient64 by exact Hn.
  assert (Hk : (1 <= 4 * length values / 5 <= length values)%nat).
  { split.
    - apply Nat.div_le_lower_bound; lia.
    - apply Nat.Div0.div_le_upper_bound. lia. }
  split.
  - intros E. apply (f_equal length) in E.
    rewrite length_take in E. cbn [length] in E. lia.
  - rewrite length_take.
    change (2 ^ 52)%Z with (4096 * 2 ^ 40)%Z. lia.
Qed.

(** ** The score *)

Section Scoring.

Variable np_mean : list Q -> float64.
Variable np_std : list Q -> float64.
Variable np_polyfit1 : list Q -> list Q -> float64 * float64.

Local Abbreviation calculate :=
  (_calculate_score np_mean np_std np_polyfit1).
Local Abbreviation metric :=
  (score_metric np_mean np_std np_polyfit1).

Lemma calculate_score_bounds (values : list Q) (m s : Q) :
  (2 <= length values)%nat -> (Z.of_nat (length values) <= 2 ^ 40)%Z ->
  let baseline := take (split_index (length values)) values in
  np_mean baseline = Finite m -> np_std baseline = Finite s ->
  exists x : Q,
    score (calculate values) = Finite x /\ 0 <= x /\ x <= score_max.
Proof.
  intros H2 Hn baseline Hm Hs.
  destruct (baseline_nonempty64 values H2 Hn) as [Hne Hlen].
  fold baseline in Hne, Hlen.
  unfold _calculate_score.
  destruct values as [|v vs]; [cbn [length] in H2; lia|].
  cbv zeta. cbn [score]. fold baseline. rewrite Hm, Hs.
  destruct (std_guard s) as (s' & Es & Hs'). rewrite Es.
  destruct (percentileofscore_bounds baseline
              (default 0 (last (v :: vs))) Hne Hlen)
    as (p & Ep & Hp0 & Hp1).
  rewrite Ep.
  apply weighted_score_bounds; [|exact Hp0|exact Hp1].
  apply z_score_nonneg, Hs'.
Qed.

End Scoring.

(** ** The range of the score and the gate *)

(** C3 fails as stated: on twelve samples at 0 followed by 1, 2, 3 the
    z-score is 3000, the percentile 100 and the trend "increasing", and
    the three parts 0.5, 0.3 and 0.06 add up, in binary64, to the number
    next above 0.86.  And on ten samples at [2^1023] the sum of the
    baseline is beyond the binary64 range: mean and standard deviation
    are [inf], the z-score and the score are [nan]. *)
Lemma C3_score_exceeds_086 :
  (exists (r : score_result) (x : Q),
      score_metric ref_mean ref_std ref_polyfit1 __init__
        (series_of steep_values)
      = Scored r (Some 3) 15
      /\ z_score r = Finite 3000
      /\ percentile r = Finite 100
      /\ trend r = increasing
      /\ score r = Finite x
      /\ ~ (0 <= x /\ x <= 86 # 100))
  /\ (exists r : score_result,
        score_metric ref_mean ref_std ref_polyfit1 __init__
          (series_of (repeat (inject_Z (2 ^ 1023)) 10))
        = Scored r (Some (inject_Z (2 ^ 1023))) 10
        /\ baseline_mean r = PosInf
        /\ baseline_std r = PosInf
        /\ z_score r = NaN
        /\ trend r = stable
        /\ score r = NaN).
Proof.
  split.
  - eexists. eexists. split; [vm_compute; reflexivity|].
    cbn [z_score percentile trend score].
    repeat (split; [reflexivity|]).
    intros [_ H]. apply Qle_bool_iff in H. vm_compute in H. discriminate H.
  - eexists. split; [vm_compute; reflexivity|].
    cbn [baseline_mean baseline_std z_score trend score].
    repeat split.
Qed.

(** C3, amended: past the gate, for a series of at most [2^40] samples
    whose baseline has a mean and a standard deviation that are
    numbers, the score is a number from 0 to [score_max]; [score_max] is
    the binary64 number next above 0.86, and it is reached: by twelve
    samples at 0 followed by 1, 2, 3. *)
Theorem C3_score_between_0_and_next_above_086 :
  forall (np_mean np_std : list Q -> float64)
         (np_polyfit1 : list Q -> list Q -> float64 * float64),
    (forall (self : scorer) (datapoints : list datapoint) (m s : Q),
        (2 <= min_data_points self)%nat ->
        (min_data_points self <= length datapoints)%nat ->
        (Z.of_nat (length datapoints) <= 2 ^ 40)%Z ->
        let values := map Value (sorted datapoints) in
        let baseline := take (split_index (length values)) values in
        np_mean baseline = Finite m ->
        np_std baseline = Finite s ->
        exists (r : score_result) (current : option Q) (x : Q),
          score_metric np_mean np_std np_polyfit1 self datapoints
          = Scored r current (length datapoints)
          /\ score r = Finite x /\ 0 <= x /\ x <= score_max)
    /\ (exists c : Q,
          lit (86 # 100) = Finite c /\ score_max == c + pow2 (-53))
    /\ (exists (r : score_result) (current : option Q),
          score_metric ref_mean ref_std ref_polyfit1 __init__
            (series_of steep_values)
          = Scored r current 15
          /\ score r = Finite score_max).
Proof.
  intros np_mean np_std np_polyfit1. split; [|split].
  - intros self datapoints m s H2 Hlen Hn values baseline Hm Hs.
    unfold score_metric.
    rewrite (proj2 (Nat.ltb_ge _ _)) by lia. fold values.
    assert (Hv : length values = length datapoints)
      by apply values_length.
    destruct (calculate_score_bounds np_mean np_std np_polyfit1 values m s)
      as (x & Ex & Hx); [lia|lia|exact Hm|exact Hs|].
    eexists. exists (last values), x. split; [reflexivity|].
    split; [exact Ex|exact Hx].
  - destruct score_max_next_above_086 as (c & Ec & Hc & _).
    exists c. split; assumption.
  - eexists. eexists. split; vm_compute; reflexivity.
Qed.

Lemma C3_score_between_0_and_next_above_086_witness :
  exists (r : score_result) (current : option Q) (x : Q),
    score_metric ref_mean ref_std ref_polyfit1 __init__
      (series_of steep_values)
    = Scored r current (length (series_of steep_values))
    /\ score r = Finite x /\ 0 <= x /\ x <= score_max.
Proof.
  destruct (C3_score_between_0_and_next_above_086
              ref_mean ref_std ref_polyfit1) as [H _].
  apply (H __init__ (series_of steep_values) 0 0).
  - cbn. lia.
  - vm_compute. lia.
  - vm_compute. discriminate.
  - vm_compute. reflexivity.
  - vm_compute. reflexivity.
Defined.



(** ** The trend *)

Lemma ltb_nan_r (x : float64) : ltb x NaN = false.
Proof. destruct x; reflexivity. Qed.

Lemma sign_cases (x : float64) :
  x <> NaN -> ltb (Finite 0) x = true \/ leb x (Finite 0) = true.
Proof.
  intros H. destruct x as [a| | |]; cbn [ltb leb].
  - destruct (Qle_bool a 0) eqn:E; [right; reflexivity|left].
    unfold Qlt_bool. rewrite E. reflexivity.
  - left. reflexivity.
  - right. reflexivity.
  - congruence.
Qed.

Lemma leb_not_ltb (x y : float64) : leb x y = true -> ltb y x = false.
Proof.
  destruct x as [a| | |], y as [b| | |]; cbn [ltb leb];
    try reflexivity; try discriminate.
  intros H. unfold Qlt_bool. rewrite H. reflexivity.
Qed.

(** C6: fewer than 3 values give "stable"; for 3 or more the slope is
    the first coefficient of numpy's fit of degree 1 against the
    indices 0..n-1, the relative change is |slope| / (mean + 0.001),
    and the trend is "increasing" for a relative change above 0.1 and a
    positive slope, "decreasing" for a relative change above 0.1 and a
    slope that is not positive, "stable" otherwise; a relative change
    above 0.1 leaves no other case. *)
Theorem C6_trend_classification :
  forall (np_mean : list Q -> float64)
         (np_polyfit1 : list Q -> list Q -> float64 * float64),
    (forall values : list Q,
        (length values < 3)%nat ->
        _analyze_trend np_mean np_polyfit1 values = stable)
    /\ (forall values : list Q,
          (3 <= length values)%nat ->
          let x := map Q_of_nat (seq 0 (length values)) in
          let slope := fst (np_polyfit1 x values) in
          let change :=
            div (abs slope) (add (np_mean values) (lit (1 # 1000))) in
          let trend := _analyze_trend np_mean np_polyfit1 values in
          (ltb (lit (1 # 10)) change = true ->
           ltb (Finite 0) slope = true -> trend = increasing)
          /\ (ltb (lit (1 # 10)) change = true ->
              leb slope (Finite 0) = true -> trend = decreasing)
          /\ (ltb (lit (1 # 10)) change = false -> trend = stable)
          /\ (ltb (lit (1 # 10)) change = true ->
              ltb (Finite 0) slope = true \/ leb slope (Finite 0) = true)).
Proof.
  intros np_mean np_polyfit1. split.
  - intros values H. unfold _analyze_trend.
    rewrite (proj2 (Nat.ltb_lt _ _) H). reflexivity.
  - intros values Hlen x slope change trend.
    assert (E0 : lit 0 = Finite 0) by reflexivity.
    assert (Et : trend
                 = if ltb (lit (1 # 10)) change
                   then if ltb (Finite 0) slope then increasing
                        else decreasing
                   else stable).
    { unfold trend, _analyze_trend.
      rewrite (proj2 (Nat.ltb_ge _ _) Hlen). cbv zeta. rewrite E0.
      reflexivity. }
    split; [|split; [|split]].
    + intros Hc Hs. rewrite Et, Hc, Hs. reflexivity.
    + intros Hc Hs. rewrite Et, Hc, (leb_not_ltb _ _ Hs). reflexivity.
    + intros Hc. rewrite Et, Hc. reflexivity.
    + intros Hc. apply sign_cases. intros F.
      unfold change in Hc. rewrite F in Hc. cbn [abs div] in Hc.
      rewrite ltb_nan_r in Hc. discriminate Hc.
Qed.

Lemma C6_trend_classification_witness :
  _analyze_trend ref_mean ref_polyfit1 [1; 2] = stable
  /\ _analyze_trend ref_mean ref_polyfit1 [1; 2; 4] = increasing
  /\ _analyze_trend ref_mean ref_polyfit1 [4; 2; 1] = decreasing
  /\ _analyze_trend ref_mean ref_polyfit1 [100; 101; 102] = stable.
Proof.
  destruct (C6_trend_classification ref_mean ref_polyfit1)
    as (Hshort & Hlong).
  split; [|split; [|split]].
  - apply Hshort. cbn [length]. lia.
  - destruct (Hlong [1; 2; 4]) as (H & _); [cbn [length]; lia|].
    apply H; vm_compute; reflexivity.
  - destruct (Hlong [4; 2; 1]) as (_ & H & _); [cbn [length]; lia|].
    apply H; vm_compute; reflexivity.
  - destruct (Hlong [100; 101; 102]) as (_ & _ & H & _);
      [cbn [length]; lia|].
    apply H. vm_compute. reflexivity.
Defined.

(** X22: for a series of at most [2^40] values, [int(n * 0.8)] computed
    in binary64 is the integer part of [4 n / 5], as in exact
    arithmetic; so the baseline has [4 n / 5] values, rounded down, and
    the trend is estimated on the others. *)
Theorem X22_split_is_four_fifths :
  forall values : list Q,
    (Z.of_nat (length values) <= 2 ^ 40)%Z ->
    let n := length values in
    split_index n = (4 * n / 5)%nat
    /\ split_index n = AnomalyScorer.split_index n
    /\ length (take (split_index n) values) = (4 * n / 5)%nat
    /\ length (drop (split_index n) values) = (n - 4 * n / 5)%nat.
Proof.
  intros values Hn n.
  pose proof (split_index_quotient64 n Hn) as E.
  assert (Hle : (4 * n / 5 <= n)%nat)
    by (apply Nat.Div0.div_le_upper_bound; lia).
  split; [exact E|]. split; [|split].
  - rewrite E. symmetry. apply split_index_quotient.
  - rewrite length_take, E. fold n. lia.
  - rewrite length_drop, E. reflexivity.
Qed.

Lemma X22_split_is_four_fifths_witness :
  split_index 14 = 11%nat /\ split_index 10 = 8%nat.
Proof.
  split.
  - destruct (X22_split_is_four_fifths (repeat 0 14)) as (H & _).
    + vm_compute. discriminate.
    + exact H.
  - destruct (X22_split_is_four_fifths (repeat 0 10)) as (H & _).
    + vm_compute. discriminate.
    + exact H.
Defined.

(** ** The parts of a score *)

Lemma severity_of_critical64 (x : float64) :
  severity_of x = CRITICAL <-> leb (lit (7 # 10)) x = true.
Proof.
  unfold severity_of. destruct (leb (lit (7 # 10)) x).
  - tauto.
  - split; [|discriminate].
    destruct (leb (lit (5 # 10)) x), (leb (lit (3 # 10)) x); discriminate.
Qed.

(** X15: in the result of [_calculate_score] on 2 to [2^40] values whose
    baseline has a mean and a standard deviation that are numbers, the
    standard deviation that divides is not 0 (it is numpy's unless that
    is 0), the z-score is a number that is not negative or [inf], the
    percentile is a number from 0 to 100 or the next binary64 number
    above 100, and the tier is the one of the score, CRITICAL exactly
    from 0.7 on. *)
Theorem X15_parts_of_a_score :
  forall (np_mean np_std : list Q -> float64)
         (np_polyfit1 : list Q -> list Q -> float64 * float64)
         (values : list Q) (m s : Q),
    (2 <= length values)%nat ->
    (Z.of_nat (length values) <= 2 ^ 40)%Z ->
    let baseline := take (split_index (length values)) values in
    np_mean baseline = Finite m ->
    np_std baseline = Finite s ->
    let r := _calculate_score np_mean np_std np_polyfit1 values in
    (exists s' : Q,
        baseline_std r = Finite s' /\ ~ s' == 0 /\ (~ s == 0 -> s' = s))
    /\ nonneg (z_score r)
    /\ (exists p : Q,
          percentile r = Finite p /\ 0 <= p /\ p <= 100 + pow2 (-46))
    /\ severity r = severity_of (score r)
    /\ (severity r = CRITICAL <-> leb (lit (7 # 10)) (score r) = true).
Proof.
  intros np_mean np_std np_polyfit1 values m s H2 Hn baseline Hm Hs r.
  destruct (baseline_nonempty64 values H2 Hn) as [Hne Hlen].
  fold baseline in Hne, Hlen.
  unfold r, _calculate_score.
  destruct values as [|v vs]; [cbn [length] in H2; lia|].
  cbv zeta.
  cbn [score severity baseline_std z_score percentile].
  fold baseline. rewrite Hm, Hs.
  destruct (std_guard s) as (s' & Es & Hs'). rewrite Es.
  split; [|split; [|split; [|split]]].
  - exists s'. split; [reflexivity|]. split; [exact Hs'|].
    intros Hnz.
    assert (E : eqb (Finite s) (lit 0) = false).
    { assert (E0 : lit 0 = Finite 0) by reflexivity. rewrite E0.
      unfold eqb. cbn [leb].
      destruct (Qle_bool s 0) eqn:E1; destruct (Qle_bool 0 s) eqn:E2;
        try reflexivity.
      apply Qle_bool_iff in E1. apply Qle_bool_iff in E2.
      exfalso. apply Hnz. apply Qle_antisym; assumption. }
    rewrite E in Es. injection Es as <-. reflexivity.
  - apply z_score_nonneg, Hs'.
  - apply percentileofscore_bounds; assumption.
  - reflexivity.
  - apply severity_of_critical64.
Qed.

Lemma X15_parts_of_a_score_witness :
  exists p : Q,
    percentile (_calculate_score ref_mean ref_std ref_polyfit1
                  (repeat 0 11 ++ [1; 2; 3]))
    = Finite p
    /\ 100 < p /\ p <= 100 + pow2 (-46).
Proof.
  destruct (X15_parts_of_a_score ref_mean ref_std ref_polyfit1
              (repeat 0 11 ++ [1; 2; 3]) 0 0)
    as (_ & _ & (p & Ep & _ & Hp) & _).
  - cbn. lia.
  - vm_compute. discriminate.
  - vm_compute. reflexivity.
  - vm_compute. reflexivity.
  - exists p. split; [exact Ep|]. split; [|exact Hp].
    vm_compute in Ep. injection Ep as <-. reflexivity.
Defined.

End AnomalyScorer64Facts.

(** * Properties of the log score in binary64 arithmetic *)

Module LogAnalyzer64Facts.

Import AnomalyScorer Binary64 LogAnalyzer LogAnalyzer64.
Import AnomalyScorerFacts Binary64Facts Float64Facts.
Local Open Scope Q_scope.

Lemma pymin_100 (e : Q) :
  exists s : Q,
    pymin (Finite e) (Finite 100) = Finite s
    /\ (e <= 100 -> s = e) /\ (100 <= e -> s == 100).
Proof.
  unfold pymin. cbn [ltb]. destruct (Qlt_bool 100 e) eqn:E.
  - apply Qlt_bool_iff in E. exists 100. split; [reflexivity|].
    split; [intros H; exfalso; lra|intros _; reflexivity].
  - apply Qlt_bool_false in E. exists e. split; [reflexivity|].
    split; [reflexivity|intros H; apply Qle_antisym; assumption].
Qed.

(** The largest rate below 1/70, for at most [2^40] events. *)
Lemma rate_below (ec tot : Z) :
  (0 < tot <= 2 ^ 40)%Z -> (70 * ec < tot)%Z ->
  inject_Z ec / inject_Z tot <= (1 # 70) - (1 # 76965813944320).
Proof.
  intros Ht Hlt.
  assert (Htq : 0 < inject_Z tot)
    by (change 0 with (inject_Z 0); rewrite <- Zlt_Qlt; lia).
  apply Qle_shift_div_r; [exact Htq|].
  assert (H1 : 70 * inject_Z ec + 1 <= inject_Z tot).
  { change 70 with (inject_Z 70). change 1 with (inject_Z 1).
    rewrite <- inject_Z_mult, <- inject_Z_plus, <- Zle_Qle. lia. }
  assert (H2 : inject_Z tot <= 1099511627776).
  { change 1099511627776 with (inject_Z (2 ^ 40)). rewrite <- Zle_Qle. lia. }
  assert (E : (1 # 76965813944320) == (1 # 70) * (1 # 1099511627776))
    by reflexivity.
  rewrite E. lra.
Qed.

(** X6: called with counts (errors among the events, patterns up to
    [2^63]), [_calculate_anomaly_score] returns a number from 0 to 100,
    the operations rounded as binary64 has them; it is 100 when there
    is a pattern or 70 times the errors reach the events, and for at
    most [2^40] events it is below 100 otherwise. *)
Theorem X6_score_range_and_saturation :
  forall error_count total_events unique : Z,
    (0 <= error_count <= total_events)%Z -> (0 < total_events)%Z ->
    (0 <= unique <= 2 ^ 63)%Z ->
    exists s : Q,
      _calculate_anomaly_score error_count total_events (PyInt unique)
      = Ok (Finite s)
      /\ 0 <= s /\ s <= 100
      /\ ((1 <= unique)%Z \/ (total_events <= 70 * error_count)%Z ->
          s == 100)
      /\ (unique = 0%Z -> (70 * error_count < total_events)%Z ->
          (total_events <= 2 ^ 40)%Z -> s < 100).
Proof.
  intros ec tot u Hec Htot Hu.
  unfold _calculate_anomaly_score, truediv, int_truediv.
  rewrite (proj2 (Z.eqb_neq _ 0)) by lia.
  assert (Htq : 0 < inject_Z tot)
    by (change 0 with (inject_Z 0); rewrite <- Zlt_Qlt; lia).
  assert (Hecq : 0 <= inject_Z ec)
    by (change 0 with (inject_Z 0); rewrite <- Zle_Qle; lia).
  assert (Hle : inject_Z ec <= inject_Z tot) by (rewrite <- Zle_Qle; lia).
  assert (Huq : 0 <= inject_Z u)
    by (change 0 with (inject_Z 0); rewrite <- Zle_Qle; lia).
  assert (Hu2 : inject_Z u <= inject_Z (2 ^ 63)) by (rewrite <- Zle_Qle; lia).
  assert (R0 : round 0 = 0) by reflexivity.
  change (inject_Z 10) with 10.
  (* the rate *)
  destruct (of_Q_between (inject_Z ec / inject_Z tot) 0 1)
    as (r & Er & Hr0 & Hr1).
  { apply Qle_shift_div_l; lra. }
  { apply Qle_shift_div_r; lra. }
  { qle. } { qle. }
  rewrite Er. cbn [bind]. rewrite R0 in Hr0.
  assert (R1 : round 1 = 1) by (vm_compute; reflexivity).
  rewrite R1 in Hr1.
  (* a tenth of the patterns *)
  destruct (of_Q_between (inject_Z u / 10) 0 (inject_Z (2 ^ 63) / 10))
    as (t & Et & Ht0 & _).
  { apply Qle_shift_div_l; [reflexivity|lra]. }
  { unfold Qdiv. apply Qmult_le_compat_r; [exact Hu2|].
    apply Qlt_le_weak. reflexivity. }
  { qle. } { qle. }
  rewrite Et. cbn [bind]. rewrite R0 in Ht0.
  assert (E1 : lit 1 = Finite 1) by (vm_compute; reflexivity).
  assert (E100 : lit 100 = Finite 100) by (vm_compute; reflexivity).
  assert (E70 : of_Z 70 = Finite 70) by (vm_compute; reflexivity).
  assert (E30 : of_Z 30 = Finite 30) by (vm_compute; reflexivity).
  assert (Ec : of_Z 100 = Finite 100) by (vm_compute; reflexivity).
  rewrite E1, E100, E70, E30, Ec.
  destruct (pymin_unit (Finite t) Ht0) as (d & Ed & Hd0 & Hd1).
  rewrite Ed. cbn [mul].
  (* the two products and their sum *)
  destruct (of_Q_between (r * 70) 0 70) as (a & Ea & Ha0 & Ha1);
    [lra|lra|qle|qle|].
  destruct (of_Q_between (d * 30) 0 30) as (b & Eb & Hb0 & Hb1);
    [lra|lra|qle|qle|].
  rewrite Ea, Eb. cbn [add]. rewrite R0 in Ha0, Hb0.
  assert (R70 : round 70 = 70) by (vm_compute; reflexivity).
  assert (R30 : round 30 = 30) by (vm_compute; reflexivity).
  rewrite R70 in Ha1. rewrite R30 in Hb1.
  destruct (of_Q_between (a + b) 0 100) as (c & Ecc & Hc0 & Hc1);
    [lra|lra|qle|qle|].
  rewrite Ecc. cbn [mul]. rewrite R0 in Hc0.
  assert (R100 : round 100 = 100) by (vm_compute; reflexivity).
  rewrite R100 in Hc1.
  destruct (of_Q_between (c * 100) 0 10000) as (e & Ee & He0 & He1);
    [lra|lra|qle|qle|].
  rewrite Ee. rewrite R0 in He0.
  destruct (pymin_100 e) as (s & Es & Hs1 & Hs2). rewrite Es.
  exists s. split; [reflexivity|].
  assert (Hrange : 0 <= s /\ s <= 100).
  { destruct (Qlt_le_dec 100 e) as [H|H].
    - rewrite (Hs2 (Qlt_le_weak _ _ H)). split; [qle|apply Qle_refl].
    - rewrite (Hs1 H). split; assumption. }
  split; [apply Hrange|]. split; [apply Hrange|]. split.
  - (* saturation *)
    intros Hsat. apply Hs2.
    assert (Hab : 1 <= a + b).
    { destruct Hsat as [H1|H70].
      - (* a pattern: a tenth is at least the literal 0.1 *)
        assert (Hq : 1 <= inject_Z u)
          by (change 1 with (inject_Z 1); rewrite <- Zle_Qle; lia).
        assert (Ht1 : round (1 # 10) <= t).
        { apply (of_Q_lower _ _ _ Et).
          apply Qle_shift_div_l; [reflexivity|]. lra. }
        assert (Hd : round (1 # 10) <= d).
        { unfold pymin in Ed. cbn [ltb] in Ed.
          destruct (Qlt_bool 1 t); injection Ed as <-; [qle|exact Ht1]. }
        assert (Hb : round (round (1 # 10) * 30) <= b).
        { apply (of_Q_lower _ _ _ Eb). lra. }
        assert (H3 : 3 <= round (round (1 # 10) * 30)) by qle.
        lra.
      - (* the rate is at least the literal 1/70 *)
        assert (Hr : round (1 # 70) <= r).
        { apply (of_Q_lower _ _ _ Er).
          apply Qle_shift_div_l; [exact Htq|].
          assert (H : inject_Z tot <= 70 * inject_Z ec).
          { change 70 with (inject_Z 70).
            rewrite <- inject_Z_mult, <- Zle_Qle. exact H70. }
          lra. }
        assert (Ha : round (round (1 # 70) * 70) <= a).
        { apply (of_Q_lower _ _ _ Ea). lra. }
        assert (H1 : 1 <= round (round (1 # 70) * 70)) by qle.
        lra. }
    assert (Hc : 1 <= c).
    { rewrite <- R1. apply (of_Q_lower _ _ _ Ecc), Hab. }
    rewrite <- R100. apply (of_Q_lower _ _ _ Ee). lra.
  - (* below saturation *)
    intros -> Hlt Ht40.
    pose proof (rate_below ec tot (conj Htot Ht40) Hlt) as Hq.
    set (q0 := (1 # 70) - (1 # 76965813944320)) in *.
    assert (Et0 : t = 0) by (rewrite (of_Q_inv _ _ Et); reflexivity).
    subst t.
    assert (Ed0 : d = 0).
    { assert (E : pymin (Finite 0) (Finite 1) = Finite 0) by reflexivity.
      rewrite E in Ed. injection Ed as <-. reflexivity. }
    subst d.
    assert (Eb0 : b = 0) by (rewrite (of_Q_inv _ _ Eb); reflexivity).
    subst b.
    assert (Hr : r <= round q0) by (apply (of_Q_upper _ _ _ Er), Hq).
    assert (Ha : a <= round (round q0 * 70))
      by (apply (of_Q_upper _ _ _ Ea); lra).
    set (a0 := round (round q0 * 70)) in *.
    assert (Hc : c <= round (a0 + 0))
      by (apply (of_Q_upper _ _ _ Ecc); lra).
    set (c0 := round (a0 + 0)) in *.
    assert (He : e <= round (c0 * 100))
      by (apply (of_Q_upper _ _ _ Ee); lra).
    assert (Hlt100 : round (c0 * 100) < 100) by qlt.
    rewrite Hs1 by lra. lra.
Qed.

Lemma X6_score_range_and_saturation_witness :
  exists s : Q,
    _calculate_anomaly_score 1 125 (PyInt 0) = Ok (Finite s)
    /\ 56 < s /\ s < 100.
Proof.
  destruct (X6_score_range_and_saturation 1 125 0) as (s & Hs & _ & _ & _ & H);
    [lia|lia|lia|].
  exists s. split; [exact Hs|]. split.
  - vm_compute in Hs. injection Hs as <-. reflexivity.
  - apply H; lia.
Defined.

End LogAnalyzer64Facts.

(** * More properties of the log analyzer and of its handler *)

Module LogExtraFacts.

Import LogAnalyzer LogSpec.

(** ** Matching, letter case aside *)

Lemma lower_idempotent (c : ascii) : Re.lower (Re.lower c) = Re.lower c.
Proof.
  destruct c as [[] [] [] [] [] [] [] []]; reflexivity.
Qed.

Lemma fold_case_idempotent (s : string) : fold_case (fold_case s) = fold_case s.
Proof.
  induction s as [|c s IH]; cbn [fold_case]; [reflexivity|].
  rewrite lower_idempotent, IH. reflexivity.
Qed.

Lemma fold_case_append (s t : string) :
  fold_case (String.append s t) = String.append (fold_case s) (fold_case t).
Proof.
  induction s as [|c s IH]; simpl; [reflexivity|].
  rewrite IH. reflexivity.
Qed.

Lemma fold_case_split (m a b : string) :
  fold_case m = String.append a b ->
  exists a' b', m = String.append a' b'
                /\ fold_case a' = a /\ fold_case b' = b.
Proof.
  revert m. induction a as [|c a IH]; intros m H.
  - exists EmptyString, m. auto.
  - destruct m as [|d m]; [discriminate|].
    simpl in H. injection H as Hc H.
    destruct (IH m H) as (a' & b' & -> & Ha & Hb).
    exists (String d a'), b'. simpl.
    rewrite Hc, Ha. auto.
Qed.

Lemma run_literal_ci (p : string) :
  forall mid seen prev post k,
    fold_case mid = fold_case p ->
    exists prev',
      Re.run true (Re.literal p) seen
        (Re.Cursor prev (String.append mid post)) k
      = k (rev (list_ascii_of_string mid) ++ seen) (Re.Cursor prev' post).
Proof.
  induction p as [|c p IH]; intros mid seen prev post k H.
  - destruct mid; [|discriminate]. exists prev. reflexivity.
  - destruct mid as [|a mid]; [discriminate|].
    simpl in H. injection H as Hc H.
    destruct (IH mid (a :: seen) (Some a) post k H) as [prev' E].
    exists prev'. simpl. unfold Re.chr_eq. rewrite Hc, Ascii.eqb_refl.
    simpl in E. rewrite E. rewrite <- app_assoc. reflexivity.
Qed.

Lemma run_literal_inv (p : string) :
  forall seen prev s k res,
    Re.run true (Re.literal p) seen (Re.Cursor prev s) k = Some res ->
    exists mid post,
      s = String.append mid post /\ fold_case mid = fold_case p.
Proof.
  induction p as [|c p IH]; intros seen prev s k res H.
  - exists EmptyString, s. auto.
  - cbn [Re.literal Re.run Re.rest] in H.
    destruct s as [|a s]; [discriminate|].
    unfold Re.chr_eq in H.
    destruct (Ascii.eqb (Re.lower a) (Re.lower c)) eqn:E; [|discriminate].
    apply Ascii.eqb_eq in E.
    apply IH in H. destruct H as (mid & post & -> & Hm).
    exists (String a mid), post. simpl.
    rewrite E, Hm. auto.
Qed.

Lemma search_from_inv (ignorecase : bool) (r : Re.regex) (s : string) :
  forall prev,
    Re.search_from ignorecase r prev s = true ->
    exists pre rest prev',
      s = String.append pre rest
      /\ Re.match_at ignorecase r (Re.Cursor prev' rest) <> None.
Proof.
  induction s as [|c s IH]; intros prev H; cbn [Re.search_from] in H.
  - destruct (Re.match_at ignorecase r _) eqn:E; [|discriminate].
    exists EmptyString, EmptyString, prev. split; [reflexivity|]. congruence.
  - destruct (Re.match_at ignorecase r _) eqn:E.
    + exists EmptyString, (String c s), prev. split; [reflexivity|]. congruence.
    + destruct (IH _ H) as (pre & rest & prev' & -> & Hm).
      exists (String c pre), rest, prev'. auto.
Qed.

Lemma search_ci_substring (p pre mid post : string) :
  fold_case mid = fold_case p ->
  forall prev,
    Re.search_from true (Re.literal p) prev
      (String.append pre (String.append mid post)) = true.
Proof.
  intros Hm. induction pre as [|c pre IH]; intros prev.
  - change (Re.search_from true (Re.literal p) prev
              (String.append mid post) = true).
    destruct (run_literal_ci p mid [] prev post
                (fun seen cur' => Some (seen, cur')) Hm) as [prev' E].
    eapply ReFacts.search_from_here. unfold Re.match_at. rewrite E.
    reflexivity.
  - change (Re.search_from true (Re.literal p) prev
              (String c (String.append pre (String.append mid post))) = true).
    apply ReFacts.search_from_later, IH.
Qed.

Lemma matches_contains_ci (p message : string) :
  matches p message = true -> contains_ci p message.
Proof.
  unfold matches, Re.search. intros H. apply search_from_inv in H.
  destruct H as (pre & rest & prev' & -> & Hm).
  unfold Re.match_at in Hm.
  destruct (Re.run true (Re.literal p) [] _ _) as [res|] eqn:E;
    [|congruence].
  apply run_literal_inv in E. destruct E as (mid & post & -> & Hf).
  exists pre, mid, post. auto.
Qed.

Lemma contains_ci_matches (p message : string) :
  contains_ci p message -> matches p message = true.
Proof.
  intros (pre & mid & post & -> & Hf). apply search_ci_substring, Hf.
Qed.

Lemma contains_ci_fold_case (p message : string) :
  contains_ci p (fold_case message) <-> contains_ci p message.
Proof.
  split.
  - intros (pre & mid & post & H & Hf).
    apply fold_case_split in H. destruct H as (pre' & rest & -> & _ & H).
    apply fold_case_split in H. destruct H as (mid' & post' & -> & Hm & _).
    exists pre', mid', post'. split; [reflexivity|].
    rewrite <- Hf, <- Hm. symmetry. apply fold_case_idempotent.
  - intros (pre & mid & post & -> & Hf).
    exists (fold_case pre), (fold_case mid), (fold_case post).
    rewrite !fold_case_append. split; [reflexivity|].
    rewrite fold_case_idempotent. exact Hf.
Qed.

Lemma matches_fold_case (p message : string) :
  matches p (fold_case message) = matches p message.
Proof.
  destruct (matches p message) eqn:E.
  - apply contains_ci_matches.
    apply (proj2 (contains_ci_fold_case p message)).
    apply matches_contains_ci, E.
  - destruct (matches p (fold_case message)) eqn:E'; [|reflexivity].
    apply matches_contains_ci in E'.
    apply (proj1 (contains_ci_fold_case p message)) in E'.
    apply contains_ci_matches in E'. congruence.
Qed.


(** X1: in a message of code points below 256, a pattern is found
    exactly when the message has the pattern in it up to the case of the
    letters A-Z; so it is found in such a message and in the message
    with A-Z replaced by a-z alike. *)
Theorem X1_pattern_found_iff_contained :
  forall p message : string,
    (matches p message = true <-> contains_ci p message)
    /\ matches p (fold_case message) = matches p message.
Proof.
  intros p message. split; [split|].
  - apply matches_contains_ci.
  - apply contains_ci_matches.
  - apply matches_fold_case.
Qed.

Lemma X1_pattern_found_iff_contained_witness :
  matches "TIMEOUT" "request Timeout after 30s" = true.
Proof.
  destruct (X1_pattern_found_iff_contained "TIMEOUT"
              "request Timeout after 30s") as [[_ H] _].
  apply H. exists "request ", "Timeout", " after 30s".
  split; reflexivity.
Defined.

(** ** The histogram *)

Lemma scan_patterns_find (patterns : list string) (message : string)
    (st : counters) :
  scan_patterns patterns message st
  = match List.find (fun p => matches p message) patterns with
    | Some p => increment p st
    | None => st
    end.
Proof.
  induction patterns as [|q qs IH]; cbn [scan_patterns List.find].
  - reflexivity.
  - destruct (matches q message); [reflexivity|exact IH].
Qed.

Lemma scan_patterns_fold_case (patterns : list string) (message : string)
    (st : counters) :
  scan_patterns patterns (fold_case message) st
  = scan_patterns patterns message st.
Proof.
  induction patterns as [|q qs IH]; cbn [scan_patterns].
  - reflexivity.
  - rewrite matches_fold_case, IH. reflexivity.
Qed.

Lemma bucket_count_cons (p m : string) (ms : list string) :
  bucket_count p (m :: ms)
  = ((match first_match m with
      | Some q => if String.eqb q p then 1 else 0
      | None => 0
      end) + bucket_count p ms)%nat.
Proof.
  unfold bucket_count. cbn [List.filter].
  destruct (first_match m) as [q|]; [|reflexivity].
  destruct (String.eqb q p); reflexivity.
Qed.

Lemma bucket_after (messages : list string) :
  forall (st : counters) (p : string),
    snd (fold_left
           (fun st message => scan_patterns error_patterns message st)
           messages st) !! p
    = match bucket_count p messages with
      | O => snd st !! p
      | S n => Some (default O (snd st !! p) + S n)%nat
      end.
Proof.
  induction messages as [|m ms IH]; intros st p; cbn [fold_left].
  - reflexivity.
  - rewrite IH, bucket_count_cons, scan_patterns_find.
    fold (first_match m).
    destruct (first_match m) as [q|]; [|reflexivity].
    destruct (String.eqb q p) eqn:E.
    + apply String.eqb_eq in E. subst q.
      unfold increment. cbn [snd]. rewrite lookup_insert_eq.
      destruct (bucket_count p ms); simpl; apply (f_equal Some); lia.
    + apply String.eqb_neq in E.
      unfold increment. cbn [snd]. rewrite lookup_insert_ne by exact E.
      reflexivity.
Qed.

Lemma bucket_count_pattern (p : string) (messages : list string) :
  (0 < bucket_count p messages)%nat -> In p error_patterns.
Proof.
  induction messages as [|m ms IH]; [cbn; lia|].
  rewrite bucket_count_cons.
  destruct (first_match m) as [q|] eqn:F; [|exact IH].
  destruct (String.eqb q p) eqn:E; [|exact IH].
  intros _. apply String.eqb_eq in E. subst q.
  apply List.find_some in F. apply F.
Qed.

Lemma filter_length_permutation {A : Type} (f : A -> bool) (l1 l2 : list A) :
  Permutation l1 l2 ->
  length (List.filter f l1) = length (List.filter f l2).
Proof.
  induction 1 as [|x l1 l2 _ IH|x y l|l1 l2 l3 _ IH1 _ IH2];
    cbn [List.filter].
  - reflexivity.
  - destruct (f x); cbn [length]; rewrite IH; reflexivity.
  - destruct (f x), (f y); reflexivity.
  - rewrite IH1. exact IH2.
Qed.

Lemma bucket_count_app (p : string) (m1 m2 : list string) :
  bucket_count p (m1 ++ m2)
  = (bucket_count p m1 + bucket_count p m2)%nat.
Proof.
  unfold bucket_count. rewrite List.filter_app, length_app. reflexivity.
Qed.

Lemma count_lines_app (m1 m2 : list string) :
  count_lines (m1 ++ m2) = (count_lines m1 + count_lines m2)%nat.
Proof.
  unfold count_lines. rewrite List.filter_app, length_app. reflexivity.
Qed.

Lemma detect_errors_bucket (messages : list string) (p : string) :
  snd (detect_errors messages) !! p
  = match bucket_count p messages with
    | O => None
    | S n => Some (S n)
    end.
Proof.
  unfold detect_errors. rewrite bucket_after. cbn [snd].
  rewrite lookup_empty. reflexivity.
Qed.

(** X2: the histogram of the error-detection loop: the bucket of a
    pattern holds the number of lines whose first pattern found is this
    one; a bucket is never 0; and only the twelve patterns have one. *)
Theorem X2_histogram_counts_first_matches :
  forall (messages : list string) (p : string),
    default O (snd (detect_errors messages) !! p) = bucket_count p messages
    /\ (forall n : nat,
          snd (detect_errors messages) !! p = Some n ->
          (0 < n)%nat /\ In p error_patterns).
Proof.
  intros messages p. rewrite detect_errors_bucket. split.
  - destruct (bucket_count p messages); reflexivity.
  - intros n H.
    destruct (bucket_count p messages) as [|k] eqn:E; [discriminate|].
    injection H as <-. split; [lia|].
    apply (bucket_count_pattern p messages). lia.
Qed.

Lemma X2_histogram_counts_first_matches_witness :
  (0 < 2)%nat /\ In "ERROR" error_patterns.
Proof.
  destruct (X2_histogram_counts_first_matches
              ["ERROR 500"; "fine"; "error again"] "ERROR") as [_ H].
  apply H. vm_compute. reflexivity.
Defined.

(** X3: on messages of code points below 256 the error detection takes
    no notice of the case of the letters A-Z: the counters of a batch
    and those of the batch with A-Z replaced by a-z are the same. *)
Theorem X3_detection_ignores_case :
  forall messages : list string,
    detect_errors (map fold_case messages) = detect_errors messages.
Proof.
  intros messages. unfold detect_errors.
  generalize (O, (∅ : gmap string nat)).
  induction messages as [|m ms IH]; intros st; cbn [map fold_left].
  - reflexivity.
  - rewrite scan_patterns_fold_case. apply IH.
Qed.

(** X4: the counters of two batches add up: for the batch made of both,
    [error_count] is the sum of the two, and so is every bucket; and the
    order of the lines does not matter. *)
Theorem X4_counters_add_up :
  (forall (m1 m2 : list string),
      fst (detect_errors (m1 ++ m2))
      = (fst (detect_errors m1) + fst (detect_errors m2))%nat
      /\ forall p : string,
           default O (snd (detect_errors (m1 ++ m2)) !! p)
           = (default O (snd (detect_errors m1) !! p)
              + default O (snd (detect_errors m2) !! p))%nat)
  /\ (forall m1 m2 : list string,
      Permutation m1 m2 -> detect_errors m1 = detect_errors m2).
Proof.
  split.
  - intros m1 m2. split.
    + rewrite !LogAnalyzerFacts.detect_errors_count. apply count_lines_app.
    + intros p. rewrite !detect_errors_bucket, bucket_count_app.
      destruct (bucket_count p m1), (bucket_count p m2); simpl; lia.
  - intros m1 m2 H.
    apply injective_projections.
    + rewrite !LogAnalyzerFacts.detect_errors_count.
      apply filter_length_permutation, H.
    + apply map_eq. intros p. rewrite !detect_errors_bucket.
      unfold bucket_count.
      rewrite (filter_length_permutation _ m1 m2 H). reflexivity.
Qed.

Lemma X4_counters_add_up_witness :
  detect_errors ["ERROR a"; "ok"; "timeout b"]
  = detect_errors ["timeout b"; "ERROR a"; "ok"].
Proof.
  destruct X4_counters_add_up as [_ H]. apply H.
  symmetry. apply (Permutation_cons_append ["ERROR a"; "ok"] "timeout b").
Defined.


(** ** Severity and score *)

(** X5: the tier of [_determine_severity] is the higher of the tier the
    score alone gives (thresholds 70, 40, 20) and the tier the error count
    alone gives (above 100, 20, 5). *)
Theorem X5_severity_is_higher_of_two :
  forall (anomaly_score : Q) (error_count : Z),
    _determine_severity anomaly_score error_count
    = tier_max (score_tier anomaly_score) (count_tier error_count).
Proof.
  intros s e. unfold _determine_severity, score_tier, count_tier, tier_max.
  destruct (Qle_bool 70 s) eqn:S70.
  { destruct (100 <? e)%Z, (20 <? e)%Z, (5 <? e)%Z; reflexivity. }
  destruct (100 <? e)%Z eqn:E100.
  { destruct (Qle_bool 40 s), (Qle_bool 20 s); reflexivity. }
  destruct (Qle_bool 40 s) eqn:S40.
  { destruct (20 <? e)%Z, (5 <? e)%Z; reflexivity. }
  destruct (20 <? e)%Z eqn:E20.
  { destruct (Qle_bool 20 s); reflexivity. }
  destruct (Qle_bool 20 s) eqn:S20.
  { destruct (5 <? e)%Z; reflexivity. }
  destruct (5 <? e)%Z; reflexivity.
Qed.

(** ** The analysis and the handler *)

Section Handler.

Context {insights : Type}.
Variable ENABLE_BEDROCK : bool.
Variable _get_ai_insights : list string -> insights.
Variable SNS_TOPIC_ARN : option string.
Variable LOG_GROUPS : option string.
Variable time_window : nat -> Z -> result (Z * Z).
Variable filter_log_events : string -> Z -> Z -> LogLambda.response.

Local Abbreviation analyze :=
  (_analyze_events ENABLE_BEDROCK _get_ai_insights).
Local Abbreviation handle :=
  (LogLambda.handle_group ENABLE_BEDROCK _get_ai_insights SNS_TOPIC_ARN
     time_window filter_log_events).
Local Abbreviation handle_all :=
  (LogLambda.handle_groups ENABLE_BEDROCK _get_ai_insights SNS_TOPIC_ARN
     time_window filter_log_events).
Local Abbreviation handler :=
  (LogLambda.lambda_handler ENABLE_BEDROCK _get_ai_insights SNS_TOPIC_ARN
     LOG_GROUPS time_window filter_log_events).

(** X7: [_analyze_events] returns an analysis for the empty batch only,
    and this analysis has no error, rate 0, score 0 and tier LOW; for any
    other batch it raises. *)
Theorem X7_analysis_only_of_empty_batch :
  forall (events : list (gmap string string)) (a : analysis),
    analyze events = Ok a <-> events = [] /\ a = empty_analysis.
Proof.
  intros events a. split.
  - intros H. destruct events as [|e es].
    + split; [reflexivity|]. vm_compute in H.
      assert (E : forall b : bool, (if b then false else false) = false)
        by (intros []; reflexivity).
      rewrite E in H. injection H as <-. reflexivity.
    + rewrite LogAnalyzerFacts.analyze_events_raises in H by discriminate.
      discriminate.
  - intros [-> ->]. unfold _analyze_events, make_analysis.
    cbn [map detect_errors fold_left fst snd length bind
           _calculate_anomaly_score Z.of_nat Z.eqb].
    rewrite andb_false_r. reflexivity.
Qed.

(** A result that is no analysis. *)
Local Abbreviation no_analysis :=
  (fun g : LogLambda.group_result =>
     forall name total a, g <> LogLambda.Report (Analysed name total a)).

Lemma handle_group_outcome (call : nat) (hours : Z) (name : string) :
  match time_window call hours with
  | Raise e => handle call hours name = Raise e
  | Ok _ =>
      exists g : LogLambda.group_result,
        handle call hours name = Ok (g, [LogLambda.PutMetricData name 0 O])
        /\ LogLambda.group_name g = name
        /\ no_analysis g
  end.
Proof.
  unfold LogLambda.handle_group, LogLambda.analyze_log_group_call.
  destruct (time_window call hours) as [w|e]; cbn [bind]; [|reflexivity].
  destruct (filter_log_events name (fst w) (snd w)) as [events|msg].
  - destruct events as [|e es].
    + eexists. cbn [analyze_log_group LogLambda.has_error
                      LogLambda.reported_score LogLambda.reported_errors].
      unfold LogLambda.publish_alert.
      split; [destruct (LogLambda.configured SNS_TOPIC_ARN); reflexivity|].
      split; [reflexivity|]. intros n t a E. discriminate E.
    + unfold analyze_log_group.
      rewrite LogAnalyzerFacts.analyze_events_raises by discriminate.
      eexists. split; [reflexivity|]. split; [reflexivity|].
      intros n t a E. discriminate E.
  - eexists. split; [reflexivity|]. split; [reflexivity|].
    intros n t a E. discriminate E.
Qed.

(** The loop over the log groups stops at the first window that
    raises. *)
Lemma handle_groups_outcome (hours : Z) (groups : list string) :
  forall call : nat,
    exists k : nat,
      (k <= length groups)%nat
      /\ fst (handle_all call hours groups)
         = map (fun name => LogLambda.PutMetricData name 0 O) (take k groups)
      /\ (forall i : nat,
            (i < k)%nat -> exists w, time_window (call + i) hours = Ok w)
      /\ ((k = length groups
           /\ exists results : list LogLambda.group_result,
                snd (handle_all call hours groups) = Ok results
                /\ map LogLambda.group_name results = groups
                /\ Forall no_analysis results)
          \/ ((k < length groups)%nat
              /\ exists e : exn,
                   time_window (call + k) hours = Raise e
                   /\ snd (handle_all call hours groups) = Raise e)).
Proof.
  induction groups as [|name groups IH]; intros call.
  - exists O. cbn [LogLambda.handle_groups fst snd length take map].
    split; [lia|]. split; [reflexivity|]. split; [intros i Hi; lia|].
    left. split; [reflexivity|]. exists []. repeat split. constructor.
  - cbn [LogLambda.handle_groups].
    pose proof (handle_group_outcome call hours name) as H.
    destruct (time_window call hours) as [w|e] eqn:Ew.
    + destruct H as (g & Hg & Hn & Ha). rewrite Hg.
      destruct (IH (S call)) as (k & Hk & Hput & Hwin & Hend).
      exists (S k). cbn [fst snd length take map].
      split; [lia|]. split; [rewrite Hput; reflexivity|]. split.
      * intros i Hi. destruct i as [|i].
        -- rewrite Nat.add_0_r. exists w. exact Ew.
        -- replace (call + S i)%nat with (S call + i)%nat by lia.
           apply Hwin. lia.
      * destruct Hend as [(-> & results & Hr & Hnames & Hall)
                         |(Hlt & e & He & Hr)].
        -- left. split; [reflexivity|]. exists (g :: results).
           rewrite Hr. cbn [bind map]. split; [reflexivity|].
           split; [rewrite Hn, Hnames; reflexivity|].
           constructor; assumption.
        -- right. split; [lia|]. exists e.
           replace (call + S k)%nat with (S call + k)%nat by lia.
           split; [exact He|]. rewrite Hr. reflexivity.
    + rewrite H. exists O. cbn [fst snd length take map].
      split; [lia|]. split; [reflexivity|]. split; [intros i Hi; lia|].
      right. split; [lia|]. exists e. rewrite Nat.add_0_r.
      split; [exact Ew|reflexivity].
Qed.

(** X8: the handler of the log analyzer handles the log groups in order
    until the time arithmetic at the head of [analyze_log_group]
    raises, which it does for a number of hours out of range.  For each
    group handled the metrics put are AnomalyScore 0 and ErrorCount 0,
    whatever CloudWatch answers, and nothing else is called: nothing is
    ever published to SNS.  When no window raises, the handler returns
    status 200 and one result for each log group, in order, none of
    them an analysis; when one does, its exception escapes the handler
    and there is no response. *)
Theorem X8_log_handler_never_alerts :
  forall event : LogLambda.lambda_event,
    let groups := LogLambda.chosen_log_groups LOG_GROUPS event in
    let hours := default 1%Z (LogLambda.hours event) in
    let out := handler event in
    exists k : nat,
      (k <= length groups)%nat
      /\ fst out
         = map (fun name => LogLambda.PutMetricData name 0 O) (take k groups)
      /\ (forall i : nat,
            (i < k)%nat -> exists w, time_window i hours = Ok w)
      /\ ((k = length groups
           /\ exists results : list LogLambda.group_result,
                snd out = Ok (200%Z, results)
                /\ map LogLambda.group_name results = groups
                /\ Forall no_analysis results)
          \/ ((k < length groups)%nat
              /\ exists e : exn,
                   time_window k hours = Raise e /\ snd out = Raise e)).
Proof.
  intros event. cbv zeta. unfold LogLambda.lambda_handler. cbn [fst snd].
  destruct (handle_groups_outcome (default 1%Z (LogLambda.hours event))
              (LogLambda.chosen_log_groups LOG_GROUPS event) O)
    as (k & Hk & Hput & Hwin & Hend).
  exists k. split; [exact Hk|]. split; [exact Hput|]. split; [exact Hwin|].
  destruct Hend as [(-> & results & Hr & Hnames & Hall)|(Hlt & e & He & Hr)].
  - left. split; [reflexivity|]. exists results. rewrite Hr.
    split; [reflexivity|]. split; assumption.
  - right. split; [exact Hlt|]. exists e. rewrite Hr.
    split; [exact He|reflexivity].
Qed.

End Handler.

Lemma X8_log_handler_never_alerts_witness :
  let window := fun (_ : nat) (hours : Z) =>
                  if (hours <? 100000000)%Z
                  then Ok ((- hours * 3600000)%Z, 0%Z)
                  else Raise (OverflowError "date value out of range") in
  let fetch := fun (_ : string) (_ _ : Z) =>
                 LogLambda.Events [event_of "ERROR 500"] in
  let handler := LogLambda.lambda_handler false (fun _ : list string => tt)
                   (Some "arn:aws:sns:alerts") None window fetch in
  handler {| LogLambda.log_groups := Some ["app"];
             LogLambda.hours := Some 100000000%Z |}
  = ([], Raise (OverflowError "date value out of range"))
  /\ fst (handler {| LogLambda.log_groups := Some ["app"];
                     LogLambda.hours := None |})
     = [LogLambda.PutMetricData "app" 0 O].
Proof.
  cbv zeta. split.
  - destruct (X8_log_handler_never_alerts false (fun _ : list string => tt)
                (Some "arn:aws:sns:alerts") None
                (fun (_ : nat) (hours : Z) =>
                   if (hours <? 100000000)%Z
                   then Ok ((- hours * 3600000)%Z, 0%Z)
                   else Raise (OverflowError "date value out of range"))
                (fun (_ : string) (_ _ : Z) =>
                   LogLambda.Events [event_of "ERROR 500"])
                {| LogLambda.log_groups := Some ["app"];
                   LogLambda.hours := Some 100000000%Z |})
      as (k & Hk & Hput & Hwin & Hend).
    destruct Hend as [(-> & _)|(Hlt & e & He & Hr)].
    + destruct (Hwin O) as [w Hw]; [cbn; lia|]. discriminate Hw.
    + cbn in Hlt. assert (k = O) by lia. subst k.
      cbn in He. injection He as <-.
      apply injective_projections; [exact Hput|exact Hr].
  - destruct (X8_log_handler_never_alerts false (fun _ : list string => tt)
                (Some "arn:aws:sns:alerts") None
                (fun (_ : nat) (hours : Z) =>
                   if (hours <? 100000000)%Z
                   then Ok ((- hours * 3600000)%Z, 0%Z)
                   else Raise (OverflowError "date value out of range"))
                (fun (_ : string) (_ _ : Z) =>
                   LogLambda.Events [event_of "ERROR 500"])
                {| LogLambda.log_groups := Some ["app"];
                   LogLambda.hours := None |})
      as (k & Hk & Hput & Hwin & Hend).
    destruct Hend as [(-> & _)|(Hlt & e & He & Hr)].
    + exact Hput.
    + cbn in Hlt. assert (k = O) by lia. subst k.
      cbn in He. discriminate He.
Defined.

(** X9: [publish_alert] sends an analysis to SNS exactly when a topic is
    configured and the score is at least 40 or there are more than 20
    errors; it then sends one message, with the tier of the analysis,
    HIGH or CRITICAL. *)
Theorem X9_alert_from_score_40_or_21_errors :
  forall (insights : Type) (ENABLE_BEDROCK : bool)
         (_get_ai_insights : list string -> insights)
         (SNS_TOPIC_ARN : option string)
         (name : string) (total : nat) (messages : list string)
         (st : counters) (patterns : gset string) (avg score : Q),
    let a :=
      make_analysis ENABLE_BEDROCK _get_ai_insights messages st patterns
        avg score in
    let sent := LogLambda.publish_alert SNS_TOPIC_ARN (Analysed name total a) in
    (sent <> []
     <-> LogLambda.configured SNS_TOPIC_ARN <> None
         /\ ((40 <= score)%Q \/ (20 < fst st)%nat))
    /\ (forall e, In e sent ->
          exists topic,
            LogLambda.configured SNS_TOPIC_ARN = Some topic
            /\ sent = [LogLambda.Publish topic (severity a) name a]
            /\ (severity a = HIGH \/ severity a = CRITICAL)).
Proof.
  intros insights ENABLE_BEDROCK _get_ai_insights SNS_TOPIC_ARN
    name total messages st patterns avg score. cbv zeta.
  unfold LogLambda.publish_alert.
  set (a := make_analysis _ _ _ _ _ _ _).
  assert (Hsev : severity a = _determine_severity score (Z.of_nat (fst st)))
    by reflexivity.
  assert (Htier :
            (severity a = HIGH \/ severity a = CRITICAL)
            <-> ((40 <= score)%Q \/ (20 < fst st)%nat)).
  { rewrite Hsev. unfold _determine_severity.
    destruct (Qle_bool 70 score) eqn:S70; cbn [orb].
    { split; [|auto]. intros _. left. apply Qle_bool_iff in S70.
      apply Qle_trans with 70%Q; [unfold Qle; cbn; lia|exact S70]. }
    destruct (100 <? Z.of_nat (fst st))%Z eqn:E100.
    { split; [|auto]. intros _. right. apply Z.ltb_lt in E100. lia. }
    destruct (Qle_bool 40 score) eqn:S40; cbn [orb].
    { split; [|auto]. intros _. left. apply Qle_bool_iff, S40. }
    destruct (20 <? Z.of_nat (fst st))%Z eqn:E20.
    { split; [|auto]. intros _. right. apply Z.ltb_lt in E20. lia. }
    assert (N40 : ~ (40 <= score)%Q)
      by (intros H; apply Qle_bool_iff in H; congruence).
    apply Z.ltb_ge in E20.
    destruct (Qle_bool 20 score || (5 <? Z.of_nat (fst st))%Z);
      (split; [intros [H|H]; discriminate|intros [H|H]; [tauto|lia]]). }
  destruct (LogLambda.configured SNS_TOPIC_ARN) as [topic|].
  - destruct (severity a) eqn:Sa.
    + split; [split; [congruence|]|intros e []].
      intros [_ H]. apply Htier in H. destruct H; discriminate.
    + split; [split; [congruence|]|intros e []].
      intros [_ H]. apply Htier in H. destruct H; discriminate.
    + split.
      * split; [|discriminate]. intros _. split; [discriminate|].
        apply Htier. auto.
      * intros e _. exists topic. auto.
    + split.
      * split; [|discriminate]. intros _. split; [discriminate|].
        apply Htier. auto.
      * intros e _. exists topic. auto.
  - split; [split; [congruence|tauto]|intros e []].
Qed.

Lemma X9_alert_from_score_40_or_21_errors_witness :
  LogLambda.publish_alert (Some "arn:aws:sns:topic")
    (Analysed "app" 3
       (make_analysis false (fun _ : list string => tt)
          ["a"; "b"; "c"] (O, ∅) ∅ 1 45))
  <> [].
Proof.
  destruct (X9_alert_from_score_40_or_21_errors unit false
              (fun _ : list string => tt) (Some "arn:aws:sns:topic")
              "app" 3 ["a"; "b"; "c"] (O, ∅) ∅ 1 45) as [[_ H] _].
  apply H. split; [discriminate|]. left. unfold Qle. cbn. lia.
Defined.

(** ** The list of log groups of the environment *)

Import LogLambda.

Lemma split_commas_fields (s : string) :
  split_commas s <> []
  /\ Forall (fun field => has_comma field = false) (split_commas s).
Proof.
  induction s as [|c s [IH1 IH2]]; cbn [split_commas].
  - split; [discriminate|]. repeat constructor.
  - destruct (Ascii.eqb c ",") eqn:E.
    + split; [discriminate|]. constructor; [reflexivity|exact IH2].
    + destruct (split_commas s) as [|field fields]; [congruence|].
      split; [discriminate|].
      inversion IH2 as [|? ? Hf Hfs]; subst.
      constructor; [|exact Hfs]. cbn [has_comma]. rewrite E, Hf. reflexivity.
Qed.

Lemma lstrip_no_comma (s : string) :
  has_comma s = false -> has_comma (lstrip s) = false.
Proof.
  induction s as [|c s IH]; cbn [lstrip has_comma]; [auto|].
  intros H. apply orb_false_iff in H. destruct H as [Hc Hs].
  destruct (Re.is_space c); [apply IH, Hs|].
  cbn [has_comma]. rewrite Hc, Hs. reflexivity.
Qed.

Lemma rstrip_no_comma (s : string) :
  has_comma s = false -> has_comma (rstrip s) = false.
Proof.
  induction s as [|c s IH]; cbn [rstrip has_comma]; [auto|].
  intros H. apply orb_false_iff in H. destruct H as [Hc Hs].
  specialize (IH Hs).
  destruct (rstrip s) as [|d r].
  - destruct (Re.is_space c); [reflexivity|].
    cbn [has_comma]. rewrite Hc. reflexivity.
  - cbn [has_comma] in *. rewrite Hc. exact IH.
Qed.

Lemma rstrip_idempotent (s : string) : rstrip (rstrip s) = rstrip s.
Proof.
  induction s as [|c s IH]; cbn [rstrip]; [reflexivity|].
  destruct (rstrip s) as [|d r] eqn:E.
  - destruct (Re.is_space c) eqn:Hc; [reflexivity|].
    cbn [rstrip]. rewrite Hc. reflexivity.
  - change (rstrip (String c (String d r)) = String c (String d r)).
    cbn [rstrip]. cbn [rstrip] in IH. rewrite IH. reflexivity.
Qed.

Lemma lstrip_head (s : string) :
  lstrip s = EmptyString
  \/ exists c t, lstrip s = String c t /\ Re.is_space c = false.
Proof.
  induction s as [|c s IH]; cbn [lstrip]; [left; reflexivity|].
  destruct (Re.is_space c) eqn:E; [exact IH|].
  right. exists c, s. auto.
Qed.

Lemma rstrip_head (c : ascii) (t : string) :
  Re.is_space c = false -> exists r, rstrip (String c t) = String c r.
Proof.
  intros H. cbn [rstrip]. destruct (rstrip t) as [|d r].
  - rewrite H. eauto.
  - eauto.
Qed.

Lemma strip_idempotent (s : string) : strip (strip s) = strip s.
Proof.
  unfold strip.
  destruct (lstrip_head s) as [E|(c & t & E & Hc)]; rewrite E.
  - reflexivity.
  - destruct (rstrip_head c t Hc) as [r Er]. rewrite Er.
    cbn [lstrip]. rewrite Hc. rewrite <- Er. apply rstrip_idempotent.
Qed.

Lemma split_commas_clean (name : string) :
  has_comma name = false -> split_commas name = [name].
Proof.
  induction name as [|c name IH]; cbn [has_comma split_commas];
    [reflexivity|].
  intros H. apply orb_false_iff in H. destruct H as [Hc Hn].
  rewrite Hc, (IH Hn). reflexivity.
Qed.

Lemma split_commas_append (name rest : string) :
  has_comma name = false ->
  split_commas (String.append name (String "," rest))
  = name :: split_commas rest.
Proof.
  induction name as [|c name IH]; intros H.
  - reflexivity.
  - cbn [has_comma] in H. apply orb_false_iff in H. destruct H as [Hc Hn].
    change (split_commas
              (String c (String.append name (String "," rest)))
            = String c name :: split_commas rest).
    cbn [split_commas]. rewrite Hc, (IH Hn). reflexivity.
Qed.

Lemma split_join_commas (names : list string) :
  names <> [] ->
  Forall (fun name => has_comma name = false) names ->
  split_commas (join_commas names) = names.
Proof.
  induction names as [|name names IH]; [congruence|].
  intros _ H. inversion H as [|? ? Hn Hns]; subst.
  destruct names as [|name2 names].
  - apply split_commas_clean, Hn.
  - change (split_commas
              (String.append name (String "," (join_commas (name2 :: names))))
            = name :: name2 :: names).
    rewrite split_commas_append by exact Hn.
    rewrite IH; [reflexivity|discriminate|exact Hns].
Qed.

(** X10: the names read from [LOG_GROUPS] are not empty, have no comma
    and no white space at either end; and a list of such names, joined by
    commas, is read back as it was. *)
Theorem X10_log_groups_of_environment :
  (forall (LOG_GROUPS name : string),
      In name (parse_log_groups LOG_GROUPS) -> clean_name name)
  /\ (forall names : list string,
      Forall clean_name names ->
      parse_log_groups (join_commas names) = names).
Proof.
  split.
  - intros env name H. unfold parse_log_groups in H.
    apply List.filter_In in H. destruct H as [H Hne].
    apply List.in_map_iff in H. destruct H as (field & <- & Hf).
    destruct (split_commas_fields env) as [_ Hc].
    rewrite List.Forall_forall in Hc. specialize (Hc field Hf).
    split; [exact Hne|]. split.
    + unfold strip. apply rstrip_no_comma, lstrip_no_comma, Hc.
    + apply strip_idempotent.
  - intros names H. unfold parse_log_groups.
    destruct names as [|name names]; [reflexivity|].
    rewrite split_join_commas; [|discriminate|].
    + induction H as [|n ns (Hne & _ & Hs) _ IH]; [reflexivity|].
      cbn [map List.filter]. rewrite Hs, Hne, IH. reflexivity.
    + eapply List.Forall_impl; [|exact H]. intros n (_ & Hc & _). exact Hc.
Qed.

Lemma X10_log_groups_of_environment_witness :
  parse_log_groups " /aws/lambda/a , ,/aws/lambda/b"
  = ["/aws/lambda/a"; "/aws/lambda/b"]
  /\ parse_log_groups (join_commas ["/aws/lambda/a"; "/aws/lambda/b"])
     = ["/aws/lambda/a"; "/aws/lambda/b"].
Proof.
  destruct X10_log_groups_of_environment as [_ H].
  split; [reflexivity|]. apply H.
  repeat constructor.
Defined.



(** ** The pattern extractor *)

Lemma detect_patterns_member (messages : list string) (x : string) :
  x ∈ _detect_patterns messages
  <-> exists m, m ∈ take 100 messages /\ found_in x m.
Proof.
  unfold _detect_patterns.
  rewrite LogAnalyzerFacts.detect_patterns_fold. split.
  - intros [H|H]; [|exact H]. apply not_elem_of_empty in H. contradiction.
  - intros H. right. exact H.
Qed.

(** X11: on batches of at most 100 lines the extractor takes no notice
    of order or repetition: the patterns of two batches put together are
    the union of their patterns, and a batch and any reordering of it give
    the same set. *)
Theorem X11_patterns_of_small_batches :
  (forall m1 m2 : list string,
      (length (m1 ++ m2) <= 100)%nat ->
      _detect_patterns (m1 ++ m2)
      = _detect_patterns m1 ∪ _detect_patterns m2)
  /\ (forall m1 m2 : list string,
      Permutation m1 m2 -> (length m1 <= 100)%nat ->
      _detect_patterns m1 = _detect_patterns m2).
Proof.
  split.
  - intros m1 m2 Hlen. rewrite length_app in Hlen.
    apply set_eq. intros x.
    rewrite elem_of_union, !detect_patterns_member.
    rewrite !take_ge by (rewrite ?length_app; lia).
    split.
    + intros (m & Hm & Hf). apply elem_of_app in Hm.
      destruct Hm as [Hm|Hm]; [left|right]; exists m; auto.
    + intros [(m & Hm & Hf)|(m & Hm & Hf)]; exists m;
        (split; [apply elem_of_app; auto|exact Hf]).
  - intros m1 m2 P Hlen.
    apply set_eq. intros x. rewrite !detect_patterns_member.
    rewrite !take_ge by (rewrite <- ?(Permutation_length P); lia).
    split; intros (m & Hm & Hf); exists m; (split; [|exact Hf]).
    + rewrite <- P. exact Hm.
    + rewrite P. exact Hm.
Qed.

Lemma X11_patterns_of_small_batches_witness :
  _detect_patterns ["GET / 200"; "from 10.0.0.1"]
  = _detect_patterns ["from 10.0.0.1"; "GET / 200"].
Proof.
  destruct X11_patterns_of_small_batches as [_ H]. apply H.
  - apply perm_swap.
  - cbn [length]. lia.
Defined.

Lemma lang_times_digit (n : nat) (w : list ascii) :
  Re.lang (Re.times n (Re.Class Re.is_digit)) w ->
  length w = n /\ Forall (fun c => Re.is_digit c = true) w.
Proof.
  revert w. induction n as [|n IH]; intros w H; cbn [Re.times Re.lang] in H.
  - subst w. split; [reflexivity|constructor].
  - destruct H as (w1 & w2 & -> & (a & -> & Ha) & H2).
    destruct (IH _ H2) as [Hl Hf]. split.
    + cbn [app length]. rewrite Hl. reflexivity.
    + constructor; assumption.
Qed.

Lemma lang_upto_digit (n : nat) (w : list ascii) :
  Re.lang (Re.upto n (Re.Class Re.is_digit)) w ->
  (length w <= n)%nat /\ Forall (fun c => Re.is_digit c = true) w.
Proof.
  revert w. induction n as [|n IH]; intros w H; cbn [Re.upto Re.lang] in H.
  - subst w. split; [cbn; lia|constructor].
  - destruct H as [->|(w1 & w2 & -> & (a & -> & Ha) & H2)].
    + split; [cbn; lia|constructor].
    + destruct (IH _ H2) as [Hl Hf]. split.
      * cbn [app length]. lia.
      * constructor; assumption.
Qed.

Lemma lang_digits_1_3 (w : list ascii) :
  Re.lang (Re.range 1 3 (Re.Class Re.is_digit)) w -> digits_1_3 w.
Proof.
  unfold Re.range. cbn [Re.lang]. intros (w1 & w2 & -> & H1 & H2).
  apply lang_times_digit in H1. destruct H1 as [L1 F1].
  change (3 - 1)%nat with 2%nat in H2.
  apply lang_upto_digit in H2. destruct H2 as [L2 F2].
  split.
  - rewrite length_app. lia.
  - apply Forall_app. split; assumption.
Qed.

Lemma length_string_of_list (l : list ascii) :
  String.length (string_of_list_ascii l) = length l.
Proof.
  induction l as [|a l IH]; cbn [string_of_list_ascii String.length length];
    [reflexivity|].
  rewrite IH. reflexivity.
Qed.

(** X12: a token the extractor takes for an IP address is four groups of
    one to three digits with a dot between them, whatever their value;
    a token it takes for a timestamp has 19 characters. *)
Theorem X12_shape_of_tokens :
  (forall message x : string,
      x ∈ Re.findall ip_address_re message ->
      exists g1 g2 g3 g4 : list ascii,
        x = string_of_list_ascii
              (g1 ++ "."%char :: g2 ++ "."%char :: g3 ++ "."%char :: g4)
        /\ digits_1_3 g1 /\ digits_1_3 g2
        /\ digits_1_3 g3 /\ digits_1_3 g4)
  /\ (forall message x : string,
      x ∈ Re.findall timestamp_re message -> String.length x = 19%nat).
Proof.
  split.
  - intros message x H. apply list_elem_of_In in H.
    apply ReFacts.findall_from_sound in H. destruct H as (w & L & ->).
    unfold ip_address_re in L. cbn [Re.lang Re.times] in L.
    destruct L as (w0 & w1 & -> & -> & L).
    destruct L as (w1' & w2 & -> & L3 & L4).
    destruct L3 as (a1 & r1 & -> & (g1 & d1 & -> & G1 & ->) & L3).
    destruct L3 as (a2 & r2 & -> & (g2 & d2 & -> & G2 & ->) & L3).
    destruct L3 as (a3 & r3 & -> & (g3 & d3 & -> & G3 & ->) & ->).
    destruct L4 as (g4 & e4 & -> & G4 & ->).
    exists g1, g2, g3, g4.
    split.
    + f_equal. cbn [app]. repeat rewrite app_nil_r.
      repeat (rewrite <- app_assoc; cbn [app]). reflexivity.
    + repeat split; apply lang_digits_1_3; assumption.
  - intros message x H. apply list_elem_of_In in H.
    apply ReFacts.findall_from_sound in H. destruct H as (w & L & ->).
    unfold timestamp_re in L. cbv zeta in L. cbn [Re.lang] in L.
    destruct L as (d1 & r1 & -> & D1 & (s1 & r2 & -> & -> & L)).
    destruct L as (d2 & r3 & -> & D2 & (s2 & r4 & -> & -> & L)).
    destruct L as (d3 & r5 & -> & D3 & (s3 & r6 & -> & (c & -> & _) & L)).
    destruct L as (d4 & r7 & -> & D4 & (s4 & r8 & -> & -> & L)).
    destruct L as (d5 & r9 & -> & D5 & (s5 & r10 & -> & -> & D6)).
    apply lang_times_digit in D1, D2, D3, D4, D5, D6.
    destruct D1 as [L1 _], D2 as [L2 _], D3 as [L3 _], D4 as [L4 _],
             D5 as [L5 _], D6 as [L6 _].
    rewrite length_string_of_list.
    repeat (rewrite length_app || cbn [length app]). lia.
Qed.

End LogExtraFacts.

(** * More properties of the anomaly scorer and of its handler *)

Module ScorerExtraFacts.

Import AnomalyScorer ScorerSpec.
Local Open Scope Q_scope.

(** ** The order of the datapoints *)

Lemma insert_sorted_permutation (dp : datapoint) (l : list datapoint) :
  Permutation (insert_sorted dp l) (dp :: l).
Proof.
  induction l as [|x l IH]; cbn [insert_sorted].
  - reflexivity.
  - destruct (Timestamp dp <=? Timestamp x)%Z; [reflexivity|].
    rewrite IH. apply perm_swap.
Qed.

Lemma sorted_permutation (datapoints : list datapoint) :
  Permutation (sorted datapoints) datapoints.
Proof.
  induction datapoints as [|dp l IH]; cbn [sorted fold_right].
  - reflexivity.
  - fold (sorted l). rewrite insert_sorted_permutation, IH. reflexivity.
Qed.

Lemma insert_sorted_in_order (dp : datapoint) (l : list datapoint) :
  StronglySorted earlier_or_same l ->
  StronglySorted earlier_or_same (insert_sorted dp l).
Proof.
  induction 1 as [|x l Hl IH Hx]; cbn [insert_sorted].
  - repeat constructor.
  - destruct (Timestamp dp <=? Timestamp x)%Z eqn:E.
    + apply Z.leb_le in E. constructor.
      * constructor; assumption.
      * constructor; [exact E|].
        rewrite List.Forall_forall in *. intros y Hy.
        unfold earlier_or_same in *. specialize (Hx y Hy). lia.
    + apply Z.leb_gt in E. constructor; [exact IH|].
      rewrite List.Forall_forall in *. intros y Hy.
      apply (Permutation_in _ (insert_sorted_permutation dp l)) in Hy.
      destruct Hy as [<-|Hy]; [unfold earlier_or_same; lia|apply Hx, Hy].
Qed.

Lemma sorted_in_order (datapoints : list datapoint) :
  StronglySorted earlier_or_same (sorted datapoints).
Proof.
  induction datapoints as [|dp l IH]; cbn [sorted fold_right].
  - constructor.
  - apply insert_sorted_in_order, IH.
Qed.

Lemma at_time_insert_sorted (t : Z) (dp : datapoint) (l : list datapoint) :
  at_time t (insert_sorted dp l) = at_time t (dp :: l).
Proof.
  unfold at_time. induction l as [|x l IH]; cbn [insert_sorted].
  - reflexivity.
  - destruct (Timestamp dp <=? Timestamp x)%Z eqn:E; [reflexivity|].
    apply Z.leb_gt in E. cbn [List.filter] in *. rewrite IH.
    destruct (Timestamp x =? t)%Z eqn:Ex, (Timestamp dp =? t)%Z eqn:Ed;
      try reflexivity.
    apply Z.eqb_eq in Ex, Ed. lia.
Qed.

(** X13: the datapoints are scored in the order of their timestamps: the
    sorted list has the same datapoints, timestamps never decrease along
    it, and datapoints of one timestamp keep the order they came in. *)
Theorem X13_sorted_by_timestamp_stable :
  forall datapoints : list datapoint,
    Permutation (sorted datapoints) datapoints
    /\ StronglySorted earlier_or_same (sorted datapoints)
    /\ forall t : Z, at_time t (sorted datapoints) = at_time t datapoints.
Proof.
  intros datapoints. split; [apply sorted_permutation|].
  split; [apply sorted_in_order|].
  intros t. induction datapoints as [|dp l IH]; cbn [sorted fold_right].
  - reflexivity.
  - fold (sorted l). rewrite at_time_insert_sorted.
    unfold at_time in *. cbn [List.filter]. rewrite IH. reflexivity.
Qed.

Lemma in_order_unique (l1 : list datapoint) :
  forall l2 : list datapoint,
    StronglySorted earlier_or_same l1 ->
    StronglySorted earlier_or_same l2 ->
    Permutation l1 l2 ->
    NoDup (map Timestamp l1) ->
    l1 = l2.
Proof.
  induction l1 as [|a l1 IH]; intros l2 S1 S2 P N.
  - apply Permutation_nil in P. congruence.
  - destruct l2 as [|b l2].
    { symmetry in P. apply Permutation_nil in P. discriminate. }
    inversion S1 as [|? ? S1' Ha]; subst.
    inversion S2 as [|? ? S2' Hb]; subst.
    cbn [map] in N. inversion N as [|? ? Hnot N']; subst.
    assert (E : a = b).
    { assert (Hina : In a (b :: l2))
        by (apply (Permutation_in _ P); left; reflexivity).
      assert (Hinb : In b (a :: l1))
        by (apply (Permutation_in _ (Permutation_sym P)); left; reflexivity).
      destruct Hina as [->|Hina]; [reflexivity|].
      destruct Hinb as [->|Hinb]; [reflexivity|].
      rewrite List.Forall_forall in Ha, Hb.
      specialize (Ha b Hinb). specialize (Hb a Hina).
      unfold earlier_or_same in *.
      exfalso. apply Hnot.
      replace (Timestamp a) with (Timestamp b) by lia.
      apply list_elem_of_In, List.in_map, Hinb. }
    subst b. f_equal.
    apply IH; [exact S1'|exact S2'|exact (Permutation_cons_inv P)|exact N'].
Qed.

Lemma sorted_of_permutation (d1 d2 : list datapoint) :
  Permutation d1 d2 ->
  NoDup (map Timestamp d1) ->
  sorted d1 = sorted d2.
Proof.
  intros P N. apply in_order_unique.
  - apply sorted_in_order.
  - apply sorted_in_order.
  - rewrite !sorted_permutation. exact P.
  - rewrite (Permutation_map Timestamp (sorted_permutation d1)). exact N.
Qed.

(** X14: the result of [score_metric] does not depend on the order in
    which CloudWatch returns the datapoints, when no two of them have the
    same timestamp. *)
Theorem X14_score_independent_of_arrival_order :
  forall (np_sqrt : Q -> Q) (self : scorer) (d1 d2 : list datapoint),
    Permutation d1 d2 ->
    NoDup (map Timestamp d1) ->
    score_metric np_sqrt self d1 = score_metric np_sqrt self d2.
Proof.
  intros np_sqrt self d1 d2 P N. unfold score_metric.
  rewrite (sorted_of_permutation d1 d2 P N).
  rewrite (Permutation_length P). reflexivity.
Qed.

Lemma X14_score_independent_of_arrival_order_witness :
  score_metric sqrt_floor __init__
    (series_of (repeat 5 9 ++ [7]))
  = score_metric sqrt_floor __init__
      (rev (series_of (repeat 5 9 ++ [7]))).
Proof.
  apply X14_score_independent_of_arrival_order.
  - apply Permutation_rev.
  - apply NoDup_ListNoDup. vm_compute.
    repeat (constructor; [cbn; intuition discriminate|]). constructor.
Defined.


(** ** The parts of a score *)

Lemma calculate_score_fields (np_sqrt : Q -> Q) (values b : list Q) :
  take (split_index (length values)) values = b ->
  b <> [] ->
  exists r : score_result,
    _calculate_score np_sqrt values = Some r
    /\ baseline_mean r = mean b
    /\ baseline_std r
       = (if Qeq_bool (std np_sqrt b) 0 then 1 # 1000 else std np_sqrt b)
    /\ z_score r
       = Qabs ((default 0 (last values) - mean b) / baseline_std r)
    /\ percentile r = percentileofscore b (default 0 (last values))
    /\ trend r
       = _analyze_trend (drop (split_index (length values)) values)
    /\ score r = weighted_score (z_score r) (percentile r) (trend r)
    /\ severity r = severity_of (score r).
Proof.
  intros Hb Hne. unfold _calculate_score.
  destruct values as [|v vs].
  { rewrite take_nil in Hb. congruence. }
  cbv zeta. rewrite Hb.
  destruct b as [|b0 bs]; [congruence|].
  eexists. split; [reflexivity|]. cbn.
  repeat split; reflexivity.
Qed.

Lemma baseline_nonempty (values : list Q) :
  (2 <= length values)%nat ->
  take (split_index (length values)) values <> [].
Proof.
  intros Hlen E. apply (f_equal length) in E.
  rewrite length_take in E. cbn [length] in E.
  destruct (AnomalyScorerFacts.split_index_bounds (length values)) as [_ H].
  specialize (H Hlen). lia.
Qed.

(** ** Short series *)





(** ** The handler *)

Import ScorerLambda.

Lemma severity_of_critical (s : Q) :
  severity_of s = CRITICAL <-> 7 # 10 <= s.
Proof.
  unfold severity_of. destruct (Qle_bool (7 # 10) s) eqn:E.
  - apply Qle_bool_iff in E. tauto.
  - split; [|intros H; apply Qle_bool_iff in H; congruence].
    destruct (Qle_bool (5 # 10) s), (Qle_bool (3 # 10) s); discriminate.
Qed.

Lemma scored_by_default (np_sqrt : Q -> Q) (datapoints : list datapoint)
    (r : score_result) (c : option Q) (n : nat) :
  score_metric np_sqrt __init__ datapoints = Scored r c n ->
  severity r = severity_of (score r).
Proof.
  unfold score_metric. intros H.
  destruct (length datapoints <? min_data_points __init__)%nat eqn:G;
    [discriminate|].
  apply Nat.ltb_ge in G. cbn [min_data_points __init__] in G.
  assert (Hne : take (split_index (length (map AnomalyScorer.Value
                                             (sorted datapoints))))
                  (map AnomalyScorer.Value (sorted datapoints)) <> []).
  { apply baseline_nonempty. rewrite AnomalyScorerFacts.values_length. lia. }
  destruct (calculate_score_fields np_sqrt _ _ eq_refl Hne)
    as (r' & Hr & _ & _ & _ & _ & _ & _ & Hsev).
  cbv zeta in H. rewrite Hr in H. injection H as <- _ _. exact Hsev.
Qed.

Lemma insufficient_by_default (np_sqrt : Q -> Q) (self : scorer)
    (datapoints : list datapoint) (a : Q) (n : nat) :
  score_metric np_sqrt self datapoints = InsufficientData a n ->
  a = 0 /\ n = length datapoints /\ (n < min_data_points self)%nat.
Proof.
  unfold score_metric.
  destruct (length datapoints <? min_data_points self)%nat eqn:G.
  - intros H. injection H as <- <-. apply Nat.ltb_lt in G. auto.
  - cbv zeta. destruct (_calculate_score _ _); discriminate.
Qed.

Lemma in_effects {A B : Type} (f : A -> list B) (l : list A) (e : B) :
  In e (concat (map f l)) <-> exists x, In x l /\ In e (f x).
Proof.
  rewrite List.in_concat. split.
  - intros (es & Hes & He). apply List.in_map_iff in Hes.
    destruct Hes as (x & <- & Hx). eauto.
  - intros (x & Hx & He). exists (f x). split; [|exact He].
    apply List.in_map, Hx.
Qed.

(** X20: with a threshold above 0, the handler of the anomaly scorer
    publishes an alert only for a full result whose score reaches the
    threshold, with the tier of this result; from the threshold 0.7 on
    every alert is CRITICAL; and with a topic and a threshold of at
    most 0.7, every CRITICAL result is alerted. *)
Theorem X20_alerts_of_the_scorer :
  forall (np_sqrt : Q -> Q) (topic : option string) (threshold : Q)
         (fetch : option string -> option string -> list dimension ->
                  string -> response)
         (metrics : option (list metric)),
    0 < threshold ->
    let out := lambda_handler np_sqrt topic threshold fetch metrics in
    (forall (t : string) (sev : tier) (s : scored),
        In (Publish t sev s) (snd out) ->
        configured topic = Some t
        /\ In s (snd (fst out))
        /\ exists (r : score_result) (c : option Q) (n : nat),
             result_of s = Outcome (Scored r c n)
             /\ threshold <= score r
             /\ sev = severity r
             /\ (7 # 10 <= threshold -> sev = CRITICAL))
    /\ (forall (t : string) (s : scored) (r : score_result)
               (c : option Q) (n : nat),
          configured topic = Some t ->
          threshold <= 7 # 10 ->
          In s (snd (fst out)) ->
          result_of s = Outcome (Scored r c n) ->
          severity r = CRITICAL ->
          In (Publish t CRITICAL s) (snd out)).
Proof.
  intros np_sqrt topic threshold fetch metrics Hpos. cbv zeta.
  unfold lambda_handler. cbn [fst snd].
  set (results := score_multiple_metrics np_sqrt fetch __init__ _).
  assert (Hres : forall s r c n,
             In s results -> result_of s = Outcome (Scored r c n) ->
             severity r = severity_of (score r)).
  { intros s r c n Hin Hs. unfold results, score_multiple_metrics in Hin.
    apply List.in_map_iff in Hin. destruct Hin as (m & <- & _).
    unfold score_metric_call in Hs. cbn [result_of] in Hs.
    destruct (fetch _ _ _ _) as [dps|msg]; [|discriminate].
    injection Hs as Hs. apply (scored_by_default _ _ _ _ _ Hs). }
  assert (Hins : forall s a k,
             In s results -> result_of s = Outcome (InsufficientData a k) ->
             a = 0).
  { intros s a k Hin Hs. unfold results, score_multiple_metrics in Hin.
    apply List.in_map_iff in Hin. destruct Hin as (m & <- & _).
    unfold score_metric_call in Hs. cbn [result_of] in Hs.
    destruct (fetch _ _ _ _) as [dps|msg]; [|discriminate].
    injection Hs as Hs. apply (insufficient_by_default _ _ _ _ _ Hs). }
  split.
  - intros t sev s H. apply in_effects in H. destruct H as (x & Hx & H).
    unfold process_result in H.
    destruct (has_error x); [destruct H|].
    apply List.in_app_or in H. destruct H as [H|H].
    { unfold publish_metric in H. destruct H as [H|[]]. discriminate. }
    unfold publish_anomaly_alert in H.
    destruct (configured topic) as [t'|]; [|destruct H].
    destruct (at_least (reported_score x) threshold) eqn:A;
      [|destruct H].
    destruct H as [H|[]]. injection H as -> <- ->.
    split; [reflexivity|]. split; [exact Hx|].
    unfold reported_score, reported_severity in *.
    destruct (result_of s) as [[a k|r c n|k]|msg] eqn:R;
      cbn [at_least] in A; try discriminate.
    + apply Qle_bool_iff in A. rewrite (Hins s a k Hx R) in A. lra.
    + apply Qle_bool_iff in A.
      pose proof (Hres s r c n Hx R) as Hsev.
      exists r, c, n. split; [reflexivity|]. split; [exact A|].
      split; [reflexivity|].
      intros H7. rewrite Hsev. apply severity_of_critical. lra.
    + apply Qle_bool_iff in A. lra.
  - intros t s r c n Ht Hth Hin Hs Hcrit.
    apply in_effects. exists s. split; [exact Hin|].
    unfold process_result, has_error. rewrite Hs.
    apply List.in_or_app. right.
    unfold publish_anomaly_alert. rewrite Ht.
    unfold reported_score, reported_severity. rewrite Hs.
    cbn [at_least].
    pose proof (Hres s r c n Hin Hs) as Hsev.
    rewrite Hsev in Hcrit. apply severity_of_critical in Hcrit.
    rewrite (proj2 (Qle_bool_iff threshold (score r))) by lra.
    rewrite Hsev. rewrite (proj2 (severity_of_critical _) Hcrit).
    left. reflexivity.
Qed.

Lemma X20_alerts_of_the_scorer_witness :
  let fetch := fun (_ _ : option string) (_ : list dimension) (_ : string) =>
                 Datapoints (series_of steep_values) in
  let m := {| namespace := Some "AWS/Lambda"; metric_name := Some "Duration";
              dimensions := None; statistic := Some "Average" |} in
  In (Publish "arn:aws:sns:alerts" CRITICAL
        (score_metric_call sqrt_floor fetch __init__ m))
    (snd (lambda_handler sqrt_floor (Some "arn:aws:sns:alerts") (7 # 10)
            fetch (Some [m]))).
Proof.
  cbv zeta.
  destruct (X20_alerts_of_the_scorer sqrt_floor (Some "arn:aws:sns:alerts")
              (7 # 10)
              (fun (_ _ : option string) (_ : list dimension) (_ : string) =>
                 Datapoints (series_of steep_values))
              (Some [{| namespace := Some "AWS/Lambda";
                        metric_name := Some "Duration";
                        dimensions := None;
                        statistic := Some "Average" |}])) as (_ & H).
  - unfold Qlt. cbn. lia.
  - eapply H.
    + reflexivity.
    + apply Qle_refl.
    + left. reflexivity.
    + vm_compute. reflexivity.
    + vm_compute. reflexivity.
Defined.

Lemma last_snoc_dimension (l : list dimension) (d : dimension) :
  last (l ++ [d]) = Some d.
Proof. apply last_snoc. Qed.

(** X21: the handler of the anomaly scorer returns status 200 and one
    result for each metric, in order, for the three default metrics when
    the event names none; every result that is no error, and no other,
    is put to CloudWatch once, with its score (0 for insufficient data)
    and a list of dimensions that ends with MetricName. *)
Theorem X21_results_and_metrics_of_the_scorer :
  forall (np_sqrt : Q -> Q) (topic : option string) (threshold : Q)
         (fetch : option string -> option string -> list dimension ->
                  string -> response)
         (metrics : option (list metric)),
    let out := lambda_handler np_sqrt topic threshold fetch metrics in
    let results := snd (fst out) in
    fst (fst out) = 200%Z
    /\ map of_metric results = chosen_metrics metrics
    /\ (default [] metrics = [] -> map of_metric results = default_metrics)
    /\ (forall (dims : list dimension) (v : float64),
          In (PutMetricData dims v) (snd out) ->
          exists s : scored,
            In s results /\ has_error s = false
            /\ v = reported_score s
            /\ last dims
               = Some {| Name := "MetricName";
                         Value := metric_name (of_metric s) |})
    /\ (forall s : scored,
          In s results -> has_error s = false ->
          exists dims : list dimension,
            In (PutMetricData dims (reported_score s)) (snd out))
    /\ (forall (s : scored) (a : Q) (n : nat),
          In s results ->
          result_of s = Outcome (InsufficientData a n) ->
          In (PutMetricData
                [{| Name := "MetricName";
                    Value := metric_name (of_metric s) |}]
                (Finite 0))
            (snd out))
    /\ length (List.filter is_put (snd out))
       = length (List.filter (fun s => negb (has_error s)) results).
Proof.
  intros np_sqrt topic threshold fetch metrics. cbv zeta.
  unfold lambda_handler. cbn [fst snd].
  set (chosen := chosen_metrics metrics).
  set (results := score_multiple_metrics np_sqrt fetch __init__ chosen).
  assert (Hof : map of_metric results = chosen).
  { unfold results, score_multiple_metrics. rewrite List.map_map.
    cbn [of_metric score_metric_call]. apply List.map_id. }
  split; [reflexivity|]. split; [exact Hof|].
  split; [|split; [|split; [|split]]].
  - intros Hnone. rewrite Hof. unfold chosen, chosen_metrics.
    rewrite Hnone. reflexivity.
  - intros dims v H. apply in_effects in H. destruct H as (s & Hs & H).
    unfold process_result in H.
    destruct (has_error s) eqn:E; [destruct H|].
    apply List.in_app_or in H. destruct H as [H|H].
    + unfold publish_metric in H. destruct H as [H|[]].
      injection H as <- <-. exists s.
      split; [exact Hs|]. split; [exact E|]. split; [reflexivity|].
      apply last_snoc_dimension.
    + unfold publish_anomaly_alert in H.
      destruct (configured topic); [|destruct H].
      destruct (at_least _ _); [|destruct H].
      destruct H as [H|[]]. discriminate.
  - intros s Hs E. eexists. apply in_effects. exists s.
    split; [exact Hs|]. unfold process_result. rewrite E.
    apply List.in_or_app. left. left. reflexivity.
  - intros s a n Hs R.
    assert (Ha : a = 0).
    { unfold results, score_multiple_metrics in Hs.
      apply List.in_map_iff in Hs. destruct Hs as (m & <- & _).
      unfold score_metric_call in R. cbn [result_of] in R.
      destruct (fetch _ _ _ _) as [dps|msg]; [|discriminate].
      injection R as R. apply (insufficient_by_default _ _ _ _ _ R). }
    subst a. apply in_effects. exists s. split; [exact Hs|].
    unfold process_result, has_error. rewrite R.
    apply List.in_or_app. left.
    unfold publish_metric, reported_dimensions, reported_score. rewrite R.
    left. reflexivity.
  - clear Hof. induction results as [|s rest IH]; [reflexivity|].
    cbn [map concat List.filter]. rewrite List.filter_app, length_app, IH.
    unfold process_result.
    destruct (has_error s); cbn [negb List.filter length]; [reflexivity|].
    rewrite List.filter_app, length_app.
    unfold publish_metric, publish_anomaly_alert.
    cbn [List.filter is_put length].
    destruct (configured topic); [|reflexivity].
    destruct (at_least _ _); reflexivity.
Qed.

Lemma X21_results_and_metrics_of_the_scorer_witness :
  map of_metric
    (snd (fst (lambda_handler sqrt_floor None (7 # 10)
                 (fun (_ _ : option string) (_ : list dimension)
                      (_ : string) => Datapoints [])
                 (Some []))))
  = default_metrics.
Proof.
  destruct (X21_results_and_metrics_of_the_scorer sqrt_floor None (7 # 10)
              (fun (_ _ : option string) (_ : list dimension)
                   (_ : string) => Datapoints [])
              (Some [])) as (_ & _ & H & _).
  apply H. reflexivity.
Defined.

End ScorerExtraFacts.
